(** * Sensor dashboard: the live-telemetry ingestion and presentation model

    A shallow embedding of the dashboard component ([src/App.tsx], its
    variant that also writes readings to the store, and
    [src/components/LineChart.tsx]).

    The component is a set of event callbacks over six React state cells.
    Each callback is embedded as a computation in a small monad that threads
    the state cells, collects the outward effects the callback issues
    (console output, subscriptions, HTTP requests) and can complete abruptly,
    as a JavaScript statement can.  JavaScript numbers are IEEE-754 doubles
    and are embedded as primitive floats. *)

From Equations Require Import Equations.
From Stdlib Require Import ZArith List String Ascii Bool Arith Lia ZifyNat.
From Stdlib Require Import Floats Uint63.
From Stdlib Require Import QArith Permutation Sorted.
Import ListNotations.

Set Warnings "-register-all".

Close Scope Q_scope.
Local Open Scope string_scope.
Local Open Scope list_scope.

(** ** Values *)

(** A JavaScript number. *)
Definition number := float.
Bind Scope float_scope with number.

(** What [JSON.parse] can return.  The state cell for the live reading is
    declared [{temperature: number; humidity: number} | null], but the
    declaration is erased at run time: the cell holds whatever was decoded. *)
Inductive JSValue : Type :=
| JNull
| JBool (b : bool)
| JNumber (n : number)
| JString (s : string)
| JArray (items : list JSValue)
| JObject (fields : list (string * JSValue)).

(** Own-property lookup, [o[key]]; [None] stands for [undefined]. *)
Fixpoint getField (key : string) (fields : list (string * JSValue))
  : option JSValue :=
  match fields with
  | [] => None
  | (k, v) :: rest => if String.eqb k key then Some v else getField key rest
  end.

Definition isNumber (v : option JSValue) : bool :=
  match v with Some (JNumber _) => true | _ => false end.

(** The Reading shape, [{ temperature: number, humidity: number }]. *)
Definition isReading (v : JSValue) : bool :=
  match v with
  | JObject fields =>
      isNumber (getField "temperature" fields)
      && isNumber (getField "humidity" fields)
  | _ => false
  end.

(** An element of the historical series,
    [{ timestamp: string; temperature: number; humidity: number }]. *)
Record HistoricalReading : Type := mkHistoricalReading {
  timestamp : string;
  temperature : number;
  humidity : number
}.

(** A valid [Date], seen through the three local-time getters [fetchData]
    calls.  [getMonth()] counts from 0.  (An invalid [Date] never reaches
    [fetchData]: rendering the date input calls [toISOString()] on it, which
    throws.) *)
Record Date : Type := mkDate {
  getFullYear : Z;
  getMonth : Z;
  getDate : Z
}.

(** ** State cells and effects *)

(** The six [useState] cells.  The historical series holds what the server
    sent, at the type the component declares for it. *)
Record AppState : Type := mkAppState {
  realTimeData : JSValue;
  historicalData : list HistoricalReading;
  isLoading : bool;
  mqttConnected : bool;
  selectedDate : Date;
  lastUpdate : option string
}.

(** The values the [useState] calls start from; [selectedDate] starts at the
    current day. *)
Definition initialState (today : Date) : AppState :=
  {| realTimeData := JNull;
     historicalData := [];
     isLoading := false;
     mqttConnected := false;
     selectedDate := today;
     lastUpdate := None |}.

Inductive Effect : Type :=
| ConsoleLog (label : string)
| ConsoleError (label : string)
| Subscribe (topic : string)
| FetchGet (url : string)
| FetchPost (url : string) (body : string)
| ClientEnd.

(** What a thrown value is, as far as the callbacks can tell. *)
Inductive JSError : Type :=
| SyntaxError
| TypeError.

(** ** The callback monad *)

Inductive Completion (A : Type) : Type :=
| Normal (a : A) (s : AppState) (out : list Effect)
| Abrupt (e : JSError) (s : AppState) (out : list Effect).
Arguments Normal {A} a s out.
Arguments Abrupt {A} e s out.

Definition Callback (A : Type) : Type := AppState -> Completion A.

Definition ret {A : Type} (a : A) : Callback A :=
  fun s => Normal a s [].

Definition bind {A B : Type} (m : Callback A) (k : A -> Callback B)
  : Callback B :=
  fun s =>
    match m s with
    | Normal a s1 out1 =>
        match k a s1 with
        | Normal b s2 out2 => Normal b s2 (out1 ++ out2)
        | Abrupt e s2 out2 => Abrupt e s2 (out1 ++ out2)
        end
    | Abrupt e s1 out1 => Abrupt e s1 out1
    end.

Definition throw {A : Type} (e : JSError) : Callback A :=
  fun s => Abrupt e s [].

(** [try { body } catch (error) { handler }]. *)
Definition try_catch {A : Type} (body : Callback A)
  (handler : JSError -> Callback A) : Callback A :=
  fun s =>
    match body s with
    | Normal a s1 out1 => Normal a s1 out1
    | Abrupt e s1 out1 =>
        match handler e s1 with
        | Normal a s2 out2 => Normal a s2 (out1 ++ out2)
        | Abrupt e' s2 out2 => Abrupt e' s2 (out1 ++ out2)
        end
    end.

Definition emit (eff : Effect) : Callback unit :=
  fun s => Normal tt s [eff].

Declare Scope callback_scope.
Delimit Scope callback_scope with callback.
Notation "x <- m ;; k" := (bind m (fun x => k))
  (at level 61, m at next level, right associativity) : callback_scope.
Notation "m ;; k" := (bind m (fun _ => k))
  (at level 61, right associativity) : callback_scope.
Local Open Scope callback_scope.

(** The state setters.  [setHistoricalData] is also called with an updater
    function, [setHistoricalData(prev => ...)]. *)
Definition setRealTimeData (v : JSValue) : Callback unit :=
  fun s => Normal tt
    (mkAppState v (historicalData s) (isLoading s) (mqttConnected s)
       (selectedDate s) (lastUpdate s)) [].

Definition setHistoricalData (v : list HistoricalReading) : Callback unit :=
  fun s => Normal tt
    (mkAppState (realTimeData s) v (isLoading s) (mqttConnected s)
       (selectedDate s) (lastUpdate s)) [].

Definition updateHistoricalData
  (f : list HistoricalReading -> list HistoricalReading) : Callback unit :=
  fun s => Normal tt
    (mkAppState (realTimeData s) (f (historicalData s)) (isLoading s)
       (mqttConnected s) (selectedDate s) (lastUpdate s)) [].

Definition setIsLoading (v : bool) : Callback unit :=
  fun s => Normal tt
    (mkAppState (realTimeData s) (historicalData s) v (mqttConnected s)
       (selectedDate s) (lastUpdate s)) [].

Definition setMqttConnected (v : bool) : Callback unit :=
  fun s => Normal tt
    (mkAppState (realTimeData s) (historicalData s) (isLoading s) v
       (selectedDate s) (lastUpdate s)) [].

Definition setSelectedDate (v : Date) : Callback unit :=
  fun s => Normal tt
    (mkAppState (realTimeData s) (historicalData s) (isLoading s)
       (mqttConnected s) v (lastUpdate s)) [].

Definition setLastUpdate (v : string) : Callback unit :=
  fun s => Normal tt
    (mkAppState (realTimeData s) (historicalData s) (isLoading s)
       (mqttConnected s) (selectedDate s) (Some v)) [].

Definition readSelectedDate : Callback Date :=
  fun s => Normal (selectedDate s) s [].

Definition console_log (label : string) : Callback unit :=
  emit (ConsoleLog label).

Definition console_error (label : string) : Callback unit :=
  emit (ConsoleError label).

(** ** String and number built-ins used by [fetchData] *)

Definition digitChar (d : nat) : ascii := ascii_of_nat (48 + d).

(** Decimal digits of a natural number, most significant first. *)
Equations? digits (n : nat) : string by wf n lt :=
  digits n with lt_dec n 10 => {
    | left _ := String (digitChar n) EmptyString;
    | right _ :=
        digits (n / 10) ++ String (digitChar (n mod 10)) EmptyString }.
Proof. change (n / 10 < n)%nat. apply Nat.div_lt; lia. Qed.

(** [Number.prototype.toString()] on an integral number. *)
Definition Number_toString (n : Z) : string :=
  match n with
  | Z0 => "0"
  | Zpos p => digits (Pos.to_nat p)
  | Zneg p => "-" ++ digits (Pos.to_nat p)
  end.

Fixpoint String_repeat (s : string) (count : nat) : string :=
  match count with
  | O => EmptyString
  | S count' => s ++ String_repeat s count'
  end.

(** [s.padStart(targetLength, padString)]: the filler is [padString]
    repeated and cut to the missing length. *)
Definition String_padStart (s : string) (targetLength : nat)
  (padString : string) : string :=
  let len := String.length s in
  if (targetLength <=? len)%nat then s
  else if String.eqb padString EmptyString then s
  else
    let fillLen := (targetLength - len)%nat in
    substring 0 fillLen (String_repeat padString fillLen) ++ s.

(** [s.slice(start)]: a negative [start] counts from the end. *)
Definition String_slice (s : string) (start : Z) : string :=
  let len := Z.of_nat (String.length s) in
  let from := if (start <? 0)%Z then Z.max (len + start) 0
              else Z.min start len in
  substring (Z.to_nat from) (Z.to_nat (len - from)) s.

(** The path component [fetchData] builds from the selected date. *)
Definition formattedDate (d : Date) : string :=
  let day := String_padStart (Number_toString (getDate d)) 2 "0" in
  let month := String_padStart (Number_toString (getMonth d + 1)) 2 "0" in
  let year := String_slice (Number_toString (getFullYear d)) (-2) in
  day ++ "_" ++ month ++ "_" ++ year.

Definition API_URL (d : Date) : string :=
  "http://localhost:8080/api/sensor/" ++ formattedDate d.

Definition MQTT_TOPIC : string := "sensor/data".

(** ** The callbacks *)

(** The repository holds two versions of the component: the dashboard, and
    the dashboard that also posts every reading to the store. *)
Inductive Variant : Type :=
| Dashboard
| DashboardWithStore.

Section Callbacks.

(** [JSON.parse]: [None] when it throws a [SyntaxError]. *)
Variable JSON_parse : string -> option JSValue.

(** [JSON.stringify], on values that [JSON.parse] returned. *)
Variable JSON_stringify : JSValue -> string.

Definition parseJSON (text : string) : Callback JSValue :=
  match JSON_parse text with
  | Some v => ret v
  | None => throw SyntaxError
  end.

(** [fetchData], up to the point where the request is in flight. *)
Definition fetchData : Callback unit :=
  setIsLoading true ;;
  d <- readSelectedDate ;;
  emit (FetchGet (API_URL d)).

(** [.then((data) => { setHistoricalData(data); setIsLoading(false); })],
    run when the response arrived and its body decoded to [data]. *)
Definition fetchData_then (data : list HistoricalReading) : Callback unit :=
  setHistoricalData data ;;
  setIsLoading false.

(** [.catch((err) => { console.error(...); setIsLoading(false); })], run
    when the request or the decoding of its body failed. *)
Definition fetchData_catch : Callback unit :=
  console_error "Error fetching data:" ;;
  setIsLoading false.

(** [client.on("connect", ...)]. *)
Definition on_connect : Callback unit :=
  console_log "Connected to MQTT" ;;
  setMqttConnected true ;;
  emit (Subscribe MQTT_TOPIC).

(** [client.on("message", (topic, message) => ...)].  [message] is the
    payload text, [message.toString()]; [now] is what
    [new Date().toLocaleTimeString()] returns when the callback runs. *)
Definition on_message (variant : Variant) (topic message now : string)
  : Callback unit :=
  if String.eqb topic MQTT_TOPIC then
    try_catch
      (newData <- parseJSON message ;;
       setRealTimeData newData ;;
       setLastUpdate now ;;
       match variant with
       | Dashboard => ret tt
       | DashboardWithStore =>
           emit (FetchPost "http://localhost:8080/api/sensor"
                   (JSON_stringify newData))
       end)
      (fun error => console_error "Error parsing MQTT message:")
  else ret tt.

(** [.then((savedData) => { console.log(...);
    setHistoricalData((prevData) => [...prevData, savedData]); })]. *)
Definition store_then (savedData : HistoricalReading) : Callback unit :=
  console_log "Data stored:" ;;
  updateHistoricalData (fun prevData => prevData ++ [savedData]).

(** [.catch((err) => console.error("Error storing data:", err))]. *)
Definition store_catch : Callback unit :=
  console_error "Error storing data:".

(** [client.on("error", ...)]. *)
Definition on_error : Callback unit :=
  console_error "MQTT Connection Error:" ;;
  setMqttConnected false.

(** The effect's clean-up function. *)
Definition cleanup (variant : Variant) : Callback unit :=
  match variant with
  | Dashboard => emit ClientEnd
  | DashboardWithStore =>
      console_log "Disconnecting from MQTT..." ;;
      emit ClientEnd
  end.

(** ** The component as an event-driven system *)

(** What can happen to the mounted component. *)
Inductive Event : Type :=
| MqttConnect
| MqttMessage (topic message now : string)
| MqttError
| SelectDate (d : Date)
| ClickFetch
| FetchResolved (data : list HistoricalReading)
| FetchRejected
| StoreResolved (savedData : HistoricalReading)
| StoreRejected.

(** The component's state together with the requests that are in flight
    and everything the callbacks have issued so far. *)
Record World : Type := mkWorld {
  app : AppState;
  openGets : nat;
  openPosts : nat;
  issued : list Effect;
  uncaught : list JSError
}.

Definition initialWorld (today : Date) : World :=
  mkWorld (initialState today) 0 0 [] [].

Definition isGet (eff : Effect) : bool :=
  match eff with FetchGet _ => true | _ => false end.

Definition isPost (eff : Effect) : bool :=
  match eff with FetchPost _ _ => true | _ => false end.

(** Run one callback to completion in a world. *)
Definition invoke (cb : Callback unit) (w : World) : World :=
  match cb (app w) with
  | Normal _ s out =>
      mkWorld s
        (openGets w + List.length (filter isGet out))
        (openPosts w + List.length (filter isPost out))
        (issued w ++ out) (uncaught w)
  | Abrupt e s out =>
      mkWorld s
        (openGets w + List.length (filter isGet out))
        (openPosts w + List.length (filter isPost out))
        (issued w ++ out) (uncaught w ++ [e])
  end.

Definition settleGet (w : World) : World :=
  mkWorld (app w) (Nat.pred (openGets w)) (openPosts w) (issued w)
    (uncaught w).

Definition settlePost (w : World) : World :=
  mkWorld (app w) (openGets w) (Nat.pred (openPosts w)) (issued w)
    (uncaught w).

(** One event; [None] when the event cannot happen in that world: a
    response needs a request in flight, and the fetch button is rendered
    with [disabled={isLoading}]. *)
Definition dispatch (variant : Variant) (ev : Event) (w : World)
  : option World :=
  match ev with
  | MqttConnect => Some (invoke on_connect w)
  | MqttMessage topic message now =>
      Some (invoke (on_message variant topic message now) w)
  | MqttError => Some (invoke on_error w)
  | SelectDate d => Some (invoke (setSelectedDate d) w)
  | ClickFetch =>
      if isLoading (app w) then None else Some (invoke fetchData w)
  | FetchResolved data =>
      match openGets w with
      | O => None
      | S _ => Some (invoke (fetchData_then data) (settleGet w))
      end
  | FetchRejected =>
      match openGets w with
      | O => None
      | S _ => Some (invoke fetchData_catch (settleGet w))
      end
  | StoreResolved savedData =>
      match openPosts w with
      | O => None
      | S _ => Some (invoke (store_then savedData) (settlePost w))
      end
  | StoreRejected =>
      match openPosts w with
      | O => None
      | S _ => Some (invoke store_catch (settlePost w))
      end
  end.

Fixpoint run (variant : Variant) (evs : list Event) (w : World)
  : option World :=
  match evs with
  | [] => Some w
  | ev :: rest =>
      match dispatch variant ev w with
      | Some w' => run variant rest w'
      | None => None
      end
  end.

(** The state after a reading was taken in: two cells written, four
    untouched. *)
Definition withReading (v : JSValue) (now : string) (s : AppState)
  : AppState :=
  mkAppState v (historicalData s) (isLoading s) (mqttConnected s)
    (selectedDate s) (Some now).

(** What a message callback issues once the payload decoded to [v]. *)
Definition storeRequest (variant : Variant) (v : JSValue) : list Effect :=
  match variant with
  | Dashboard => []
  | DashboardWithStore =>
      [FetchPost "http://localhost:8080/api/sensor" (JSON_stringify v)]
  end.

(** The events of a run of messages on the subscribed topic, each a
    payload with its time of receipt. *)
Definition deliveries (msgs : list (string * string)) : list Event :=
  map (fun m => MqttMessage MQTT_TOPIC (fst m) (snd m)) msgs.

(** The flag is set exactly while one read request is in flight. *)
Definition loadingTracksRequest (w : World) : Prop :=
  openGets w = if isLoading (app w) then 1 else 0.

Definition decodesToReading (m : string * string) : Prop :=
  exists v, JSON_parse (fst m) = Some v /\ isReading v = true.

End Callbacks.

(** ** The presentation model *)

(** The time value of a [Date], as [getTime()] returns it: an integral
    number of milliseconds (within 8.64e15 of the epoch), or NaN for an
    invalid date. *)
Inductive TimeValue : Type :=
| NaN
| Millis (t : Z).

(** [a - b] on time values.  Time values are integers far below 2^53 in
    magnitude, so the double their difference rounds to has the sign of the
    exact difference. *)
Definition TimeValue_sub (a b : TimeValue) : TimeValue :=
  match a, b with
  | Millis x, Millis y => Millis (x - y)
  | _, _ => NaN
  end.

Section ArraySort.

Context {A : Type}.

(** The comparator, [(a, b) => number]. *)
Variable comparefn : A -> A -> TimeValue.

(** How the sort reads a comparator result: [b] goes before [a] exactly
    when [comparefn(a, b) > 0]; NaN counts as +0. *)
Definition sortsAfter (a b : A) : bool :=
  match comparefn a b with
  | Millis v => (0 <? v)%Z
  | NaN => false
  end.

(** [a] may stand right before [b] in a sorted array. *)
Definition inOrder (a b : A) : Prop := sortsAfter a b = false.

Fixpoint insertSorted (x : A) (sorted : list A) : list A :=
  match sorted with
  | [] => [x]
  | y :: rest =>
      if sortsAfter x y then y :: insertSorted x rest
      else x :: sorted
  end.

(** [Array.prototype.sort(comparefn)] on a copy of the array.  The sort is
    stable: each element is inserted in front of the elements that came
    after it, past those it sorts after.  For a comparator that orders the
    elements consistently this is the one result the language allows, and
    every host returns it; [byTimestamp] is such a comparator when every
    timestamp parses.  For any other comparator (one that returns NaN for
    a timestamp that does not parse) the language leaves the order to the
    host: this is one order it allows, and hosts return others. *)
Definition Array_sort (items : list A) : list A :=
  fold_right insertSorted [] items.

End ArraySort.

Section LineChart.

(** [new Date(text).getTime()]. *)
Variable Date_getTime : string -> TimeValue.

(** [new Date(text).toLocaleTimeString()]. *)
Variable Date_toLocaleTimeString : string -> string.

Definition byTimestamp (a b : HistoricalReading) : TimeValue :=
  TimeValue_sub (Date_getTime (timestamp a)) (Date_getTime (timestamp b)).

(** The time a reading is sorted by, when its timestamp parses. *)
Definition timeOf (d : HistoricalReading) : option Z :=
  match Date_getTime (timestamp d) with
  | Millis t => Some t
  | NaN => None
  end.

Definition parses (d : HistoricalReading) : Prop :=
  exists t, timeOf d = Some t.

(** [a] is not later than [b]; both timestamps parse. *)
Definition notLater (a b : HistoricalReading) : Prop :=
  exists ta tb, timeOf a = Some ta /\ timeOf b = Some tb /\ (ta <= tb)%Z.

(** [[...historicalData].sort((a, b) => ...)]. *)
Definition sortedData (historicalData : list HistoricalReading)
  : list HistoricalReading :=
  Array_sort byTimestamp historicalData.

Record ChartData : Type := mkChartData {
  labels : list string;
  temperatureLine : list number;
  humidityLine : list number
}.

(** The [LineChart] component: [None] is the "No historical data
    available" paragraph. *)
Definition LineChart (historicalData : list HistoricalReading)
  : option ChartData :=
  match List.length historicalData with
  | O => None
  | S _ =>
      let sorted := sortedData historicalData in
      Some (mkChartData
              (map (fun d => Date_toLocaleTimeString (timestamp d)) sorted)
              (map temperature sorted)
              (map humidity sorted))
  end.

End LineChart.

(** [+0] and [-0], which compare equal. *)
Definition isPositiveZero (n : number) : bool :=
  PrimFloat.is_zero n && negb (PrimFloat.get_sign n).

Definition isNegativeZero (n : number) : bool :=
  PrimFloat.is_zero n && PrimFloat.get_sign n.

(** [Math.max(...values)]: NaN if any value is NaN, [-Infinity] for no
    value, and [+0] above [-0]. *)
Fixpoint Math_max_from (highest : number) (values : list number) : number :=
  match values with
  | [] => highest
  | n :: rest =>
      if PrimFloat.is_nan n then PrimFloat.nan
      else if isPositiveZero n && isNegativeZero highest
      then Math_max_from n rest
      else if PrimFloat.ltb highest n then Math_max_from n rest
      else Math_max_from highest rest
  end.

Definition Math_max (values : list number) : number :=
  Math_max_from PrimFloat.neg_infinity values.

(** [Math.min(...values)]. *)
Fixpoint Math_min_from (lowest : number) (values : list number) : number :=
  match values with
  | [] => lowest
  | n :: rest =>
      if PrimFloat.is_nan n then PrimFloat.nan
      else if isNegativeZero n && isPositiveZero lowest
      then Math_min_from n rest
      else if PrimFloat.ltb n lowest then Math_min_from n rest
      else Math_min_from lowest rest
  end.

Definition Math_min (values : list number) : number :=
  Math_min_from PrimFloat.infinity values.

(** An array length as a number. *)
Definition Number_of_length (n : nat) : number :=
  PrimFloat.of_uint63 (Uint63.of_Z (Z.of_nat n)).

(** One column of the Daily Summary, for the field [f]: the three numbers
    the markup displays, before [toFixed] rounds them for display. *)
Record Statistics : Type := mkStatistics {
  highest : number;
  lowest : number;
  average : number
}.

Definition sumOf (f : HistoricalReading -> number)
  (historicalData : list HistoricalReading) : number :=
  fold_left (fun sum d => PrimFloat.add sum (f d)) historicalData
    PrimFloat.zero.

Definition statisticsOf (f : HistoricalReading -> number)
  (historicalData : list HistoricalReading) : Statistics :=
  {| highest := Math_max (map f historicalData);
     lowest := Math_min (map f historicalData);
     average :=
       PrimFloat.div (sumOf f historicalData)
         (Number_of_length (List.length historicalData)) |}.

(** [{historicalData.length > 0 && (<div> Daily Summary ... </div>)}]:
    the temperature and humidity columns, or nothing. *)
Definition DailySummary (historicalData : list HistoricalReading)
  : option (Statistics * Statistics) :=
  if (0 <? List.length historicalData)%nat
  then Some (statisticsOf temperature historicalData,
             statisticsOf humidity historicalData)
  else None.

Definition isFinite (x : number) : bool := PrimFloat.is_finite x.

Definition finite (x : number) : Prop := isFinite x = true.

(** Every finite double is a whole multiple of [2^-1074], the smallest
    positive double: [ulps x] is that multiple (0 for the others). *)
Definition ulps (x : number) : Z :=
  match Prim2SF x with
  | S754_finite s m e =>
      ((if s then Zneg m else Zpos m) * 2 ^ (e + 1074))%Z
  | _ => 0%Z
  end.

(** The real number a finite double stands for. *)
Definition exactValue (x : number) : Q :=
  (inject_Z (ulps x) / inject_Z (2 ^ 1074))%Q.

(** The arithmetic mean of the numbers a list of doubles stands for, taken
    in exact arithmetic. *)
Definition exactMean (values : list number) : Q :=
  (fold_right Qplus 0 (map exactValue values)
   / inject_Z (Z.of_nat (List.length values)))%Q.

(** The lowest value is at most the average and the average at most the
    highest, as the doubles the component computes compare. *)
Definition meanWithinRange (st : Statistics) : bool :=
  PrimFloat.leb (lowest st) (average st)
  && PrimFloat.leb (average st) (highest st).

(** The wire format [DD_MM_YY] as the specification words it: two digits of
    the day, two of the month, the last two of the year. *)
Definition twoDigits (n : Z) : string :=
  String (digitChar (Z.to_nat (n / 10)))
    (String (digitChar (Z.to_nat (n mod 10))) EmptyString).

Definition DD_MM_YY (d : Date) : string :=
  twoDigits (getDate d) ++ "_" ++ twoDigits (getMonth d + 1) ++ "_"
  ++ twoDigits (getFullYear d mod 100).

(** ** A reference decoder for JSON texts

    [JSON.parse] is a built-in of the host; the callbacks above take it as a
    parameter.  This decoder follows the JSON grammar (ECMA-404) and is what
    the parameter is instantiated with on concrete payloads.  Texts and
    decoded strings are sequences of UTF-8 bytes; characters are told apart
    by their codes. *)

Definition code (c : ascii) : N := N_of_ascii c.

Definition isWhitespace (c : ascii) : bool :=
  let n := code c in
  (n =? 32)%N || (n =? 9)%N || (n =? 10)%N || (n =? 13)%N.

Definition isDigit (c : ascii) : bool :=
  let n := code c in (48 <=? n)%N && (n <=? 57)%N.

Fixpoint skipWhitespace (s : string) : string :=
  match s with
  | String c rest => if isWhitespace c then skipWhitespace rest else s
  | EmptyString => s
  end.

(** The longest prefix of digits, and what follows it. *)
Fixpoint spanDigits (s : string) : string * string :=
  match s with
  | String c rest =>
      if isDigit c
      then let (ds, tail) := spanDigits rest in (String c ds, tail)
      else (EmptyString, s)
  | EmptyString => (EmptyString, s)
  end.

Fixpoint decimalValue (acc : Z) (ds : string) : Z :=
  match ds with
  | String c rest => decimalValue (10 * acc + Z.of_N (code c - 48)) rest
  | EmptyString => acc
  end.

(** The double nearest to [m * 10^e10] (ties to even), negated when
    [negative].  With [2^l <= m < 2^(l+1)]: a value of at least [2^1025]
    is an infinity and a value below [2^-1080] is a zero, and neither needs
    the power of ten. *)
Definition decimalToNumber (negative : bool) (m : Z) (e10 : Z) : number :=
  match m with
  | Zpos p =>
      let l := Z.log2 m in
      let overflows :=
        if (0 <=? e10)%Z then (1025 <=? l + 3 * e10)%Z
        else (1025 <=? l + 4 * e10)%Z in
      let underflows :=
        (e10 <? 0)%Z && (l + 1 + 3 * e10 <=? -1080)%Z in
      if overflows then
        if negative then PrimFloat.neg_infinity else PrimFloat.infinity
      else if underflows then
        if negative then PrimFloat.neg_zero else PrimFloat.zero
      else if (0 <=? e10)%Z then
        SF2Prim (binary_normalize prec emax
                   (if negative then - (m * 10 ^ e10) else m * 10 ^ e10)%Z
                   0 false)
      else
        SF2Prim (SFdiv prec emax (S754_finite negative p 0)
                   (S754_finite false (Z.to_pos (10 ^ (- e10))) 0))
  | _ => if negative then PrimFloat.neg_zero else PrimFloat.zero
  end.

(** [-? int frac? exp?], where [int] has no leading zero. *)
Definition parseNumber (s : string) : option (number * string) :=
  let (negative, s1) :=
    match s with
    | String c rest => if (code c =? 45)%N then (true, rest) else (false, s)
    | EmptyString => (false, s)
    end in
  let (intPart, s2) := spanDigits s1 in
  let intOk :=
    match intPart with
    | EmptyString => false
    | String c EmptyString => true
    | String c _ => negb (code c =? 48)%N
    end in
  if negb intOk then None else
  let fraction :=
    match s2 with
    | String c rest =>
        if (code c =? 46)%N then
          let (fracPart, s3) := spanDigits rest in
          match fracPart with
          | EmptyString => None
          | _ => Some (fracPart, s3)
          end
        else Some (EmptyString, s2)
    | EmptyString => Some (EmptyString, s2)
    end in
  match fraction with
  | None => None
  | Some (fracPart, s3) =>
      let exponent :=
        match s3 with
        | String c rest =>
            if (code c =? 101)%N || (code c =? 69)%N then
              let (expNegative, s4) :=
                match rest with
                | String c' rest' =>
                    if (code c' =? 45)%N then (true, rest')
                    else if (code c' =? 43)%N then (false, rest')
                    else (false, rest)
                | EmptyString => (false, rest)
                end in
              let (expPart, s5) := spanDigits s4 in
              match expPart with
              | EmptyString => None
              | _ =>
                  let e := decimalValue 0 expPart in
                  Some (if expNegative then (- e)%Z else e, s5)
              end
            else Some (0%Z, s3)
        | EmptyString => Some (0%Z, s3)
        end in
      match exponent with
      | None => None
      | Some (e, rest) =>
          let m := decimalValue 0 (intPart ++ fracPart) in
          let e10 := (e - Z.of_nat (String.length fracPart))%Z in
          Some (decimalToNumber negative m e10, rest)
      end
  end.

Definition hexValue (c : ascii) : option N :=
  let n := code c in
  if (48 <=? n)%N && (n <=? 57)%N then Some (n - 48)%N
  else if (65 <=? n)%N && (n <=? 70)%N then Some (n - 55)%N
  else if (97 <=? n)%N && (n <=? 102)%N then Some (n - 87)%N
  else None.

Definition hex4 (a b c d : ascii) : option N :=
  match hexValue a, hexValue b, hexValue c, hexValue d with
  | Some x, Some y, Some z, Some w => Some (((x * 16 + y) * 16 + z) * 16 + w)%N
  | _, _, _, _ => None
  end.

Definition byte (n : N) : string := String (ascii_of_N n) EmptyString.

(** The UTF-8 bytes of a code point. *)
Definition utf8 (cp : N) : string :=
  if (cp <? 128)%N then byte cp
  else if (cp <? 2048)%N then
    byte (192 + cp / 64)%N ++ byte (128 + cp mod 64)%N
  else if (cp <? 65536)%N then
    byte (224 + cp / 4096)%N ++ byte (128 + (cp / 64) mod 64)%N
    ++ byte (128 + cp mod 64)%N
  else
    byte (240 + cp / 262144)%N ++ byte (128 + (cp / 4096) mod 64)%N
    ++ byte (128 + (cp / 64) mod 64)%N ++ byte (128 + cp mod 64)%N.

Definition isHighSurrogate (u : N) : bool :=
  (55296 <=? u)%N && (u <? 56320)%N.

Definition isLowSurrogate (u : N) : bool :=
  (56320 <=? u)%N && (u <? 57344)%N.

(** The characters of a string up to its closing quote, escapes decoded.
    [pending] is a high surrogate that a [\u] escape just produced and that
    pairs with a low surrogate escape following at once. *)
Fixpoint parseChars (pending : option N) (s : string)
  : option (string * string) :=
  let flush :=
    match pending with Some hi => utf8 hi | None => EmptyString end in
  let more (decoded : string) (r : option (string * string)) :=
    match r with
    | Some (text, tail) => Some ((flush ++ decoded ++ text)%string, tail)
    | None => None
    end in
  match s with
  | EmptyString => None
  | String c rest =>
      let n := code c in
      if (n =? 34)%N then Some (flush, rest)
      else if (n =? 92)%N then
        match rest with
        | String e rest1 =>
            let k := code e in
            if (k =? 34)%N || (k =? 92)%N || (k =? 47)%N
            then more (byte k) (parseChars None rest1)
            else if (k =? 98)%N then more (byte 8%N) (parseChars None rest1)
            else if (k =? 102)%N then more (byte 12%N) (parseChars None rest1)
            else if (k =? 110)%N then more (byte 10%N) (parseChars None rest1)
            else if (k =? 114)%N then more (byte 13%N) (parseChars None rest1)
            else if (k =? 116)%N then more (byte 9%N) (parseChars None rest1)
            else if (k =? 117)%N then
              match rest1 with
              | String h1 (String h2 (String h3 (String h4 rest2))) =>
                  match hex4 h1 h2 h3 h4 with
                  | Some u =>
                      match pending with
                      | Some hi =>
                          if isLowSurrogate u then
                            match parseChars None rest2 with
                            | Some (text, tail) =>
                                Some ((utf8 (65536 + (hi - 55296) * 1024
                                             + (u - 56320))%N ++ text)%string,
                                      tail)
                            | None => None
                            end
                          else if isHighSurrogate u
                          then more EmptyString (parseChars (Some u) rest2)
                          else more (utf8 u) (parseChars None rest2)
                      | None =>
                          if isHighSurrogate u
                          then parseChars (Some u) rest2
                          else more (utf8 u) (parseChars None rest2)
                      end
                  | None => None
                  end
              | _ => None
              end
            else None
        | EmptyString => None
        end
      else if (n <? 32)%N then None
      else more (byte n) (parseChars None rest)
  end.

(** [o[key] = v] while an object literal is read: a repeated key keeps its
    place and takes the later value. *)
Fixpoint setField (key : string) (v : JSValue)
  (fields : list (string * JSValue)) : list (string * JSValue) :=
  match fields with
  | [] => [(key, v)]
  | (k, old) :: rest =>
      if String.eqb k key then (k, v) :: rest
      else (k, old) :: setField key v rest
  end.

Definition dropPrefix (word s : string) : option string :=
  if String.prefix word s
  then Some (substring (String.length word)
               (String.length s - String.length word) s)
  else None.

(** A value, then the rest of the text.  Every call on a nested value
    consumes a character, so the length of the text is fuel enough. *)
Fixpoint parseValue (fuel : nat) (s : string) {struct fuel}
  : option (JSValue * string) :=
  match fuel with
  | O => None
  | S fuel' =>
      match skipWhitespace s with
      | EmptyString => None
      | String c rest as s0 =>
          let n := code c in
          if (n =? 123)%N then
            match skipWhitespace rest with
            | String c1 rest1 =>
                if (code c1 =? 125)%N then Some (JObject [], rest1)
                else parseMembers fuel' rest []
            | EmptyString => None
            end
          else if (n =? 91)%N then
            match skipWhitespace rest with
            | String c1 rest1 =>
                if (code c1 =? 93)%N then Some (JArray [], rest1)
                else parseElements fuel' rest []
            | EmptyString => None
            end
          else if (n =? 34)%N then
            match parseChars None rest with
            | Some (text, tail) => Some (JString text, tail)
            | None => None
            end
          else
            match dropPrefix "true" s0, dropPrefix "false" s0,
                  dropPrefix "null" s0 with
            | Some tail, _, _ => Some (JBool true, tail)
            | _, Some tail, _ => Some (JBool false, tail)
            | _, _, Some tail => Some (JNull, tail)
            | None, None, None =>
                match parseNumber s0 with
                | Some (x, tail) => Some (JNumber x, tail)
                | None => None
                end
            end
      end
  end
with parseElements (fuel : nat) (s : string) (seen : list JSValue)
  {struct fuel} : option (JSValue * string) :=
  match fuel with
  | O => None
  | S fuel' =>
      match parseValue fuel' s with
      | Some (v, tail) =>
          match skipWhitespace tail with
          | String c rest =>
              if (code c =? 44)%N
              then parseElements fuel' rest (seen ++ [v])
              else if (code c =? 93)%N
              then Some (JArray (seen ++ [v]), rest)
              else None
          | EmptyString => None
          end
      | None => None
      end
  end
with parseMembers (fuel : nat) (s : string)
  (seen : list (string * JSValue)) {struct fuel}
  : option (JSValue * string) :=
  match fuel with
  | O => None
  | S fuel' =>
      match skipWhitespace s with
      | String q rest =>
          if (code q =? 34)%N then
            match parseChars None rest with
            | Some (key, tail) =>
                match skipWhitespace tail with
                | String c rest1 =>
                    if (code c =? 58)%N then
                      match parseValue fuel' rest1 with
                      | Some (v, tail1) =>
                          match skipWhitespace tail1 with
                          | String c2 rest2 =>
                              if (code c2 =? 44)%N
                              then parseMembers fuel' rest2
                                     (setField key v seen)
                              else if (code c2 =? 125)%N
                              then Some (JObject (setField key v seen), rest2)
                              else None
                          | EmptyString => None
                          end
                      | None => None
                      end
                    else None
                | EmptyString => None
                end
            | None => None
            end
          else None
      | EmptyString => None
      end
  end.

(** A whole text: one value, white space around it, nothing else. *)
Definition JSON_decode (text : string) : option JSValue :=
  match parseValue (S (String.length text)) text with
  | Some (v, tail) =>
      match skipWhitespace tail with
      | EmptyString => Some v
      | String _ _ => None
      end
  | None => None
  end.

(** A double quote, and a word between double quotes. *)
Definition dquote : string := byte 34%N.

Definition quoted (word : string) : string := dquote ++ word ++ dquote.



(** ** A reference encoder

    [JSON.stringify] is a parameter of the callbacks as well.  This encoder
    writes a decoded value back as a JSON text that denotes the same value.
    A number is written as its full decimal expansion (every finite double
    has one), where [JSON.stringify] writes the shortest expansion that reads
    back as the same double; numbers that are not finite are written [null],
    as [JSON.stringify] does. *)

Fixpoint decimalDigits (fuel : nat) (n : Z) : string :=
  match fuel with
  | O => EmptyString
  | S fuel' =>
      if (n <? 10)%Z then byte (48 + Z.to_N n)
      else decimalDigits fuel' (n / 10) ++ byte (48 + Z.to_N (n mod 10))
  end.

(** The decimal digits of a natural number; it has no more decimal digits
    than binary ones. *)
Definition decimalText (n : Z) : string :=
  decimalDigits (S (Z.to_nat (Z.log2 n))) n.

Fixpoint dropTrailingZeros (s : string) : string :=
  match s with
  | EmptyString => EmptyString
  | String c rest =>
      match dropTrailingZeros rest with
      | EmptyString => if (code c =? 48)%N then EmptyString else byte (code c)
      | kept => String c kept
      end
  end.

Definition encodeNumber (x : number) : string :=
  match Prim2SF x with
  | S754_zero _ => "0"
  | S754_finite s m e =>
      let sign := if s then "-" else EmptyString in
      if (0 <=? e)%Z then sign ++ decimalText (Zpos m * 2 ^ e)
      else
        let k := Z.to_nat (- e) in
        let text :=
          String_padStart (decimalText (Zpos m * 5 ^ (- e))) (S k) "0" in
        let intLen := (String.length text - k)%nat in
        let fraction := dropTrailingZeros (substring intLen k text) in
        sign ++ substring 0 intLen text
        ++ match fraction with
           | EmptyString => EmptyString
           | _ => ("." ++ fraction)%string
           end
  | _ => "null"
  end.

Definition hexDigit (n : N) : string :=
  if (n <? 10)%N then byte (48 + n) else byte (87 + n).

Fixpoint encodeChars (s : string) : string :=
  match s with
  | EmptyString => EmptyString
  | String c rest =>
      let n := code c in
      (if (n =? 34)%N || (n =? 92)%N then ("\" ++ byte n)%string
       else if (n =? 8)%N then "\b"
       else if (n =? 12)%N then "\f"
       else if (n =? 10)%N then "\n"
       else if (n =? 13)%N then "\r"
       else if (n =? 9)%N then "\t"
       else if (n <? 32)%N
            then ("\u00" ++ hexDigit (n / 16) ++ hexDigit (n mod 16))%string
       else byte n)
      ++ encodeChars rest
  end.

Fixpoint JSON_encode (v : JSValue) : string :=
  match v with
  | JNull => "null"
  | JBool true => "true"
  | JBool false => "false"
  | JNumber x => encodeNumber x
  | JString text => quoted (encodeChars text)
  | JArray items =>
      "["
      ++ (fix elements (l : list JSValue) : string :=
            match l with
            | [] => EmptyString
            | [x] => JSON_encode x
            | x :: rest => (JSON_encode x ++ "," ++ elements rest)%string
            end) items
      ++ "]"
  | JObject fields =>
      "{"
      ++ (fix members (l : list (string * JSValue)) : string :=
            match l with
            | [] => EmptyString
            | [(k, x)] =>
                (quoted (encodeChars k) ++ ":" ++ JSON_encode x)%string
            | (k, x) :: rest =>
                (quoted (encodeChars k) ++ ":" ++ JSON_encode x ++ ","
                 ++ members rest)%string
            end) fields
      ++ "}"
  end.

(** ** Doubles as specified

    The specification of binary64 in the standard library describes a double
    by its sign, mantissa and exponent; these are [ulps] and finiteness on
    that description. *)

Definition sfUlps (f : spec_float) : Z :=
  match f with
  | S754_finite s m e => ((if s then Zneg m else Zpos m) * 2 ^ (e + 1074))%Z
  | _ => 0%Z
  end.

Definition sfFinite (f : spec_float) : bool :=
  match f with
  | S754_zero _ | S754_finite _ _ _ => true
  | _ => false
  end.

(** The sum of the multiples of [2^-1074] the values stand for. *)
Definition sumUlps (values : list number) : Z :=
  fold_right Z.add 0%Z (map ulps values).

(** A magnitude, counted in multiples of [2^-1074], that a double can
    stand for: at most 53 significant bits, below [2^1024]. *)
Definition representable (U : Z) : Prop :=
  exists M Eg,
    (0 <= M < 2 ^ 53)%Z /\ (0 <= Eg <= 2045)%Z /\ U = (M * 2 ^ Eg)%Z.

(** The sum of the magnitudes of the values, in multiples of [2^-1074]. *)
Definition sumAbsUlps (values : list number) : Z :=
  fold_right Z.add 0%Z (map (fun v => Z.abs (ulps v)) values).

(** [v] is a whole multiple of [2^(k - 1074)]: a whole number for
    [k = 1074], a number of halves for [k = 1073], and so on. *)
Definition multipleOfPower (k : Z) (v : number) : Prop :=
  (2 ^ k | ulps v)%Z.

(** How far the roundings of the sum and of the division can take the
    computed average of [n] values outside the range of the values:
    [(n + 1) / 2^51] times the mean of their magnitudes, and one multiple
    of [2^-1074]. *)
Definition roundingAllowance (values : list number) : Q :=
  let n := Z.of_nat (List.length values) in
  (inject_Z ((n + 1) * sumAbsUlps values + 2 ^ 51 * n)
   / inject_Z (2 ^ 51 * n) / inject_Z (2 ^ 1074))%Q.

(** ** A reference reader for timestamps

    [new Date(text)] is a built-in as well, and the chart takes
    [new Date(text).getTime()] as a parameter.  This reader takes the
    date-time format of ECMAScript in UTC, [YYYY-MM-DDTHH:mm:ssZ] with an
    optional [.sss], and reads every other text as an invalid date (the
    host may accept more). *)

(** Days from 1970-01-01 to the given day of the proleptic Gregorian
    calendar. *)
Definition daysFromCivil (y m d : Z) : Z :=
  let y' := if (m <=? 2)%Z then (y - 1)%Z else y in
  let era := (y' / 400)%Z in
  let yoe := (y' - era * 400)%Z in
  let mp := ((m + 9) mod 12)%Z in
  let doy := ((153 * mp + 2) / 5 + d - 1)%Z in
  let doe := (yoe * 365 + yoe / 4 - yoe / 100 + doy)%Z in
  (era * 146097 + doe - 719468)%Z.

Definition isLeapYear (y : Z) : bool :=
  ((y mod 4 =? 0) && negb (y mod 100 =? 0) || (y mod 400 =? 0))%Z.

Definition daysInMonth (y m : Z) : Z :=
  if (m =? 2)%Z then (if isLeapYear y then 29 else 28)%Z
  else if ((m =? 4) || (m =? 6) || (m =? 9) || (m =? 11))%Z then 30%Z
  else 31%Z.

(** [count] digits at the start of a text, as a number, and the rest. *)
Definition readDigits (count : nat) (s : string) : option (Z * string) :=
  let (ds, tail) := spanDigits (substring 0 count s) in
  if ((String.length ds =? count)%nat && (String.length tail =? 0)%nat)%bool
  then Some (decimalValue 0 ds,
             substring count (String.length s - count) s)
  else None.

Definition readChar (c : N) (s : string) : option string :=
  match s with
  | String x rest => if (code x =? c)%N then Some rest else None
  | EmptyString => None
  end.

Definition Date_parseUTC (text : string) : TimeValue :=
  match readDigits 4 text with
  | Some (y, s1) =>
  match readChar 45 s1 with Some s2 =>
  match readDigits 2 s2 with Some (mo, s3) =>
  match readChar 45 s3 with Some s4 =>
  match readDigits 2 s4 with Some (d, s5) =>
  match readChar 84 s5 with Some s6 =>
  match readDigits 2 s6 with Some (h, s7) =>
  match readChar 58 s7 with Some s8 =>
  match readDigits 2 s8 with Some (mi, s9) =>
  match readChar 58 s9 with Some s10 =>
  match readDigits 2 s10 with Some (sec, s11) =>
    let fraction :=
      match readChar 46 s11 with
      | Some s12 => readDigits 3 s12
      | None => Some (0%Z, s11)
      end in
    match fraction with
    | Some (ms, s13) =>
        let inRange :=
          ((1 <=? mo) && (mo <=? 12) && (1 <=? d)
           && (d <=? daysInMonth y mo) && (h <=? 23) && (mi <=? 59)
           && (sec <=? 59))%Z in
        if (inRange && String.eqb s13 "Z")%bool
        then Millis (daysFromCivil y mo d * 86400000 + h * 3600000
                     + mi * 60000 + sec * 1000 + ms)%Z
        else NaN
    | None => NaN
    end
  | None => NaN end | None => NaN end | None => NaN end | None => NaN end
  | None => NaN end | None => NaN end | None => NaN end | None => NaN end
  | None => NaN end | None => NaN end
  | None => NaN
  end.

(** ** The date the input hands over

    [onChange={(e) => setSelectedDate(new Date(e.target.value))}]: the
    value of a date input is the text [YYYY-MM-DD], which [Date] reads as
    midnight UTC of that day, while the getters [fetchData] calls read
    the date in local time. *)

(** The civil date of a day number counted from 1970-01-01, the inverse
    of [daysFromCivil]: year, month from 1, day. *)
Definition civilFromDays (days : Z) : Z * Z * Z :=
  let z := (days + 719468)%Z in
  let era := (z / 146097)%Z in
  let doe := (z - era * 146097)%Z in
  let yoe :=
    ((doe - doe / 1460 + doe / 36524 - doe / 146096) / 365)%Z in
  let doy := (doe - (365 * yoe + yoe / 4 - yoe / 100))%Z in
  let mp := ((5 * doy + 2) / 153)%Z in
  let d := (doy - (153 * mp + 2) / 5 + 1)%Z in
  let m := if (mp <? 10)%Z then (mp + 3)%Z else (mp - 9)%Z in
  let y := (yoe + era * 400 + (if (m <=? 2)%Z then 1 else 0))%Z in
  (y, m, d).

(** The local-time getters of the time value [t].  [timezoneOffset] is
    what [getTimezoneOffset()] returns at that time: the minutes by which
    UTC is ahead of local time (300 for New York in winter, -60 for
    Paris). *)
Definition localDate (timezoneOffset : Z) (t : Z) : Date :=
  let '(y, m, d) :=
    civilFromDays ((t - timezoneOffset * 60000) / 86400000)%Z in
  mkDate y (m - 1) d.

(** [new Date(value)] for the value [YYYY-MM-DD] of the date input, seen
    through the local getters. *)
Definition Date_ofInputValue (timezoneOffset : Z) (y m d : Z) : Date :=
  localDate timezoneOffset (daysFromCivil y m d * 86400000)%Z.

(** ** Sample data *)

(** The seventh of March 2024. *)
Definition today : Date := mkDate 2024 2 7.

(** The seventh of March of the year 5, which the date input gives for
    [0005-03-07]. *)
Definition yearFive : Date := mkDate 5 2 7.

(** The payload [{"temperature":t,"humidity":h}] for whole numbers. *)
Definition readingPayload (t h : Z) : string :=
  "{" ++ quoted "temperature" ++ ":" ++ Number_toString t ++ ","
  ++ quoted "humidity" ++ ":" ++ Number_toString h ++ "}".

Definition readingValue (t h : number) : JSValue :=
  JObject [("temperature", JNumber t); ("humidity", JNumber h)].

(** The double that the text [0.1] reads as. *)
Definition tenth : number := 0x1.999999999999ap-4%float.

(** Ten readings of 0.1 degrees and 0.1 percent, a minute apart. *)
Definition tenTenths : list HistoricalReading :=
  map (fun minute =>
         mkHistoricalReading
           ("2024-03-07T10:0" ++ digits minute ++ ":00Z") tenth tenth)
    (seq 0 10).

(** Two readings, the later one first. *)
Definition morning : list HistoricalReading :=
  [ mkHistoricalReading "2024-03-07T09:30:00Z" 21 48;
    mkHistoricalReading "2024-03-07T08:15:00.500Z" 20.5 50 ]%float.


(** ** Histories

    What a run of events leaves in each state cell, read off the events
    alone.  The properties of runs compare the component with these. *)

Section Histories.

Variable JSON_parse : string -> option JSValue.
Variable JSON_stringify : JSValue -> string.

(** What an event makes the component take in as a reading: the decoded
    value and the time of receipt, for a message on the subscribed topic
    whose payload decodes; nothing for any other event. *)
Definition takenIn (ev : Event) : option (JSValue * string) :=
  match ev with
  | MqttMessage topic message now =>
      if String.eqb topic MQTT_TOPIC then
        match JSON_parse message with
        | Some v => Some (v, now)
        | None => None
        end
      else None
  | _ => None
  end.

(** The latest reading and the last-update time after the events, from
    the given ones. *)
Fixpoint latestAfter (evs : list Event) (current : JSValue * option string)
  : JSValue * option string :=
  match evs with
  | [] => current
  | ev :: rest =>
      latestAfter rest
        match takenIn ev with
        | Some (v, now) => (v, Some now)
        | None => current
        end
  end.

(** The values taken in over the events, in order. *)
Fixpoint takenValues (evs : list Event) : list JSValue :=
  match evs with
  | [] => []
  | ev :: rest =>
      match takenIn ev with
      | Some (v, _) => v :: takenValues rest
      | None => takenValues rest
      end
  end.

(** The write request for a value. *)
Definition storePost (v : JSValue) : Effect :=
  FetchPost "http://localhost:8080/api/sensor" (JSON_stringify v).

(** The historical series after the events: a read that succeeded replaces
    it, a write that succeeded appends to it. *)
Fixpoint seriesAfter (evs : list Event) (current : list HistoricalReading)
  : list HistoricalReading :=
  match evs with
  | [] => current
  | FetchResolved data :: rest => seriesAfter rest data
  | StoreResolved savedData :: rest =>
      seriesAfter rest (current ++ [savedData])
  | _ :: rest => seriesAfter rest current
  end.

(** The connection flag after the events. *)
Fixpoint connectedAfter (evs : list Event) (current : bool) : bool :=
  match evs with
  | [] => current
  | MqttConnect :: rest => connectedAfter rest true
  | MqttError :: rest => connectedAfter rest false
  | _ :: rest => connectedAfter rest current
  end.

Definition isStoreEvent (ev : Event) : bool :=
  match ev with
  | StoreResolved _ | StoreRejected => true
  | _ => false
  end.

(** The selected date after the events. *)
Fixpoint selectedAfter (evs : list Event) (current : Date) : Date :=
  match evs with
  | [] => current
  | SelectDate d :: rest => selectedAfter rest d
  | _ :: rest => selectedAfter rest current
  end.

(** The read requests of the events: one for each click, for the date
    selected when the click came. *)
Fixpoint readRequests (evs : list Event) (current : Date) : list Effect :=
  match evs with
  | [] => []
  | SelectDate d :: rest => readRequests rest d
  | ClickFetch :: rest =>
      FetchGet (API_URL current) :: readRequests rest current
  | _ :: rest => readRequests rest current
  end.

Definition isConnectEvent (ev : Event) : bool :=
  match ev with
  | MqttConnect => true
  | _ => false
  end.

Definition isSubscribe (eff : Effect) : bool :=
  match eff with
  | Subscribe _ => true
  | _ => false
  end.

Definition isConsoleError (eff : Effect) : bool :=
  match eff with
  | ConsoleError _ => true
  | _ => false
  end.

(** What an event makes the component write to the error console. *)
Definition loggedError (ev : Event) : list Effect :=
  match ev with
  | MqttMessage topic message _ =>
      if String.eqb topic MQTT_TOPIC then
        match JSON_parse message with
        | Some _ => []
        | None => [ConsoleError "Error parsing MQTT message:"]
        end
      else []
  | MqttError => [ConsoleError "MQTT Connection Error:"]
  | FetchRejected => [ConsoleError "Error fetching data:"]
  | StoreRejected => [ConsoleError "Error storing data:"]
  | _ => []
  end.

End Histories.

(** ** What the component renders *)

(** [ToBoolean]: what a conditional makes of a decoded value. *)
Definition ToBoolean (v : JSValue) : bool :=
  match v with
  | JNull => false
  | JBool b => b
  | JNumber n => negb (PrimFloat.is_zero n || PrimFloat.is_nan n)
  | JString s => negb (String.eqb s EmptyString)
  | JArray _ | JObject _ => true
  end.

(** [v.key], for a key that names no built-in property (as [temperature]
    and [humidity] do not): reading a property of [null] throws, an object
    gives its own property, and every other value gives [undefined]. *)
Definition propertyOf (key : string) (v : JSValue)
  : JSError + option JSValue :=
  match v with
  | JNull => inl TypeError
  | JObject fields => inr (getField key fields)
  | _ => inr None
  end.

(** What the renderer makes of a value in child position, [{value}]:
    [null] and booleans render nothing, numbers and strings render as
    text, an array renders its items in turn, and a plain object is
    refused ("Objects are not valid as a React child"): the render
    throws. *)
Fixpoint validChild (v : JSValue) : bool :=
  match v with
  | JObject _ => false
  | JArray items => forallb validChild items
  | _ => true
  end.

(** The same for an expression that may be [undefined], which renders
    nothing. *)
Definition rendersAsChild (child : option JSValue) : bool :=
  match child with
  | Some v => validChild v
  | None => true
  end.

(** How a render fails: an expression of the markup throws, or the
    renderer refuses a child. *)
Inductive RenderFailure : Type :=
| Thrown (e : JSError)
| InvalidChild (child : option JSValue).

(** The real-time panel: the placeholder paragraph, or the three values
    handed to the markup. *)
Inductive RealTimeView : Type :=
| NoRealTimeData
| RealTimeValues (shownTemperature shownHumidity : option JSValue)
    (lastUpdated : option string).

(** [{realTimeData ? (<div> ... </div>) : (<p>No real-time data received
    yet...</p>)}].  The two property reads are evaluated when the markup
    is built; the values are then rendered as children, the temperature
    first.  [lastUpdate] is a string or [null], which always render. *)
Definition realTimePanel (s : AppState) : RenderFailure + RealTimeView :=
  if ToBoolean (realTimeData s) then
    match propertyOf "temperature" (realTimeData s) with
    | inl e => inl (Thrown e)
    | inr t =>
        match propertyOf "humidity" (realTimeData s) with
        | inl e => inl (Thrown e)
        | inr h =>
            if negb (rendersAsChild t) then inl (InvalidChild t)
            else if negb (rendersAsChild h) then inl (InvalidChild h)
            else inr (RealTimeValues t h (lastUpdate s))
        end
    end
  else inr NoRealTimeData.


Section AppView.

Variable Date_getTime : string -> TimeValue.
Variable Date_toLocaleTimeString : string -> string.


(** The readings of a series whose timestamp reads as the time [t], in
    the order of the series. *)
Definition recordedAt (t : Z) (series : list HistoricalReading)
  : list HistoricalReading :=
  filter (fun d => match timeOf Date_getTime d with
                   | Some t' => (t' =? t)%Z
                   | None => false
                   end) series.

End AppView.

(** A day and a month the date input can give. *)
Definition validDay (d : Date) : Prop :=
  (1 <= getDate d <= 31)%Z /\ (0 <= getMonth d <= 11)%Z.

(** The hundred years [100 * c .. 100 * c + 99]. *)
Definition inCentury (c : Z) (d : Date) : Prop :=
  (100 * c <= getFullYear d < 100 * c + 100)%Z.

(** ** Sample runs *)

(** A connect, a reading, a message on another topic, a payload that does
    not decode, a date selection, a click, a second reading, the answer to
    the read request, and a transport error. *)
Definition sampleRun : list Event :=
  [ MqttConnect;
    MqttMessage MQTT_TOPIC (readingPayload 200 500) "10:00:00";
    MqttMessage "sensor/other" (readingPayload 1 2) "10:00:01";
    MqttMessage MQTT_TOPIC "{temperature:200}" "10:00:02";
    SelectDate yearFive;
    ClickFetch;
    MqttMessage MQTT_TOPIC (readingPayload 210 480) "10:00:05";
    FetchResolved morning;
    MqttError ].

Definition savedSample : HistoricalReading :=
  mkHistoricalReading "2024-03-07T10:00:01Z" 200 500.

(** In the version with the store: a reading, its record coming back, a
    second reading, and its write failing. *)
Definition sampleStoreRun : list Event :=
  [ MqttMessage MQTT_TOPIC (readingPayload 200 500) "10:00:00";
    StoreResolved savedSample;
    MqttMessage MQTT_TOPIC (readingPayload 210 480) "10:00:05";
    StoreRejected ].

(** Three readings, the first and the last with the same timestamp. *)
Definition sameTime : list HistoricalReading :=
  [ mkHistoricalReading "2024-03-07T09:30:00Z" 21 48;
    mkHistoricalReading "2024-03-07T08:15:00Z" 20 50;
    mkHistoricalReading "2024-03-07T09:30:00Z" 22 47 ]%float.

(** A payload that decodes to an object whose temperature is itself an
    object. *)
Definition objectTemperaturePayload : string :=
  "{" ++ quoted "temperature" ++ ":{" ++ quoted "a" ++ ":1},"
  ++ quoted "humidity" ++ ":2}".

Definition objectTemperatureValue : JSValue :=
  JObject [("temperature", JObject [("a", JNumber 1)]);
           ("humidity", JNumber 2)].

(** A day of the twentieth century with the same day, month and last two
    digits of the year as [today]. *)
Definition centuryBefore : Date := mkDate 1924 2 7.


(** * Properties *)

(** ** The ingestion callbacks *)

Section CallbackProperties.

Variable JSON_parse : string -> option JSValue.
Variable JSON_stringify : JSValue -> string.

(** A payload that decodes runs the callback to a normal completion that
    stores the decoded value, whatever its shape. *)
Lemma on_message_decoded variant payload now v s :
  JSON_parse payload = Some v ->
  on_message JSON_parse JSON_stringify variant MQTT_TOPIC payload now s
  = Normal tt (withReading v now s) (storeRequest JSON_stringify variant v).
Proof.
  intros Hdecode.
  unfold on_message, try_catch, bind, parseJSON.
  rewrite String.eqb_refl, Hdecode.
  destruct variant; reflexivity.
Qed.

(** A payload that does not decode is logged and dropped. *)
Lemma on_message_malformed variant payload now s :
  JSON_parse payload = None ->
  on_message JSON_parse JSON_stringify variant MQTT_TOPIC payload now s
  = Normal tt s [ConsoleError "Error parsing MQTT message:"].
Proof.
  intros Hdecode.
  unfold on_message, try_catch, bind, parseJSON.
  rewrite String.eqb_refl, Hdecode.
  reflexivity.
Qed.

(** A message on another topic is ignored. *)
Lemma on_message_other_topic variant topic payload now s :
  String.eqb topic MQTT_TOPIC = false ->
  on_message JSON_parse JSON_stringify variant topic payload now s
  = Normal tt s [].
Proof.
  intros Htopic. unfold on_message. rewrite Htopic. reflexivity.
Qed.

Lemma run_app evs1 evs2 variant w :
  run JSON_parse JSON_stringify variant (evs1 ++ evs2) w
  = match run JSON_parse JSON_stringify variant evs1 w with
    | Some w' => run JSON_parse JSON_stringify variant evs2 w'
    | None => None
    end.
Proof.
  revert w. induction evs1 as [|ev evs1 IH]; intros w; simpl.
  - reflexivity.
  - destruct (dispatch JSON_parse JSON_stringify variant ev w);
      [apply IH | reflexivity].
Qed.

(** No callback completes abruptly: whatever happens to the component,
    nothing is thrown out of a callback. *)
Lemma dispatch_completes_normally variant ev w w' :
  dispatch JSON_parse JSON_stringify variant ev w = Some w' ->
  uncaught w' = uncaught w.
Proof.
  intros Hstep. destruct ev; simpl in Hstep.
  - now injection Hstep as <-.
  - injection Hstep as <-.
    unfold invoke, on_message, try_catch, bind, parseJSON.
    destruct (String.eqb topic MQTT_TOPIC); [| reflexivity].
    destruct (JSON_parse message); [| reflexivity].
    destruct variant; reflexivity.
  - now injection Hstep as <-.
  - now injection Hstep as <-.
  - destruct (isLoading (app w)); [discriminate |]. now injection Hstep as <-.
  - destruct (openGets w); [discriminate |]. now injection Hstep as <-.
  - destruct (openGets w); [discriminate |]. now injection Hstep as <-.
  - destruct (openPosts w); [discriminate |]. now injection Hstep as <-.
  - destruct (openPosts w); [discriminate |]. now injection Hstep as <-.
Qed.

(** C1.  A payload on the subscribed topic that decodes to a Reading makes
    the callback complete normally with the latest reading replaced by
    exactly the decoded value and the last-update time set to the time of
    receipt, every other cell as it was.  After any run of such messages
    the one latest-reading cell holds the value of the last message, and
    the last-update cell its time of receipt. *)
Theorem latest_reading_is_last_message :
  forall variant (earlier : list (string * string)) payload now v s w,
    Forall (decodesToReading JSON_parse) earlier ->
    JSON_parse payload = Some v ->
    isReading v = true ->
    on_message JSON_parse JSON_stringify variant MQTT_TOPIC payload now s
    = Normal tt (withReading v now s) (storeRequest JSON_stringify variant v)
    /\ exists w',
         run JSON_parse JSON_stringify variant
           (deliveries (earlier ++ [(payload, now)])) w = Some w'
         /\ realTimeData (app w') = v
         /\ lastUpdate (app w') = Some now
         /\ uncaught w' = uncaught w.
Proof.
  intros variant earlier payload now v s w Hearlier Hdecode _.
  split; [now apply on_message_decoded |].
  unfold deliveries. rewrite map_app, run_app.
  fold (deliveries earlier).
  assert (Hrun : exists w1,
             run JSON_parse JSON_stringify variant (deliveries earlier) w
             = Some w1
             /\ uncaught w1 = uncaught w).
  { clear Hdecode. revert w.
    induction Hearlier as [|m msgs [u [Hu _]] _ IH]; intros w; simpl.
    - eauto.
    - destruct (IH (invoke (on_message JSON_parse JSON_stringify variant
                              MQTT_TOPIC (fst m) (snd m)) w))
        as [w1 [Hw1 Hun]].
      exists w1. split; [exact Hw1 |].
      rewrite Hun. unfold invoke.
      rewrite (on_message_decoded _ _ _ _ _ Hu). reflexivity. }
  destruct Hrun as [w1 [Hw1 Hun]]. rewrite Hw1. simpl.
  eexists. split; [reflexivity |].
  unfold invoke. rewrite (on_message_decoded _ _ _ _ _ Hdecode). simpl.
  auto.
Qed.

(** C2.  A payload on the subscribed topic that fails to decode makes the
    callback complete normally (nothing is thrown out of it) with every
    state cell as it was, the latest reading, the last-update time and the
    connection flag among them; all it does is log the error. *)
Theorem malformed_payload_is_dropped :
  forall variant payload now s w,
    JSON_parse payload = None ->
    on_message JSON_parse JSON_stringify variant MQTT_TOPIC payload now s
    = Normal tt s [ConsoleError "Error parsing MQTT message:"]
    /\ dispatch JSON_parse JSON_stringify variant
         (MqttMessage MQTT_TOPIC payload now) w
       = Some (mkWorld (app w) (openGets w) (openPosts w)
                 (issued w ++ [ConsoleError "Error parsing MQTT message:"])
                 (uncaught w)).
Proof.
  intros variant payload now s w Hdecode.
  split; [now apply on_message_malformed |].
  simpl. unfold invoke.
  rewrite (on_message_malformed _ _ _ _ Hdecode). simpl.
  now rewrite !Nat.add_0_r.
Qed.

(** C10.  The callback checks nothing beyond decoding: a payload that
    decodes to a value that is not a Reading (a number, [null], an object
    without the two fields) is stored as the latest reading all the same,
    and the last-update time is set, in both versions of the component. *)
Theorem no_shape_validation :
  forall variant payload now v s,
    JSON_parse payload = Some v ->
    isReading v = false ->
    exists out,
      on_message JSON_parse JSON_stringify variant MQTT_TOPIC payload now s
      = Normal tt
          (mkAppState v (historicalData s) (isLoading s) (mqttConnected s)
             (selectedDate s) (Some now)) out.
Proof.
  intros variant payload now v s Hdecode _.
  exists (storeRequest JSON_stringify variant v).
  now apply on_message_decoded.
Qed.

(** C8.  The connect callback sets the connection flag and subscribes to
    the topic; the error callback, run in any state and so in a connected
    one, clears the connection flag, logs, and leaves the latest reading,
    the historical series, the loading flag, the selected date and the
    last-update time as they were. *)
Theorem transport_error_only_disconnects :
  forall s,
    let connected :=
      mkAppState (realTimeData s) (historicalData s) (isLoading s) true
        (selectedDate s) (lastUpdate s) in
    on_connect s
    = Normal tt connected [ConsoleLog "Connected to MQTT"; Subscribe MQTT_TOPIC]
    /\ on_error connected
       = Normal tt
           (mkAppState (realTimeData s) (historicalData s) (isLoading s)
              false (selectedDate s) (lastUpdate s))
           [ConsoleError "MQTT Connection Error:"]
    /\ forall s',
         on_error s'
         = Normal tt
             (mkAppState (realTimeData s') (historicalData s')
                (isLoading s') false (selectedDate s') (lastUpdate s'))
             [ConsoleError "MQTT Connection Error:"].
Proof.
  intros s connected. repeat split.
Qed.

(** C9.  In the version with the store: a payload that decodes makes the
    callback issue one POST carrying the decoded value, after the
    live-reading cells were written.  Whenever the request settles, the
    success continuation appends the record the store returned to the
    historical series and the failure continuation leaves the series as it
    was; neither touches the latest reading or the last-update time, nor
    any other cell. *)
Theorem store_write_is_fire_and_forget :
  forall payload now v s later savedData,
    JSON_parse payload = Some v ->
    on_message JSON_parse JSON_stringify DashboardWithStore MQTT_TOPIC
      payload now s
    = Normal tt (withReading v now s)
        [FetchPost "http://localhost:8080/api/sensor" (JSON_stringify v)]
    /\ store_then savedData later
       = Normal tt
           (mkAppState (realTimeData later)
              (historicalData later ++ [savedData]) (isLoading later)
              (mqttConnected later) (selectedDate later) (lastUpdate later))
           [ConsoleLog "Data stored:"]
    /\ store_catch later
       = Normal tt later [ConsoleError "Error storing data:"].
Proof.
  intros payload now v s later savedData Hdecode.
  split; [exact (on_message_decoded DashboardWithStore _ _ _ _ Hdecode) |].
  split; reflexivity.
Qed.

(** *** The loading flag *)

(** The message callback neither reads nor writes the loading flag and
    issues no read request. *)
Lemma on_message_keeps_loading variant topic payload now w :
  let w' :=
    invoke (on_message JSON_parse JSON_stringify variant topic payload now) w
  in
  isLoading (app w') = isLoading (app w) /\ openGets w' = openGets w.
Proof.
  unfold invoke, on_message, try_catch, bind, parseJSON.
  destruct (String.eqb topic MQTT_TOPIC);
    [| simpl; split; [reflexivity | lia]].
  destruct (JSON_parse payload); [| simpl; split; [reflexivity | lia]].
  destruct variant; simpl; split; reflexivity || lia.
Qed.

Lemma dispatch_keeps_invariant variant ev w w' :
  loadingTracksRequest w ->
  dispatch JSON_parse JSON_stringify variant ev w = Some w' ->
  loadingTracksRequest w'.
Proof.
  unfold loadingTracksRequest. intros Hinv Hstep.
  destruct ev; simpl in Hstep.
  - injection Hstep as <-. simpl. lia.
  - injection Hstep as <-.
    destruct (on_message_keeps_loading variant topic message now w)
      as [-> ->].
    exact Hinv.
  - injection Hstep as <-. simpl. lia.
  - injection Hstep as <-. simpl. lia.
  - destruct (isLoading (app w)) eqn:Hload; [discriminate |].
    injection Hstep as <-. simpl. lia.
  - destruct (openGets w) eqn:Hopen; [discriminate |].
    injection Hstep as <-. simpl.
    destruct (isLoading (app w)); simpl in *; lia.
  - destruct (openGets w) eqn:Hopen; [discriminate |].
    injection Hstep as <-. simpl.
    destruct (isLoading (app w)); simpl in *; lia.
  - destruct (openPosts w); [discriminate |].
    injection Hstep as <-. simpl. lia.
  - destruct (openPosts w); [discriminate |].
    injection Hstep as <-. simpl. lia.
Qed.

Lemma run_keeps_invariant variant evs w w' :
  loadingTracksRequest w ->
  run JSON_parse JSON_stringify variant evs w = Some w' ->
  loadingTracksRequest w'.
Proof.
  revert w. induction evs as [|ev evs IH]; intros w Hinv Hrun; simpl in Hrun.
  - now injection Hrun as <-.
  - destruct (dispatch JSON_parse JSON_stringify variant ev w) as [w1|]
      eqn:Hstep; [| discriminate].
    eauto using dispatch_keeps_invariant.
Qed.

(** C5.  [fetchData] sets the loading flag and issues the read request;
    the success continuation replaces the historical series with the
    returned sequence and clears the flag; the failure continuation clears
    the flag and leaves the series as it was.  In every world the component
    can reach, the flag is set exactly while the request is in flight: from
    a world with the flag clear a click issues the one request and sets the
    flag, from a world with the flag set the request is there to settle,
    and both ways of settling clear the flag. *)
Theorem loading_flag_spans_request :
  forall variant today evs w data,
    run JSON_parse JSON_stringify variant evs (initialWorld today) = Some w ->
    (forall s,
       fetchData s
       = Normal tt
           (mkAppState (realTimeData s) (historicalData s) true
              (mqttConnected s) (selectedDate s) (lastUpdate s))
           [FetchGet (API_URL (selectedDate s))]
       /\ fetchData_then data s
          = Normal tt
              (mkAppState (realTimeData s) data false (mqttConnected s)
                 (selectedDate s) (lastUpdate s)) []
       /\ fetchData_catch s
          = Normal tt
              (mkAppState (realTimeData s) (historicalData s) false
                 (mqttConnected s) (selectedDate s) (lastUpdate s))
              [ConsoleError "Error fetching data:"])
    /\ if isLoading (app w)
       then
         openGets w = 1
         /\ dispatch JSON_parse JSON_stringify variant ClickFetch w = None
         /\ (exists w1,
               dispatch JSON_parse JSON_stringify variant
                 (FetchResolved data) w = Some w1
               /\ historicalData (app w1) = data
               /\ isLoading (app w1) = false
               /\ openGets w1 = 0)
         /\ (exists w2,
               dispatch JSON_parse JSON_stringify variant FetchRejected w
               = Some w2
               /\ historicalData (app w2) = historicalData (app w)
               /\ isLoading (app w2) = false
               /\ openGets w2 = 0)
       else
         openGets w = 0
         /\ dispatch JSON_parse JSON_stringify variant (FetchResolved data) w
            = None
         /\ dispatch JSON_parse JSON_stringify variant FetchRejected w = None
         /\ (exists w1,
               dispatch JSON_parse JSON_stringify variant ClickFetch w = Some w1
               /\ isLoading (app w1) = true
               /\ openGets w1 = 1
               /\ historicalData (app w1) = historicalData (app w)
               /\ issued w1
                  = issued w ++ [FetchGet (API_URL (selectedDate (app w)))]).
Proof.
  intros variant today evs w data Hrun.
  split; [intros s; repeat split |].
  assert (Hinv : loadingTracksRequest w).
  { eapply run_keeps_invariant; [| exact Hrun]. reflexivity. }
  unfold loadingTracksRequest in Hinv.
  destruct (isLoading (app w)) eqn:Hload.
  - split; [exact Hinv |].
    split; [simpl; now rewrite Hload |].
    split; eexists; simpl; rewrite Hinv; (split; [reflexivity |]); simpl;
      rewrite Hinv; auto.
  - split; [exact Hinv |].
    split; [simpl; now rewrite Hinv |].
    split; [simpl; now rewrite Hinv |].
    eexists. simpl. rewrite Hload. split; [reflexivity |].
    simpl. rewrite Hinv. auto.
Qed.

End CallbackProperties.

(** ** The chart *)

Section ArraySortProperties.

Context {A : Type}.
Variable comparefn : A -> A -> TimeValue.

(** A comparator built by subtraction never says of two elements that
    each sorts after the other. *)
Hypothesis comparefn_antisym :
  forall a b, sortsAfter comparefn a b = true ->
              sortsAfter comparefn b a = false.



(** Sorting leaves an array that is in order as it is. *)
Lemma Array_sort_fixes_Sorted l :
  Sorted (inOrder comparefn) l -> Array_sort comparefn l = l.
Proof.
  induction 1 as [|x l Hl IH Hhd]; simpl.
  - reflexivity.
  - rewrite IH. destruct Hhd as [|y rest Hxy]; simpl.
    + reflexivity.
    + unfold inOrder in Hxy. now rewrite Hxy.
Qed.


Lemma insertSorted_Permutation x l :
  Permutation (x :: l) (insertSorted comparefn x l).
Proof.
  induction l as [|y rest IH]; simpl.
  - reflexivity.
  - destruct (sortsAfter comparefn x y).
    + rewrite perm_swap. now constructor.
    + reflexivity.
Qed.

(** Sorting rearranges; it neither drops nor repeats an element. *)
Lemma Array_sort_Permutation l : Permutation l (Array_sort comparefn l).
Proof.
  induction l as [|x l IH]; simpl.
  - constructor.
  - rewrite <- insertSorted_Permutation. now constructor.
Qed.

End ArraySortProperties.

Section LineChartProperties.

Variable Date_getTime : string -> TimeValue.
Variable Date_toLocaleTimeString : string -> string.



(** Between readings whose timestamps parse, the comparator orders by
    time. *)
Lemma sortsAfter_times a b ta tb :
  timeOf Date_getTime a = Some ta -> timeOf Date_getTime b = Some tb ->
  sortsAfter (byTimestamp Date_getTime) a b = (tb <? ta)%Z.
Proof.
  unfold timeOf, sortsAfter, byTimestamp, TimeValue_sub.
  destruct (Date_getTime (timestamp a)), (Date_getTime (timestamp b));
    try discriminate.
  intros [= ->] [= ->].
  destruct (Z.ltb_spec 0 (ta - tb)), (Z.ltb_spec tb ta); reflexivity || lia.
Qed.

Lemma insertSorted_ascending x l :
  parses Date_getTime x -> Forall (parses Date_getTime) l ->
  StronglySorted (notLater Date_getTime) l ->
  StronglySorted (notLater Date_getTime)
    (insertSorted (byTimestamp Date_getTime) x l).
Proof.
  intros [tx Hx] Hall Hsorted.
  induction Hsorted as [|y rest Hrest IH Hy]; simpl.
  - repeat constructor.
  - inversion Hall as [|? ? [ty Hty] Hall']; subst.
    rewrite (sortsAfter_times _ _ _ _ Hx Hty).
    destruct (Z.ltb_spec ty tx) as [Hlt|Hge].
    + constructor; [now apply IH |].
      apply (Permutation_Forall
               (insertSorted_Permutation (byTimestamp Date_getTime) x rest)).
      constructor; [| exact Hy].
      exists ty, tx. repeat split; auto; lia.
    + constructor; [now constructor |].
      constructor; [exists tx, ty; now repeat split |].
      apply Forall_forall. intros z Hz.
      rewrite Forall_forall in Hy.
      destruct (Hy z Hz) as [ty' [tz [Hty' [Htz Hle]]]].
      rewrite Hty in Hty'. injection Hty' as <-.
      exists tx, tz. repeat split; auto; lia.
Qed.

(** When every timestamp parses, the sorted series is ascending in time
    and holds the readings of the series, each as often as the series
    does. *)
Lemma sortedData_ascending historicalData :
  Forall (parses Date_getTime) historicalData ->
  StronglySorted (notLater Date_getTime)
    (sortedData Date_getTime historicalData)
  /\ Permutation historicalData (sortedData Date_getTime historicalData).
Proof.
  intros Hall. split; [| apply Array_sort_Permutation].
  unfold sortedData.
  induction Hall as [|x l Hx Hl IH]; simpl.
  - constructor.
  - apply insertSorted_ascending; auto.
    apply (Permutation_Forall
             (Array_sort_Permutation (byTimestamp Date_getTime) l)), Hl.
Qed.


End LineChartProperties.

(** ** The query path *)

Lemma digits_below_ten n :
  (n < 10)%nat -> digits n = String (digitChar n) EmptyString.
Proof.
  intros Hn. funelim (digits n); [reflexivity | lia].
Qed.

Lemma digits_from_ten n :
  (10 <= n)%nat ->
  digits n
  = (digits (n / 10) ++ String (digitChar (n mod 10)) EmptyString)%string.
Proof.
  intros Hn. funelim (digits n); [lia | reflexivity].
Qed.

(** The digits of a number end with its units digit. *)
Lemma digits_last n :
  exists front,
    digits n = (front ++ String (digitChar (n mod 10)) EmptyString)%string.
Proof.
  destruct (lt_dec n 10) as [Hlt|Hge].
  - exists EmptyString. rewrite digits_below_ten by exact Hlt.
    now rewrite Nat.mod_small.
  - exists (digits (n / 10)). apply digits_from_ten. lia.
Qed.

Lemma append_assoc (a b c : string) :
  ((a ++ b) ++ c = a ++ (b ++ c))%string.
Proof. induction a as [|x a IH]; simpl; [reflexivity | now rewrite IH]. Qed.

Lemma length_append (a b : string) :
  String.length (a ++ b) = (String.length a + String.length b)%nat.
Proof. induction a as [|x a IH]; simpl; [reflexivity | now rewrite IH]. Qed.

Lemma substring_past_front (front back : string) k :
  substring (String.length front) k (front ++ back) = substring 0 k back.
Proof. induction front as [|x front IH]; simpl; [reflexivity | exact IH]. Qed.

(** [slice(-2)] of a text of two or more characters is its last two. *)
Lemma String_slice_last_two front a b :
  String_slice (front ++ String a (String b EmptyString)) (-2)
  = String a (String b EmptyString).
Proof.
  unfold String_slice. rewrite length_append. simpl String.length.
  change (-2 <? 0)%Z with true. cbv iota.
  replace (Z.max (Z.of_nat (String.length front + 2) + -2) 0)
    with (Z.of_nat (String.length front)) by lia.
  rewrite Nat2Z.id.
  replace (Z.to_nat (Z.of_nat (String.length front + 2)
                     - Z.of_nat (String.length front))) with 2%nat by lia.
  now rewrite substring_past_front.
Qed.

(** A whole number below 100 prints, padded to two places, as its tens and
    units digits. *)
Lemma padStart_two_digits n :
  (0 <= n < 100)%Z ->
  String_padStart (Number_toString n) 2 "0" = twoDigits n.
Proof.
  intros Hn. unfold twoDigits.
  rewrite !Z2Nat.inj_div, !Z2Nat.inj_mod by lia.
  change (Z.to_nat 10) with 10%nat.
  assert (Hstr : Number_toString n = digits (Z.to_nat n)).
  { destruct n as [|p|p]; [reflexivity | reflexivity | lia]. }
  rewrite Hstr.
  assert (Hm : (Z.to_nat n < 100)%nat) by lia.
  clear Hstr Hn. generalize dependent (Z.to_nat n). clear n. intros n Hm.
  destruct (lt_dec n 10) as [Hlt|Hge].
  - rewrite digits_below_ten by exact Hlt.
    rewrite Nat.div_small, Nat.mod_small by exact Hlt. reflexivity.
  - rewrite digits_from_ten by lia.
    rewrite digits_below_ten
      by (apply Nat.Div0.div_lt_upper_bound; lia).
    reflexivity.
Qed.

(** From year 10 on, [slice(-2)] of the printed year is the two digits of
    the year modulo 100. *)
Lemma slice_year_two_digits y :
  (10 <= y)%Z ->
  String_slice (Number_toString y) (-2) = twoDigits (y mod 100).
Proof.
  intros Hy. unfold twoDigits.
  assert (Hstr : Number_toString y = digits (Z.to_nat y)).
  { destruct y as [|p|p]; [lia | reflexivity | lia]. }
  rewrite Hstr.
  rewrite !Z2Nat.inj_div, !Z2Nat.inj_mod
    by (try apply Z.mod_pos_bound; lia).
  change (Z.to_nat 10) with 10%nat. change (Z.to_nat 100) with 100%nat.
  assert (Hn : (10 <= Z.to_nat y)%nat) by lia.
  clear Hstr Hy. generalize dependent (Z.to_nat y). clear y. intros n Hn.
  rewrite digits_from_ten by exact Hn.
  destruct (digits_last (n / 10)) as [front Hfront].
  rewrite Hfront, append_assoc. simpl append.
  rewrite String_slice_last_two.
  replace ((n mod 100) / 10)%nat with ((n / 10) mod 10)%nat
    by (zify; Z.to_euclidean_division_equations; lia).
  replace ((n mod 100) mod 10)%nat with (n mod 10)%nat
    by (zify; Z.to_euclidean_division_equations; lia).
  reflexivity.
Qed.

(** Where [fetchData] formats as intended: for every date whose local
    getters give a year from 10 on, the path component is the two digits
    of the day, the two digits of the month counted from 1, and the last
    two digits of the year, joined by underscores: eight characters.  The
    getters 2024, 2 and 7 give [07_03_24]. *)
Theorem formattedDate_from_year_ten :
  forall d,
    (1 <= getDate d <= 31)%Z ->
    (0 <= getMonth d <= 11)%Z ->
    (10 <= getFullYear d)%Z ->
    formattedDate d = DD_MM_YY d
    /\ String.length (formattedDate d) = 8
    /\ formattedDate (mkDate 2024 2 7) = "07_03_24".
Proof.
  intros d Hday Hmonth Hyear.
  assert (Heq : formattedDate d = DD_MM_YY d).
  { unfold formattedDate, DD_MM_YY.
    rewrite !padStart_two_digits by lia.
    now rewrite slice_year_two_digits by lia. }
  split; [exact Heq |].
  split; [| reflexivity].
  rewrite Heq. reflexivity.
Qed.

(** ** Doubles and the numbers they stand for *)

Section DoubleOrder.

Lemma digits2_pos_bounds m :
  (2 ^ (Zpos (digits2_pos m) - 1) <= Zpos m < 2 ^ Zpos (digits2_pos m))%Z.
Proof.
  induction m as [p IH|p IH|]; simpl digits2_pos.
  - rewrite Pos2Z.inj_succ.
    replace (Z.succ (Zpos (digits2_pos p)) - 1)%Z
      with (Z.succ (Zpos (digits2_pos p) - 1))%Z by lia.
    rewrite !Z.pow_succ_r by lia. lia.
  - rewrite Pos2Z.inj_succ.
    replace (Z.succ (Zpos (digits2_pos p)) - 1)%Z
      with (Z.succ (Zpos (digits2_pos p) - 1))%Z by lia.
    rewrite !Z.pow_succ_r by lia. lia.
  - simpl. lia.
Qed.

(** The mantissa of a double has at most 53 bits, and exactly 53 unless
    the exponent is the least one. *)
Lemma bounded_mantissa m e :
  bounded prec emax m e = true ->
  (-1074 <= e)%Z
  /\ (Zpos m < 2 ^ 53)%Z
  /\ ((-1074 < e)%Z -> (2 ^ 52 <= Zpos m)%Z).
Proof.
  unfold bounded, canonical_mantissa, fexp, emin, prec, emax.
  intros H. apply andb_prop in H as [Hcanon _].
  apply Z.eqb_eq in Hcanon.
  pose proof (digits2_pos_bounds m) as [Hlow Hhigh].
  set (d := Zpos (digits2_pos m)) in *.
  assert (Hd : (d <= 53)%Z) by lia.
  split; [lia |]. split.
  - apply Z.lt_le_trans with (2 ^ d)%Z; [exact Hhigh |].
    apply Z.pow_le_mono_r; lia.
  - intros He. assert (d = 53)%Z as Hd53 by lia.
    rewrite Hd53 in Hlow. exact Hlow.
Qed.

Lemma magnitude_lt m1 e1 m2 e2 :
  bounded prec emax m1 e1 = true ->
  bounded prec emax m2 e2 = true ->
  (e1 < e2)%Z ->
  (Zpos m1 * 2 ^ (e1 + 1074) < Zpos m2 * 2 ^ (e2 + 1074))%Z.
Proof.
  intros H1 H2 Hlt.
  destruct (bounded_mantissa _ _ H1) as [He1 [Hm1 _]].
  destruct (bounded_mantissa _ _ H2) as [_ [_ Hm2]].
  specialize (Hm2 ltac:(lia)).
  replace (e2 + 1074)%Z with ((e1 + 1074) + (e2 - e1))%Z by lia.
  rewrite (Z.pow_add_r 2 (e1 + 1074) (e2 - e1)) by lia.
  assert (Hp : (0 < 2 ^ (e1 + 1074))%Z) by (apply Z.pow_pos_nonneg; lia).
  assert (Ht : (2 ^ 1 <= 2 ^ (e2 - e1))%Z) by (apply Z.pow_le_mono_r; lia).
  change (2 ^ 1)%Z with 2%Z in Ht.
  change (2 ^ 53)%Z with (2 * 2 ^ 52)%Z in Hm1.
  set (P := (2 ^ (e1 + 1074))%Z) in *.
  set (T := (2 ^ (e2 - e1))%Z) in *.
  set (B := (2 ^ 52)%Z) in *.
  assert (Hm2pos : (0 <= Zpos m2 * P)%Z) by lia.
  assert (Hs1 : (Zpos m1 * P < 2 * B * P)%Z)
    by (apply Z.mul_lt_mono_pos_r; assumption).
  assert (Hs2 : (B * P <= Zpos m2 * P)%Z)
    by (apply Z.mul_le_mono_nonneg_r; lia).
  assert (Hs3 : (Zpos m2 * P * 2 <= Zpos m2 * P * T)%Z)
    by (apply Z.mul_le_mono_nonneg_l; assumption).
  lia.
Qed.

Lemma scale_pos e : (-1074 <= e)%Z -> (0 < 2 ^ (e + 1074))%Z.
Proof. intros. apply Z.pow_pos_nonneg; lia. Qed.

(** On doubles that are not NaN or infinite, the comparison of the
    specification is the comparison of the numbers they stand for. *)
Lemma SFcompare_ulps a b :
  valid_binary a = true ->
  valid_binary b = true ->
  sfFinite a = true -> sfFinite b = true ->
  SFcompare a b = Some (sfUlps a ?= sfUlps b)%Z.
Proof.
  destruct a as [sa|sa| |sa ma ea], b as [sb|sb| |sb mb eb];
    try discriminate; unfold valid_binary, SpecFloat.valid_binary;
    intros Ha Hb _ _.
  - reflexivity.
  - destruct (bounded_mantissa _ _ Hb) as [He _].
    pose proof (scale_pos _ He).
    cbn [SFcompare sfUlps]. f_equal. destruct sb; symmetry.
    + apply Z.compare_gt_iff. nia.
    + apply Z.compare_lt_iff. nia.
  - destruct (bounded_mantissa _ _ Ha) as [He _].
    pose proof (scale_pos _ He).
    cbn [SFcompare sfUlps]. f_equal. destruct sa; symmetry.
    + apply Z.compare_lt_iff. nia.
    + apply Z.compare_gt_iff. nia.
  - destruct (bounded_mantissa _ _ Ha) as [Hea _].
    destruct (bounded_mantissa _ _ Hb) as [Heb _].
    pose proof (scale_pos _ Hea). pose proof (scale_pos _ Heb).
    unfold SFcompare, sfUlps. f_equal.
    destruct sa, sb.
    + (* both negative *)
      destruct (Z.compare_spec ea eb) as [Heq|Hlt|Hgt].
      * subst eb.
        rewrite <- (Zmult_compare_compat_r (Zneg ma) (Zneg mb)) by lia.
        reflexivity.
      * symmetry. apply Z.compare_gt_iff.
        pose proof (magnitude_lt _ _ _ _ Ha Hb Hlt). lia.
      * symmetry. apply Z.compare_lt_iff.
        pose proof (magnitude_lt _ _ _ _ Hb Ha ltac:(lia)). lia.
    + symmetry. apply Z.compare_lt_iff. nia.
    + symmetry. apply Z.compare_gt_iff. nia.
    + destruct (Z.compare_spec ea eb) as [Heq|Hlt|Hgt].
      * subst eb.
        rewrite <- (Zmult_compare_compat_r (Zpos ma) (Zpos mb)) by lia.
        reflexivity.
      * symmetry. apply Z.compare_lt_iff.
        now apply magnitude_lt.
      * symmetry. apply Z.compare_gt_iff.
        apply magnitude_lt; auto; lia.
Qed.

Lemma isFinite_not_nan x : isFinite x = true -> PrimFloat.is_nan x = false.
Proof.
  unfold isFinite, PrimFloat.is_finite. intros H.
  apply negb_true_iff, orb_false_iff in H. tauto.
Qed.

Lemma isFinite_sfFinite x : isFinite x = true -> sfFinite (Prim2SF x) = true.
Proof.
  unfold isFinite, PrimFloat.is_finite, PrimFloat.is_nan,
    PrimFloat.is_infinity.
  rewrite !FloatAxioms.eqb_spec, abs_spec.
  change (Prim2SF infinity) with (S754_infinity false).
  destruct (Prim2SF x) as [s|s| |s m e]; try reflexivity.
  - destruct s; discriminate.
  - discriminate.
Qed.

Lemma ulps_sfUlps x : ulps x = sfUlps (Prim2SF x).
Proof. unfold ulps, sfUlps. now destruct (Prim2SF x). Qed.

Lemma compare_finite x y :
  isFinite x = true -> isFinite y = true ->
  SFcompare (Prim2SF x) (Prim2SF y) = Some (ulps x ?= ulps y)%Z.
Proof.
  intros Hx Hy. rewrite !ulps_sfUlps.
  apply SFcompare_ulps; auto using Prim2SF_valid, isFinite_sfFinite.
Qed.

Lemma ltb_finite x y :
  isFinite x = true -> isFinite y = true ->
  PrimFloat.ltb x y = (ulps x <? ulps y)%Z.
Proof.
  intros Hx Hy. rewrite FloatAxioms.ltb_spec. unfold SFltb, Z.ltb.
  now rewrite (compare_finite _ _ Hx Hy).
Qed.

Lemma leb_finite x y :
  isFinite x = true -> isFinite y = true ->
  PrimFloat.leb x y = (ulps x <=? ulps y)%Z.
Proof.
  intros Hx Hy. rewrite FloatAxioms.leb_spec. unfold SFleb, Z.leb.
  rewrite (compare_finite _ _ Hx Hy). now destruct (ulps x ?= ulps y)%Z.
Qed.

Lemma is_zero_finite x :
  isFinite x = true -> PrimFloat.is_zero x = true -> ulps x = 0%Z.
Proof.
  intros Hx. unfold PrimFloat.is_zero.
  rewrite FloatAxioms.eqb_spec. unfold SFeqb.
  rewrite (compare_finite x PrimFloat.zero Hx eq_refl).
  change (ulps PrimFloat.zero) with 0%Z.
  destruct (Z.compare_spec (ulps x) 0); congruence.
Qed.

Lemma below_infinity x :
  isFinite x = true -> PrimFloat.ltb x PrimFloat.infinity = true.
Proof.
  intros Hx. apply isFinite_sfFinite in Hx.
  rewrite FloatAxioms.ltb_spec.
  change (Prim2SF infinity) with (S754_infinity false).
  now destruct (Prim2SF x).
Qed.

Lemma above_neg_infinity x :
  isFinite x = true -> PrimFloat.ltb PrimFloat.neg_infinity x = true.
Proof.
  intros Hx. apply isFinite_sfFinite in Hx.
  rewrite FloatAxioms.ltb_spec.
  change (Prim2SF neg_infinity) with (S754_infinity true).
  now destruct (Prim2SF x).
Qed.

End DoubleOrder.

(** ** Array lengths as doubles *)

Section LengthConversion.

Local Open Scope Z_scope.

(** One shift to the right halves the mantissa. *)
Lemma shr_1_m r : 0 <= shr_m r -> shr_m (shr_1 r) = shr_m r / 2.
Proof.
  destruct r as [m rb sb]. simpl shr_m. intros Hm.
  destruct m as [|[p|p|]|p]; try lia; cbn [shr_1 shr_m].
  - reflexivity.
  - rewrite Pos2Z.inj_xI. apply Z.div_unique with 1; lia.
  - rewrite Pos2Z.inj_xO. apply Z.div_unique with 0; lia.
  - reflexivity.
Qed.

Lemma iter_shr_1_m k :
  forall r, 0 <= shr_m r ->
            shr_m (SpecFloat.iter_pos shr_1 k r) = shr_m r / 2 ^ Zpos k.
Proof.
  induction k as [k IH|k IH|]; intros r Hr; cbn [SpecFloat.iter_pos].
  - assert (H1 : 0 <= shr_m (shr_1 r))
      by (rewrite shr_1_m by exact Hr; apply Z.div_pos; lia).
    assert (H2 : 0 <= shr_m (SpecFloat.iter_pos shr_1 k (shr_1 r)))
      by (rewrite IH by exact H1; apply Z.div_pos; lia).
    rewrite IH, IH, shr_1_m by assumption.
    rewrite !Z.div_div by lia. f_equal.
    rewrite <- Z.pow_add_r, <- Z.pow_succ_r by lia. f_equal. lia.
  - assert (H2 : 0 <= shr_m (SpecFloat.iter_pos shr_1 k r))
      by (rewrite IH by exact Hr; apply Z.div_pos; lia).
    rewrite IH, IH by assumption.
    rewrite !Z.div_div by lia. f_equal.
    rewrite <- Z.pow_add_r by lia. f_equal. lia.
  - rewrite shr_1_m by exact Hr. reflexivity.
Qed.

(** [shr] by [n >= 0] places divides the mantissa by [2^n] and adds [n] to
    the exponent. *)
Lemma shr_spec r e n :
  0 <= shr_m r -> 0 <= n ->
  shr_m (fst (shr r e n)) = shr_m r / 2 ^ n /\ snd (shr r e n) = e + n.
Proof.
  intros Hr Hn. destruct n as [|k|k]; try lia; cbn [shr fst snd].
  - rewrite Z.div_1_r. lia.
  - split; [now apply iter_shr_1_m | reflexivity].
Qed.

Lemma round_nearest_even_bounds m l :
  m <= round_nearest_even m l <= m + 1.
Proof.
  destruct l as [|[| |]]; cbn [round_nearest_even]; try lia.
  destruct (Z.even m); lia.
Qed.

(** The number of bits of a positive number is determined by the powers of
    two around it. *)
Lemma digits2_pos_unique m d :
  2 ^ (d - 1) <= Zpos m < 2 ^ d -> Zpos (digits2_pos m) = d.
Proof.
  intros [Hlow Hhigh]. pose proof (digits2_pos_bounds m) as [Hl Hh].
  assert (0 < d).
  { destruct (Z.ltb_spec 0 d); [assumption |].
    destruct d; [simpl in Hhigh; lia | lia |].
    rewrite Z.pow_neg_r in Hhigh by lia. lia. }
  destruct (Z.lt_trichotomy (Zpos (digits2_pos m)) d) as [Hlt|[Heq|Hgt]];
    [| exact Heq |].
  - assert (2 ^ Zpos (digits2_pos m) <= 2 ^ (d - 1))
      by (apply Z.pow_le_mono_r; lia). lia.
  - assert (2 ^ d <= 2 ^ (Zpos (digits2_pos m) - 1))
      by (apply Z.pow_le_mono_r; lia). lia.
Qed.

(** Rounding a mantissa of at least 53 bits, with an exponent that keeps
    the result in the normal range, gives a finite double that is not
    zero. *)
Lemma binary_round_aux_normal sx mz ez :
  53 <= Zpos (digits2_pos mz) ->
  -1074 <= ez ->
  Zpos (digits2_pos mz) + ez <= 1022 ->
  exists m e, binary_round_aux prec emax sx (Zpos mz) ez loc_Exact
              = S754_finite sx m e.
Proof.
  intros HD Hez Hmax.
  pose proof (digits2_pos_bounds mz) as [Hlow Hhigh].
  set (D := Zpos (digits2_pos mz)) in *.
  unfold binary_round_aux.
  (* first shift *)
  assert (Hn1 : fexp prec emax (Zdigits2 (Zpos mz) + ez) - ez = D - 53).
  { unfold fexp, emin, prec, emax. cbn [Zdigits2]. fold D. lia. }
  unfold shr_fexp at 1. rewrite Hn1.
  destruct (shr_spec (shr_record_of_loc (Zpos mz) loc_Exact) ez (D - 53))
    as [Hm1 He1]; [simpl; lia | lia |].
  destruct (shr (shr_record_of_loc (Zpos mz) loc_Exact) ez (D - 53))
    as [mrs' e'].
  cbn [fst snd] in Hm1, He1. cbn [shr_record_of_loc shr_m] in Hm1.
  assert (Hpow : 2 ^ (D - 1) = 2 ^ (D - 53) * 2 ^ 52)
    by (rewrite <- Z.pow_add_r by lia; f_equal; lia).
  assert (Hpow' : 2 ^ D = 2 ^ (D - 53) * 2 ^ 53)
    by (rewrite <- Z.pow_add_r by lia; f_equal; lia).
  assert (Hshift : 0 < 2 ^ (D - 53)) by (apply Z.pow_pos_nonneg; lia).
  assert (Hm1low : 2 ^ 52 <= shr_m mrs').
  { rewrite Hm1. apply Z.div_le_lower_bound; lia. }
  assert (Hm1high : shr_m mrs' < 2 ^ 53).
  { rewrite Hm1. apply Z.div_lt_upper_bound; lia. }
  pose proof (round_nearest_even_bounds (shr_m mrs') (loc_of_shr_record mrs'))
    as HR.
  set (R := round_nearest_even (shr_m mrs') (loc_of_shr_record mrs')) in *.
  destruct R as [|r|r] eqn:HRr; [lia | | lia].
  (* second shift *)
  pose proof (digits2_pos_bounds r) as [Hrlow Hrhigh].
  set (DR := Zpos (digits2_pos r)) in *.
  assert (HDR : 53 <= DR <= 54).
  { split.
    - destruct (Z.ltb_spec DR 53) as [Hlt|]; [| assumption].
      assert (2 ^ DR <= 2 ^ 52) by (apply Z.pow_le_mono_r; lia). lia.
    - destruct (Z.ltb_spec 54 DR) as [Hlt|]; [| assumption].
      assert (2 ^ 54 <= 2 ^ (DR - 1)) by (apply Z.pow_le_mono_r; lia).
      change (2 ^ 54) with (2 * 2 ^ 53) in *. lia. }
  assert (Hn2 : fexp prec emax (Zdigits2 (Zpos r) + e') - e' = DR - 53).
  { unfold fexp, emin, prec, emax. cbn [Zdigits2]. fold DR. lia. }
  unfold shr_fexp. rewrite Hn2.
  destruct (shr_spec (shr_record_of_loc (Zpos r) loc_Exact) e' (DR - 53))
    as [Hm2 He2]; [simpl; lia | lia |].
  destruct (shr (shr_record_of_loc (Zpos r) loc_Exact) e' (DR - 53))
    as [mrs'' e''].
  cbn [fst snd] in Hm2, He2. cbn [shr_record_of_loc shr_m] in Hm2.
  assert (Hm2low : 2 ^ 52 <= shr_m mrs'').
  { rewrite Hm2. apply Z.div_le_lower_bound.
    - apply Z.pow_pos_nonneg; lia.
    - rewrite <- Z.pow_add_r by lia.
      replace (DR - 53 + 52) with (DR - 1) by lia. exact Hrlow. }
  destruct (shr_m mrs'') as [|m|m]; [lia | | lia].
  assert (Hle : (e'' <=? emax - prec) = true).
  { apply Z.leb_le. unfold emax, prec. lia. }
  rewrite Hle. now exists m, e''.
Qed.

Lemma Pos_iter_xO mx k : Zpos (Pos.iter xO mx k) = Zpos mx * 2 ^ Zpos k.
Proof.
  induction k as [|k IH] using Pos.peano_ind.
  - simpl. lia.
  - rewrite Pos.iter_succ, Pos2Z.inj_xO, IH, Pos2Z.inj_succ,
      Z.pow_succ_r by lia.
    ring.
Qed.

(** A whole number from 1 to [2^63 - 1] converts to a finite double that is
    not zero. *)
Lemma binary_normalize_positive p :
  Zpos p < 2 ^ 63 ->
  exists m e, binary_normalize prec emax (Zpos p) 0 false
              = S754_finite false m e.
Proof.
  intros Hp. cbn [binary_normalize]. unfold binary_round.
  pose proof (digits2_pos_bounds p) as [Hlow Hhigh].
  set (d := Zpos (digits2_pos p)) in *.
  assert (Hd : 1 <= d <= 63).
  { split; [subst d; lia |].
    destruct (Z.ltb_spec 63 d) as [Hlt|]; [| assumption].
    assert (2 ^ 63 <= 2 ^ (d - 1)) by (apply Z.pow_le_mono_r; lia). lia. }
  assert (Hfexp : fexp prec emax (d + 0) = d - 53)
    by (unfold fexp, emin, prec, emax; lia).
  rewrite Hfexp. unfold shl_align.
  destruct (d - 53 - 0) as [|k|k] eqn:Hk.
  - apply binary_round_aux_normal; fold d; lia.
  - apply binary_round_aux_normal; fold d; lia.
  - assert (Hdig : Zpos (digits2_pos (PosDef.Pos.iter xO p k)) = 53).
    { apply digits2_pos_unique.
      change (PosDef.Pos.iter xO p k) with (Pos.iter xO p k).
      rewrite Pos_iter_xO.
      replace (Zpos k) with (53 - d) by lia.
      split.
      - replace (53 - 1) with ((d - 1) + (53 - d)) by lia.
        rewrite Z.pow_add_r by lia.
        apply Z.mul_le_mono_nonneg_r; [apply Z.pow_nonneg; lia | exact Hlow].
      - replace 53 with (d + (53 - d)) at 2 by lia.
        rewrite Z.pow_add_r by lia.
        apply Z.mul_lt_mono_pos_r;
          [apply Z.pow_pos_nonneg; lia | exact Hhigh]. }
    apply binary_round_aux_normal; try rewrite Hdig; lia.
Qed.

(** The length of a non-empty array is a double that is not zero. *)
Lemma Number_of_length_not_zero n :
  (0 < n)%nat -> Z.of_nat n < 2 ^ 63 ->
  PrimFloat.is_zero (Number_of_length n) = false.
Proof.
  intros Hpos Hmax. unfold Number_of_length, PrimFloat.is_zero.
  rewrite FloatAxioms.eqb_spec, of_uint63_spec, Uint63.of_Z_spec.
  rewrite Z.mod_small by (change wB with (2 ^ 63); lia).
  destruct (Z.of_nat n) as [|p|p] eqn:Hn; [lia | | lia].
  destruct (binary_normalize_positive p Hmax) as [m [e Hfinite]].
  rewrite Hfinite. reflexivity.
Qed.

End LengthConversion.

(** ** The daily summary *)

(** C3.  The summary is computed exactly when the historical series is not
    empty: for the empty series, and so after a query that returned the
    empty array, nothing is rendered and nothing is divided; when the
    summary is rendered, the divisor of both averages, the length of the
    series as a number, is not zero.  (An array has fewer than 2^32
    elements.) *)
Theorem summary_only_for_nonempty_series :
  forall series s,
    (Z.of_nat (List.length series) < 2 ^ 32)%Z ->
    DailySummary [] = None
    /\ (exists s',
          fetchData_then [] s = Normal tt s' []
          /\ DailySummary (historicalData s') = None)
    /\ match DailySummary series with
       | None => series = []
       | Some (temperatures, humidities) =>
           series <> []
           /\ PrimFloat.is_zero
                (Number_of_length (List.length series)) = false
           /\ temperatures = statisticsOf temperature series
           /\ humidities = statisticsOf humidity series
           /\ average temperatures
              = PrimFloat.div (sumOf temperature series)
                  (Number_of_length (List.length series))
           /\ average humidities
              = PrimFloat.div (sumOf humidity series)
                  (Number_of_length (List.length series))
       end.
Proof.
  intros series s Hlength. split; [reflexivity |].
  split; [eexists; split; reflexivity |].
  destruct series as [|d rest]; [reflexivity |].
  cbn [DailySummary List.length Nat.ltb Nat.leb].
  split; [discriminate |].
  split; [| repeat split].
  apply Number_of_length_not_zero; [cbn; lia |].
  eapply Z.lt_trans; [exact Hlength | reflexivity].
Qed.

(** ** The summary columns *)

Section Columns.


Lemma isNegativeZero_ulps x :
  finite x -> isNegativeZero x = true -> ulps x = 0%Z.
Proof.
  unfold isNegativeZero. intros Hx H. apply andb_prop in H as [Hz _].
  now apply is_zero_finite.
Qed.

Lemma isPositiveZero_ulps x :
  finite x -> isPositiveZero x = true -> ulps x = 0%Z.
Proof.
  unfold isPositiveZero. intros Hx H. apply andb_prop in H as [Hz _].
  now apply is_zero_finite.
Qed.

(** From a finite start, the running minimum over finite values is finite,
    is the start or one of the values, and stands for a number that is at
    most the start and every value. *)
Lemma Math_min_from_finite values :
  forall lowest,
    finite lowest -> Forall finite values ->
    finite (Math_min_from lowest values)
    /\ (ulps (Math_min_from lowest values) <= ulps lowest)%Z
    /\ Forall (fun v => (ulps (Math_min_from lowest values) <= ulps v)%Z)
         values
    /\ (Math_min_from lowest values = lowest
        \/ In (Math_min_from lowest values) values).
Proof.
  induction values as [|n rest IH]; intros lowest Hlow Hall;
    cbn [Math_min_from].
  - repeat split; auto; lia.
  - inversion Hall as [|? ? Hn Hrest]; subst.
    rewrite (isFinite_not_nan _ Hn).
    destruct (isNegativeZero n && isPositiveZero lowest) eqn:Hzeros.
    + apply andb_prop in Hzeros as [Hnz Hpz].
      pose proof (isNegativeZero_ulps _ Hn Hnz) as Hn0.
      pose proof (isPositiveZero_ulps _ Hlow Hpz) as Hl0.
      destruct (IH n Hn Hrest) as [Hfin [Hle [Hrest' Hin]]].
      repeat split; [exact Hfin | lia | | ].
      * constructor; [exact Hle | exact Hrest'].
      * right. destruct Hin as [-> | Hin]; [now left | now right].
    + rewrite (ltb_finite _ _ Hn Hlow).
      destruct (Z.ltb_spec (ulps n) (ulps lowest)) as [Hlt|Hge].
      * destruct (IH n Hn Hrest) as [Hfin [Hle [Hrest' Hin]]].
        repeat split; [exact Hfin | lia | | ].
        -- constructor; [exact Hle | exact Hrest'].
        -- right. destruct Hin as [-> | Hin]; [now left | now right].
      * destruct (IH lowest Hlow Hrest) as [Hfin [Hle [Hrest' Hin]]].
        repeat split; [exact Hfin | exact Hle | | ].
        -- constructor; [lia | exact Hrest'].
        -- destruct Hin as [Heq | Hin]; [now left | right; now right].
Qed.

Lemma Math_max_from_finite values :
  forall highest,
    finite highest -> Forall finite values ->
    finite (Math_max_from highest values)
    /\ (ulps highest <= ulps (Math_max_from highest values))%Z
    /\ Forall (fun v => (ulps v <= ulps (Math_max_from highest values))%Z)
         values
    /\ (Math_max_from highest values = highest
        \/ In (Math_max_from highest values) values).
Proof.
  induction values as [|n rest IH]; intros highest Hhigh Hall;
    cbn [Math_max_from].
  - repeat split; auto; lia.
  - inversion Hall as [|? ? Hn Hrest]; subst.
    rewrite (isFinite_not_nan _ Hn).
    destruct (isPositiveZero n && isNegativeZero highest) eqn:Hzeros.
    + apply andb_prop in Hzeros as [Hpz Hnz].
      pose proof (isPositiveZero_ulps _ Hn Hpz) as Hn0.
      pose proof (isNegativeZero_ulps _ Hhigh Hnz) as Hh0.
      destruct (IH n Hn Hrest) as [Hfin [Hle [Hrest' Hin]]].
      repeat split; [exact Hfin | lia | | ].
      * constructor; [exact Hle | exact Hrest'].
      * right. destruct Hin as [-> | Hin]; [now left | now right].
    + rewrite (ltb_finite _ _ Hhigh Hn).
      destruct (Z.ltb_spec (ulps highest) (ulps n)) as [Hlt|Hge].
      * destruct (IH n Hn Hrest) as [Hfin [Hle [Hrest' Hin]]].
        repeat split; [exact Hfin | lia | | ].
        -- constructor; [exact Hle | exact Hrest'].
        -- right. destruct Hin as [-> | Hin]; [now left | now right].
      * destruct (IH highest Hhigh Hrest) as [Hfin [Hle [Hrest' Hin]]].
        repeat split; [exact Hfin | exact Hle | | ].
        -- constructor; [lia | exact Hrest'].
        -- destruct Hin as [Heq | Hin]; [now left | right; now right].
Qed.

(** [Math.min] of finite values, at least one: a value of the list that
    stands for a number no larger than any of them. *)
Lemma Math_min_finite x rest :
  Forall finite (x :: rest) ->
  finite (Math_min (x :: rest))
  /\ Forall (fun v => (ulps (Math_min (x :: rest)) <= ulps v)%Z) (x :: rest)
  /\ In (Math_min (x :: rest)) (x :: rest).
Proof.
  intros Hall. inversion Hall as [|? ? Hx Hrest]; subst.
  unfold Math_min. cbn [Math_min_from].
  rewrite (isFinite_not_nan _ Hx).
  change (isPositiveZero PrimFloat.infinity) with false.
  rewrite andb_false_r, (below_infinity _ Hx).
  destruct (Math_min_from_finite rest x Hx Hrest)
    as [Hfin [Hle [Hrest' Hin]]].
  repeat split; [exact Hfin | now constructor |].
  destruct Hin as [-> | Hin]; [now left | now right].
Qed.

Lemma Math_max_finite x rest :
  Forall finite (x :: rest) ->
  finite (Math_max (x :: rest))
  /\ Forall (fun v => (ulps v <= ulps (Math_max (x :: rest)))%Z) (x :: rest)
  /\ In (Math_max (x :: rest)) (x :: rest).
Proof.
  intros Hall. inversion Hall as [|? ? Hx Hrest]; subst.
  unfold Math_max. cbn [Math_max_from].
  rewrite (isFinite_not_nan _ Hx).
  change (isNegativeZero PrimFloat.neg_infinity) with false.
  rewrite andb_false_r, (above_neg_infinity _ Hx).
  destruct (Math_max_from_finite rest x Hx Hrest)
    as [Hfin [Hle [Hrest' Hin]]].
  repeat split; [exact Hfin | now constructor |].
  destruct Hin as [-> | Hin]; [now left | now right].
Qed.

Lemma sumUlps_bounds values lo hi :
  Forall (fun v => (lo <= ulps v <= hi)%Z) values ->
  (Z.of_nat (List.length values) * lo <= sumUlps values
   <= Z.of_nat (List.length values) * hi)%Z.
Proof.
  unfold sumUlps.
  induction 1 as [|v rest Hv Hrest IH]; cbn [List.length map fold_right].
  - lia.
  - rewrite Nat2Z.inj_succ. lia.
Qed.

Lemma exact_sum values :
  (fold_right Qplus 0 (map exactValue values)
   == inject_Z (sumUlps values) / inject_Z (2 ^ 1074))%Q.
Proof.
  unfold sumUlps, exactValue.
  assert (HK : ~ (inject_Z (2 ^ 1074) == 0)%Q).
  { intros H. apply Qeq_bool_iff in H. discriminate. }
  set (K := inject_Z (2 ^ 1074)) in *.
  induction values as [|v rest IH]; cbn [map fold_right].
  - now field.
  - rewrite IH, inject_Z_plus. now field.
Qed.

Lemma Qdiv_between (a s b K n : Q) :
  (0 < K)%Q -> (0 < n)%Q -> (n * a <= s)%Q -> (s <= n * b)%Q ->
  (a / K <= s / K / n <= b / K)%Q.
Proof.
  intros HK Hn Hlo Hhi.
  assert (Hk : (0 <= / K)%Q) by now apply Qlt_le_weak, Qinv_lt_0_compat.
  split.
  - apply Qle_shift_div_l; [exact Hn |]. unfold Qdiv.
    setoid_replace (a * / K * n)%Q with (n * a * / K)%Q by ring.
    now apply Qmult_le_compat_r.
  - apply Qle_shift_div_r; [exact Hn |]. unfold Qdiv.
    setoid_replace (b * / K * n)%Q with (n * b * / K)%Q by ring.
    now apply Qmult_le_compat_r.
Qed.

(** Between bounds on every value, in exact arithmetic, lies the mean. *)
Lemma exactMean_bounds values lo hi :
  values <> [] ->
  Forall (fun v => (ulps lo <= ulps v <= ulps hi)%Z) values ->
  (exactValue lo <= exactMean values <= exactValue hi)%Q.
Proof.
  intros Hne Hall.
  pose proof (sumUlps_bounds _ _ _ Hall) as [Hlo Hhi].
  unfold exactMean. rewrite exact_sum. unfold exactValue.
  rewrite Zle_Qle, inject_Z_mult in Hlo, Hhi.
  apply Qdiv_between; try assumption.
  - change 0%Q with (inject_Z 0). rewrite <- Zlt_Qlt. reflexivity.
  - change 0%Q with (inject_Z 0). rewrite <- Zlt_Qlt.
    destruct values; [contradiction | simpl; lia].
Qed.

(** One column over finite readings: the lowest and the highest are
    readings of the series, every reading lies between them as doubles
    compare, and the exact mean of the readings lies between the numbers
    the two stand for. *)
Lemma column_brackets_exact_mean f historicalData :
  historicalData <> [] ->
  Forall (fun d => finite (f d)) historicalData ->
  let st := statisticsOf f historicalData in
  let values := map f historicalData in
  (exactValue (lowest st) <= exactMean values <= exactValue (highest st))%Q
  /\ PrimFloat.leb (lowest st) (highest st) = true
  /\ Forall (fun v => PrimFloat.leb (lowest st) v = true
                      /\ PrimFloat.leb v (highest st) = true) values
  /\ In (lowest st) values
  /\ In (highest st) values.
Proof.
  intros Hne Hall st values.
  assert (Hvalues : Forall finite values).
  { subst values. rewrite Forall_map. exact Hall. }
  assert (Hne' : values <> []).
  { subst values. destruct historicalData; [contradiction | discriminate]. }
  subst st. cbn [statisticsOf lowest highest].
  fold values. destruct values as [|x rest]; [contradiction |].
  destruct (Math_min_finite x rest Hvalues) as [Hminfin [Hmin Hminin]].
  destruct (Math_max_finite x rest Hvalues) as [Hmaxfin [Hmax Hmaxin]].
  rewrite Forall_forall in Hmin, Hmax, Hvalues.
  split; [| split; [| split; [| split; assumption]]].
  - apply exactMean_bounds; [discriminate |].
    apply Forall_forall. intros v Hv. split; auto.
  - rewrite (leb_finite _ _ Hminfin Hmaxfin). apply Z.leb_le.
    now apply Hmax.
  - apply Forall_forall. intros v Hv.
    rewrite (leb_finite _ _ Hminfin (Hvalues v Hv)).
    rewrite (leb_finite _ _ (Hvalues v Hv) Hmaxfin).
    split; apply Z.leb_le; auto.
Qed.

End Columns.

(** ** Rounding

    What the specification of binary64 makes of a number that is located
    between two multiples of a power of two: the sign, the mantissa it
    keeps and the exponent. *)

Section Rounding.

Local Open Scope Z_scope.

Lemma shr_m_of_loc m l : shr_m (shr_record_of_loc m l) = m.
Proof. destruct l as [|[| |]]; reflexivity. Qed.

Lemma shr_not_positive r e n : n <= 0 -> shr r e n = (r, e).
Proof. destruct n; try reflexivity. lia. Qed.

(** Halving an even mantissa loses nothing. *)
Lemma shr_1_exact c :
  0 <= c -> shr_1 (Build_shr_record (2 * c) false false)
            = Build_shr_record c false false.
Proof. destruct c as [|p|p]; [reflexivity | reflexivity | lia]. Qed.

Lemma iter_shr_1_exact k :
  forall c, 0 <= c ->
            SpecFloat.iter_pos shr_1 k
              (Build_shr_record (2 ^ Zpos k * c) false false)
            = Build_shr_record c false false.
Proof.
  induction k as [k IH|k IH|]; intros c Hc; cbn [SpecFloat.iter_pos].
  - assert (Hk : 0 < 2 ^ Zpos k) by (apply Z.pow_pos_nonneg; lia).
    replace (2 ^ Zpos k~1 * c) with (2 * (2 ^ Zpos k * (2 ^ Zpos k * c))).
    + rewrite shr_1_exact by nia. rewrite IH by nia. now apply IH.
    + replace (Zpos k~1) with (1 + Zpos k + Zpos k) by lia.
      rewrite !Z.pow_add_r by lia. change (2 ^ 1) with 2. ring.
  - assert (Hk : 0 < 2 ^ Zpos k) by (apply Z.pow_pos_nonneg; lia).
    replace (2 ^ Zpos k~0 * c) with (2 ^ Zpos k * (2 ^ Zpos k * c)).
    + rewrite IH by nia. now apply IH.
    + replace (Zpos k~0) with (Zpos k + Zpos k) by lia.
      rewrite Z.pow_add_r by lia. ring.
  - change (2 ^ 1) with 2. now apply shr_1_exact.
Qed.

(** Shifting an exactly located mantissa that is a multiple of [2^n] by
    [n] places keeps it exactly located. *)
Lemma shr_exact m e n :
  0 <= m -> 0 <= n -> m mod 2 ^ n = 0 ->
  loc_of_shr_record (fst (shr (shr_record_of_loc m loc_Exact) e n))
  = loc_Exact.
Proof.
  intros Hm Hn Hmod. destruct n as [|k|k]; [reflexivity | | lia].
  cbn [shr fst shr_record_of_loc].
  assert (Hk : 0 < 2 ^ Zpos k) by (apply Z.pow_pos_nonneg; lia).
  rewrite (Z.div_mod m (2 ^ Zpos k)), Hmod, Z.add_0_r by lia.
  rewrite iter_shr_1_exact; [reflexivity |].
  apply Z.div_pos; lia.
Qed.

Lemma Zdigits2_bounds m :
  0 < m -> 2 ^ (Zdigits2 m - 1) <= m < 2 ^ Zdigits2 m.
Proof.
  destruct m as [|p|p]; try lia. intros _. apply digits2_pos_bounds.
Qed.

Lemma Zdigits2_nonneg m : 0 <= Zdigits2 m.
Proof. destruct m; simpl; lia. Qed.

Lemma neg_mul p X : Zneg p * X = - (Zpos p * X).
Proof. change (Zneg p) with (- Zpos p). ring. Qed.

(** Rounding to nearest, ties to even, of a number located by [m], [e]
    and [l] (it lies from [m * 2^e] to below [(m + 1) * 2^e], where [l]
    says in which part), with enough bits to round.  [E] is the exponent
    of the result and [m1] the mantissa below the number at that
    exponent, of 53 bits unless [E] is the least exponent; the mantissa
    kept, [R], is [m1] or the next, and [m1] when nothing is cut off.
    The result stands for [R * 2^E], unless that is beyond the doubles
    and the result is the infinity. *)
Lemma binary_round_aux_spec sx m e l :
  0 <= m -> -1074 <= e -> e <= fexp prec emax (Zdigits2 m + e) ->
  exists R,
    m / 2 ^ (fexp prec emax (Zdigits2 m + e) - e) <= R
    /\ R <= m / 2 ^ (fexp prec emax (Zdigits2 m + e) - e) + 1
    /\ (l = loc_Exact ->
        m mod 2 ^ (fexp prec emax (Zdigits2 m + e) - e) = 0 ->
        R = m / 2 ^ (fexp prec emax (Zdigits2 m + e) - e))
    /\ m / 2 ^ (fexp prec emax (Zdigits2 m + e) - e) < 2 ^ 53
    /\ (-1074 < fexp prec emax (Zdigits2 m + e) ->
        2 ^ 52 <= m / 2 ^ (fexp prec emax (Zdigits2 m + e) - e))
    /\ ((2 ^ 2098 <= R * 2 ^ (fexp prec emax (Zdigits2 m + e) + 1074)
         /\ binary_round_aux prec emax sx m e l = S754_infinity sx)
        \/ (R * 2 ^ (fexp prec emax (Zdigits2 m + e) + 1074) < 2 ^ 2098
            /\ sfFinite (binary_round_aux prec emax sx m e l) = true
            /\ sfUlps (binary_round_aux prec emax sx m e l)
               = if sx
                 then - (R * 2 ^ (fexp prec emax (Zdigits2 m + e) + 1074))
                 else R * 2 ^ (fexp prec emax (Zdigits2 m + e) + 1074))).
Proof.
  intros Hm He Hprec.
  set (d := Zdigits2 m) in *.
  set (E := fexp prec emax (d + e)) in *.
  assert (HE : -1074 <= E /\ d + e - 53 <= E
               /\ (-1074 < E -> E = d + e - 53)).
  { subst E. unfold fexp, emin, prec, emax. lia. }
  destruct HE as [HE [HEd HEn]].
  set (n := E - e) in *.
  assert (Hn : 0 <= n) by lia.
  assert (Hpn : 0 < 2 ^ n) by (apply Z.pow_pos_nonneg; lia).
  set (m1 := m / 2 ^ n) in *.
  assert (Hm1nn : 0 <= m1) by (apply Z.div_pos; lia).
  assert (Hm1hi : m1 < 2 ^ 53).
  { destruct (Z.eq_dec m 0) as [->|Hne].
    - subst m1. rewrite Z.div_0_l by lia. reflexivity.
    - destruct (Zdigits2_bounds m ltac:(lia)) as [_ Hhigh]. fold d in Hhigh.
      apply Z.div_lt_upper_bound; [exact Hpn |].
      rewrite <- Z.pow_add_r by lia.
      apply Z.lt_le_trans with (2 ^ d); [exact Hhigh |].
      apply Z.pow_le_mono_r; lia. }
  assert (Hm1lo : -1074 < E -> 2 ^ 52 <= m1).
  { intros Hnormal. specialize (HEn Hnormal).
    assert (Hd : 53 <= d) by lia.
    assert (Hpos : 0 < m).
    { destruct m as [|p|p]; [subst d; simpl in Hd; lia | lia | lia]. }
    destruct (Zdigits2_bounds m Hpos) as [Hlow _]. fold d in Hlow.
    apply Z.div_le_lower_bound; [exact Hpn |].
    rewrite <- Z.pow_add_r by lia.
    replace (n + 52) with (d - 1) by lia. exact Hlow. }
  remember (binary_round_aux prec emax sx m e l) as res eqn:Hres.
  unfold binary_round_aux in Hres.
  unfold shr_fexp at 1 in Hres. fold d in Hres. fold E in Hres.
  fold n in Hres.
  destruct (shr_spec (shr_record_of_loc m l) e n) as [Hsm Hse];
    [rewrite shr_m_of_loc; exact Hm | exact Hn |].
  rewrite shr_m_of_loc in Hsm. fold m1 in Hsm.
  assert (Hexact : l = loc_Exact -> m mod 2 ^ n = 0 ->
                   loc_of_shr_record
                     (fst (shr (shr_record_of_loc m l) e n)) = loc_Exact).
  { intros -> Hmod. now apply shr_exact. }
  destruct (shr (shr_record_of_loc m l) e n) as [mrs' e'].
  cbn [fst snd] in Hsm, Hse, Hexact.
  replace e' with E in Hres by lia. clear Hse e'.
  pose proof (round_nearest_even_bounds (shr_m mrs') (loc_of_shr_record mrs'))
    as HR.
  set (R := round_nearest_even (shr_m mrs') (loc_of_shr_record mrs')) in *.
  rewrite Hsm in HR.
  assert (HRexact : l = loc_Exact -> m mod 2 ^ n = 0 -> R = m1).
  { intros Hl Hmod. subst R. rewrite (Hexact Hl Hmod). exact Hsm. }
  exists R.
  split; [apply HR |]. split; [apply HR |]. split; [exact HRexact |].
  split; [exact Hm1hi |]. split; [exact Hm1lo |].
  clearbody R. clear HRexact Hexact Hsm mrs'.
  set (G := 2 ^ (E + 1074)) in *.
  assert (HG : 0 < G) by (apply Z.pow_pos_nonneg; lia).
  assert (HGlow : E <= 971 -> G <= 2 ^ 2045)
    by (intros; apply Z.pow_le_mono_r; lia).
  assert (HGhigh : 972 <= E -> 2 ^ 2046 <= G)
    by (intros; apply Z.pow_le_mono_r; lia).
  assert (HGsucc : 2 ^ (E + 1 + 1074) = 2 * G).
  { subst G. replace (E + 1 + 1074) with (Z.succ (E + 1074)) by lia.
    apply Z.pow_succ_r. lia. }
  assert (P2098 : 2 ^ 2098 = 2 ^ 53 * 2 ^ 2045) by reflexivity.
  assert (P2098' : 2 ^ 2098 = 2 ^ 52 * 2 ^ 2046) by reflexivity.
  destruct R as [|r|r]; [| | lia].
  - (* the result is a zero *)
    unfold shr_fexp in Hres. cbn [Zdigits2 shr_record_of_loc] in Hres.
    rewrite shr_not_positive in Hres
      by (unfold fexp, emin, prec, emax; lia).
    cbn [shr_m] in Hres. subst res. right. rewrite Z.mul_0_l.
    split; [reflexivity |]. split; [reflexivity |]. now destruct sx.
  - destruct (Z.eq_dec (Zpos r) (2 ^ 53)) as [Htop|Hnottop].
    + (* the mantissa reached 2^53: one more place is shifted out *)
      assert (Hr : r = Z.to_pos (2 ^ 53)) by (rewrite <- Htop; reflexivity).
      subst r.
      unfold shr_fexp in Hres.
      replace (fexp prec emax
                 (Zdigits2 (Zpos (Z.to_pos (2 ^ 53))) + E) - E) with 1
        in Hres
        by (change (Zdigits2 (Zpos (Z.to_pos (2 ^ 53)))) with 54;
            unfold fexp, emin, prec, emax; lia).
      change (shr (shr_record_of_loc (Zpos (Z.to_pos (2 ^ 53))) loc_Exact)
                E 1)
        with (Build_shr_record (2 ^ 52) false false, E + 1) in Hres.
      change (shr_m (Build_shr_record (2 ^ 52) false false))
        with (Zpos (Z.to_pos (2 ^ 52))) in Hres.
      cbv iota beta in Hres.
      rewrite Htop. subst res.
      destruct (Z.leb_spec (E + 1) (emax - prec)) as [Hfit|Hover];
        unfold emax, prec in *.
      * right. split.
        -- rewrite P2098. apply Z.mul_lt_mono_pos_l; [reflexivity |].
           assert (G <= 2 ^ 2044)
             by (subst G; apply Z.pow_le_mono_r; lia).
           assert (2 ^ 2044 < 2 ^ 2045) by reflexivity. lia.
        -- split; [reflexivity |].
           change (shr_m (Build_shr_record (2 ^ 52) false false))
             with (Zpos (Z.to_pos (2 ^ 52))).
           cbv iota beta. cbn [sfUlps].
           rewrite HGsucc.
           change (Zpos (Z.to_pos (2 ^ 52))) with (2 ^ 52).
           change (Zneg (Z.to_pos (2 ^ 52))) with (- 2 ^ 52).
           change (2 ^ 53) with (2 * 2 ^ 52).
           destruct sx; ring.
      * left. split; [| reflexivity].
        rewrite P2098. apply Z.mul_le_mono_nonneg_l; [discriminate |].
        subst G. apply Z.pow_le_mono_r; lia.
    + assert (Hrhi : Zpos r < 2 ^ 53) by lia.
      assert (Hdr : Zpos (digits2_pos r) <= 53).
      { pose proof (digits2_pos_bounds r) as [Hlow _].
        destruct (Z.leb_spec (Zpos (digits2_pos r)) 53) as [|Hbig];
          [assumption |].
        assert (2 ^ 53 <= 2 ^ (Zpos (digits2_pos r) - 1))
          by (apply Z.pow_le_mono_r; lia).
        lia. }
      unfold shr_fexp in Hres. cbn [Zdigits2 shr_record_of_loc] in Hres.
      rewrite shr_not_positive in Hres
        by (unfold fexp, emin, prec, emax; lia).
      cbn [shr_m] in Hres. subst res.
      destruct (Z.leb_spec E (emax - prec)) as [Hfit|Hover];
        unfold emax, prec in *.
      * right. split.
        -- rewrite P2098.
           apply Z.lt_le_trans with (2 ^ 53 * G).
           ++ apply Z.mul_lt_mono_pos_r; assumption.
           ++ apply Z.mul_le_mono_nonneg_l; [discriminate |].
              apply HGlow. lia.
        -- split; [reflexivity |]. cbn [sfUlps]. fold G.
           destruct sx; [apply neg_mul | reflexivity].
      * left. split; [| reflexivity].
        rewrite P2098'.
        apply Z.le_trans with (2 ^ 52 * G).
        -- apply Z.mul_le_mono_nonneg_l; [discriminate |].
           apply HGhigh. lia.
        -- apply Z.mul_le_mono_nonneg_r; [lia |].
           specialize (Hm1lo ltac:(lia)). lia.
Qed.

Lemma representable_below_infinity U : representable U -> U < 2 ^ 2098.
Proof.
  intros [M [Eg [HM [HEg ->]]]].
  assert (0 < 2 ^ Eg) by (apply Z.pow_pos_nonneg; lia).
  assert (2 ^ Eg <= 2 ^ 2045) by (apply Z.pow_le_mono_r; lia).
  change (2 ^ 2098) with (2 ^ 53 * 2 ^ 2045).
  apply Z.lt_le_trans with (2 ^ 53 * 2 ^ Eg).
  - apply Z.mul_lt_mono_pos_r; lia.
  - apply Z.mul_le_mono_nonneg_l; [discriminate | assumption].
Qed.

(** A representable magnitude, written over the grid of the exponent
    [E]: a multiple of the grid step, or below [2^52] steps. *)
Lemma representable_on_grid U E :
  representable U -> -1074 <= E ->
  (exists c, 0 <= c /\ U = c * 2 ^ (E + 1074))
  \/ (-1074 < E /\ U < 2 ^ 52 * 2 ^ (E + 1074)).
Proof.
  intros [M [Eg [HM [HEg ->]]]] HE.
  destruct (Z.le_gt_cases (E + 1074) Eg) as [Hle|Hgt].
  - left. exists (M * 2 ^ (Eg - (E + 1074))). split.
    + apply Z.mul_nonneg_nonneg; [lia | apply Z.pow_nonneg; lia].
    + rewrite <- Z.mul_assoc, <- Z.pow_add_r by lia. do 2 f_equal. lia.
  - right. split; [lia |].
    assert (Hp : 0 < 2 ^ Eg) by (apply Z.pow_pos_nonneg; lia).
    replace (E + 1074) with (Z.succ (E + 1074 - Eg - 1) + Eg) by lia.
    rewrite Z.pow_add_r, Z.pow_succ_r by lia.
    assert (Hq : 0 < 2 ^ (E + 1074 - Eg - 1))
      by (apply Z.pow_pos_nonneg; lia).
    change (2 ^ 53) with (2 * 2 ^ 52) in HM.
    set (P := 2 ^ Eg) in *. set (Q := 2 ^ (E + 1074 - Eg - 1)) in *.
    assert (M * P < 2 * 2 ^ 52 * P) by (apply Z.mul_lt_mono_pos_r; lia).
    assert (2 * 2 ^ 52 * P * 1 <= 2 * 2 ^ 52 * P * Q)
      by (apply Z.mul_le_mono_nonneg_l; lia).
    replace (2 ^ 52 * (2 * Q * P)) with (2 * 2 ^ 52 * P * Q) by ring.
    lia.
Qed.

Lemma grid_below U m1 E :
  representable U -> -1074 <= E -> 0 <= m1 ->
  (-1074 < E -> 2 ^ 52 <= m1) ->
  U < (m1 + 1) * 2 ^ (E + 1074) -> U <= m1 * 2 ^ (E + 1074).
Proof.
  intros HU HE Hm1 Hnormal Hlt.
  assert (HG : 0 < 2 ^ (E + 1074)) by (apply Z.pow_pos_nonneg; lia).
  set (G := 2 ^ (E + 1074)) in *.
  destruct (representable_on_grid U E HU HE) as [[c [Hc ->]]|[HE' Hsmall]].
  - apply Z.mul_le_mono_nonneg_r; [lia |].
    apply Z.mul_lt_mono_pos_r in Hlt; lia.
  - fold G in Hsmall. specialize (Hnormal HE').
    assert (2 ^ 52 * G <= m1 * G)
      by (apply Z.mul_le_mono_nonneg_r; lia).
    lia.
Qed.

Lemma grid_above U m1 E :
  representable U -> -1074 <= E -> 0 <= m1 ->
  (-1074 < E -> 2 ^ 52 <= m1) ->
  m1 * 2 ^ (E + 1074) < U -> (m1 + 1) * 2 ^ (E + 1074) <= U.
Proof.
  intros HU HE Hm1 Hnormal Hlt.
  assert (HG : 0 < 2 ^ (E + 1074)) by (apply Z.pow_pos_nonneg; lia).
  set (G := 2 ^ (E + 1074)) in *.
  destruct (representable_on_grid U E HU HE) as [[c [Hc ->]]|[HE' Hsmall]].
  - apply Z.mul_le_mono_nonneg_r; [lia |].
    apply Z.mul_lt_mono_pos_r in Hlt; lia.
  - fold G in Hsmall. specialize (Hnormal HE').
    assert (2 ^ 52 * G <= m1 * G)
      by (apply Z.mul_le_mono_nonneg_r; lia).
    lia.
Qed.

(** Rounding a positive number [X / Y], counted in multiples of
    [2^-1074], that [m], [e] and [l] locate.  The magnitude [V] of the
    result is at least every representable magnitude that is at most the
    number, and at most every one that is at least the number; it differs
    from the number by less than one part in [2^52], or by less than one
    multiple of [2^-1074]. *)
Lemma round_located sx m e l X Y :
  0 <= m -> -1074 <= e -> e <= fexp prec emax (Zdigits2 m + e) ->
  0 < Y ->
  m * 2 ^ (e + 1074) * Y <= X ->
  X < (m + 1) * 2 ^ (e + 1074) * Y ->
  (l = loc_Exact -> X = m * 2 ^ (e + 1074) * Y) ->
  (l <> loc_Exact -> m * 2 ^ (e + 1074) * Y < X) ->
  exists V,
    0 <= V
    /\ ((binary_round_aux prec emax sx m e l = S754_infinity sx
         /\ 2 ^ 2098 <= V)
        \/ (sfFinite (binary_round_aux prec emax sx m e l) = true
            /\ sfUlps (binary_round_aux prec emax sx m e l)
               = if sx then - V else V))
    /\ (forall U, representable U -> U * Y <= X -> U <= V)
    /\ (forall U, representable U -> X <= U * Y -> V <= U)
    /\ 2 ^ 52 * Z.abs (V * Y - X) <= X + 2 ^ 52 * Y
    /\ (l = loc_Exact -> 2 ^ 52 * Z.abs (V * Y - X) <= X).
Proof.
  intros Hm He Hprec HY Hlow Hhigh Hexact Hinexact.
  destruct (binary_round_aux_spec sx m e l Hm He Hprec)
    as [R [HR1 [HR2 [HRexact [Hm1hi [Hm1lo Hres]]]]]].
  set (E := fexp prec emax (Zdigits2 m + e)) in *.
  assert (HE : -1074 <= E)
    by (subst E; unfold fexp, emin, prec, emax; lia).
  set (n := E - e) in *.
  assert (Hn : 0 <= n) by lia.
  set (G0 := 2 ^ (e + 1074)) in *.
  set (P := 2 ^ n) in *.
  assert (HG0 : 0 < G0) by (apply Z.pow_pos_nonneg; lia).
  assert (HP : 0 < P) by (apply Z.pow_pos_nonneg; lia).
  assert (HGE : 2 ^ (E + 1074) = G0 * P).
  { subst G0 P. rewrite <- Z.pow_add_r by lia. f_equal. lia. }
  rewrite HGE in Hres.
  set (m1 := m / P) in *.
  assert (Hm1 : 0 <= m1) by (apply Z.div_pos; lia).
  pose proof (Z.div_mod m P ltac:(lia)) as Hdm. fold m1 in Hdm.
  pose proof (Z.mod_pos_bound m P HP) as Hrem.
  set (rem := m mod P) in *.
  set (W := G0 * P * Y).
  assert (HW : 0 < W) by (subst W; apply Z.mul_pos_pos; lia).
  assert (HA1 : m1 * W <= X).
  { apply Z.le_trans with (m * G0 * Y); [| exact Hlow].
    subst W. rewrite Hdm.
    replace (m1 * (G0 * P * Y)) with (P * m1 * (G0 * Y)) by ring.
    replace ((P * m1 + rem) * G0 * Y) with ((P * m1 + rem) * (G0 * Y))
      by ring.
    apply Z.mul_le_mono_nonneg_r; [| lia].
    apply Z.mul_nonneg_nonneg; lia. }
  assert (HA2 : X < (m1 + 1) * W).
  { apply Z.lt_le_trans with ((m + 1) * G0 * Y); [exact Hhigh |].
    subst W. rewrite Hdm.
    replace ((m1 + 1) * (G0 * P * Y)) with ((P * m1 + P) * (G0 * Y))
      by ring.
    replace ((P * m1 + rem + 1) * G0 * Y)
      with ((P * m1 + rem + 1) * (G0 * Y)) by ring.
    apply Z.mul_le_mono_nonneg_r; [| lia].
    apply Z.mul_nonneg_nonneg; lia. }
  assert (HVY : R * (G0 * P) * Y = R * W) by (subst W; ring).
  assert (HRW : m1 * W <= R * W <= (m1 + 1) * W).
  { split; apply Z.mul_le_mono_nonneg_r; lia. }
  assert (Hgrid : -1074 < E -> 2 ^ 52 * W <= m1 * W).
  { intros Hnormal. apply Z.mul_le_mono_nonneg_r; [lia |].
    now apply Hm1lo. }
  assert (Hsame : l = loc_Exact -> rem = 0 -> R * W = X).
  { intros Hl Hr. rewrite (HRexact Hl Hr), (Hexact Hl), Hdm, Hr.
    subst W. ring. }
  assert (Hleast : E = -1074 -> P = 1 /\ rem = 0 /\ W = G0 * Y /\ G0 = 1).
  { intros HEmin. assert (n = 0) by lia. assert (e = -1074) by lia.
    assert (HP1 : P = 1) by (subst P; replace n with 0 by lia; reflexivity).
    assert (HG1 : G0 = 1)
      by (subst G0; replace (e + 1074) with 0 by lia; reflexivity).
    split; [exact HP1 |]. split; [lia |]. split; [| exact HG1].
    subst W. rewrite HP1. ring. }
  exists (R * (G0 * P)).
  split; [apply Z.mul_nonneg_nonneg; lia |].
  split.
  { destruct Hres as [[Hover Hinf]|[Hfit [Hfin Hulps]]];
      [left | right]; auto. }
  split; [| split; [| split]].
  - (* below *)
    intros U HU HUX.
    assert (HUlt : U < (m1 + 1) * 2 ^ (E + 1074)).
    { rewrite HGE.
      apply (Z.mul_lt_mono_pos_r Y); [exact HY |].
      replace ((m1 + 1) * (G0 * P) * Y) with ((m1 + 1) * W)
        by (subst W; ring).
      lia. }
    pose proof (grid_below U m1 E HU HE Hm1 Hm1lo HUlt) as Hle.
    rewrite HGE in Hle.
    apply Z.le_trans with (m1 * (G0 * P)); [exact Hle |].
    apply Z.mul_le_mono_nonneg_r; lia.
  - (* above *)
    intros U HU HXU.
    destruct (Z.eq_dec (R * W) X) as [Heq|Hne].
    + apply (Z.mul_le_mono_pos_r _ _ Y); [exact HY |].
      rewrite HVY. lia.
    + assert (Hstrict : m1 * W < X).
      { destruct (Z.eq_dec (m1 * W) X) as [Hx|]; [| lia].
        exfalso. apply Hne.
        assert (Hrem0 : rem = 0).
        { assert (Hmx : m * G0 * Y <= m1 * W) by lia.
          subst W. rewrite Hdm in Hmx.
          replace ((P * m1 + rem) * G0 * Y)
            with (m1 * (G0 * P * Y) + rem * (G0 * Y)) in Hmx by ring.
          assert (0 < G0 * Y) by (apply Z.mul_pos_pos; lia).
          destruct (Z.eq_dec rem 0); [assumption |].
          assert (0 < rem * (G0 * Y)) by (apply Z.mul_pos_pos; lia).
          lia. }
        destruct l as [|c].
        - now apply Hsame.
        - assert (m * G0 * Y < X) by (apply Hinexact; discriminate).
          rewrite Hdm, Hrem0 in H. subst W.
          replace ((P * m1 + 0) * G0 * Y) with (m1 * (G0 * P * Y)) in H
            by ring.
          lia. }
      assert (HUgt : m1 * 2 ^ (E + 1074) < U).
      { rewrite HGE.
        apply (Z.mul_lt_mono_pos_r Y); [exact HY |].
        replace (m1 * (G0 * P) * Y) with (m1 * W) by (subst W; ring).
        lia. }
      pose proof (grid_above U m1 E HU HE Hm1 Hm1lo HUgt) as Hge.
      rewrite HGE in Hge.
      apply Z.le_trans with ((m1 + 1) * (G0 * P)); [| exact Hge].
      apply Z.mul_le_mono_nonneg_r; lia.
  - rewrite HVY.
    destruct (Z.eq_dec E (-1074)) as [HEmin|HEnot].
    + destruct (Hleast HEmin) as [_ [_ [HWY HG1]]].
      rewrite HG1, Z.mul_1_l in HWY. lia.
    + specialize (Hgrid ltac:(lia)). lia.
  - intros Hl. rewrite HVY.
    destruct (Z.eq_dec E (-1074)) as [HEmin|HEnot].
    + destruct (Hleast HEmin) as [_ [Hrem0 _]].
      rewrite (Hsame Hl Hrem0). lia.
    + specialize (Hgrid ltac:(lia)). lia.
Qed.

Lemma digits2_pos_shifted mx k :
  Zpos (digits2_pos (Pos.iter xO mx k)) = Zpos (digits2_pos mx) + Zpos k.
Proof.
  apply digits2_pos_unique. rewrite Pos_iter_xO.
  pose proof (digits2_pos_bounds mx) as [Hlow Hhigh].
  assert (Hk : 0 < 2 ^ Zpos k) by (apply Z.pow_pos_nonneg; lia).
  split.
  - replace (Zpos (digits2_pos mx) + Zpos k - 1)
      with (Zpos (digits2_pos mx) - 1 + Zpos k) by lia.
    rewrite Z.pow_add_r by lia.
    apply Z.mul_le_mono_nonneg_r; lia.
  - rewrite Z.pow_add_r by lia.
    apply Z.mul_lt_mono_pos_r; lia.
Qed.

(** Aligning a mantissa to a lower exponent keeps the number and adds the
    difference to the number of bits. *)
Lemma shl_align_spec mx ex ex' :
  snd (shl_align mx ex ex') = Z.min ex ex'
  /\ Zpos (fst (shl_align mx ex ex'))
     = Zpos mx * 2 ^ (ex - Z.min ex ex')
  /\ Zpos (digits2_pos (fst (shl_align mx ex ex')))
     = Zpos (digits2_pos mx) + (ex - Z.min ex ex').
Proof.
  unfold shl_align. destruct (ex' - ex) as [|k|k] eqn:Hk; cbn [fst snd].
  - replace (Z.min ex ex') with ex by lia.
    rewrite Z.sub_diag. cbn. lia.
  - replace (Z.min ex ex') with ex by lia.
    rewrite Z.sub_diag. cbn. lia.
  - replace (Z.min ex ex') with ex' by lia.
    replace (ex - ex') with (Zpos k) by lia.
    change (PosDef.Pos.iter xO mx k) with (Pos.iter xO mx k).
    split; [reflexivity |].
    split; [apply Pos_iter_xO | apply digits2_pos_shifted].
Qed.

(** Rounding a multiple of a power of two. *)
Lemma binary_round_spec sx mx ex :
  -1074 <= ex ->
  exists V,
    0 <= V
    /\ ((binary_round prec emax sx mx ex = S754_infinity sx
         /\ 2 ^ 2098 <= V)
        \/ (sfFinite (binary_round prec emax sx mx ex) = true
            /\ sfUlps (binary_round prec emax sx mx ex)
               = if sx then - V else V))
    /\ (forall U, representable U ->
                  U <= Zpos mx * 2 ^ (ex + 1074) -> U <= V)
    /\ (forall U, representable U ->
                  Zpos mx * 2 ^ (ex + 1074) <= U -> V <= U)
    /\ 2 ^ 52 * Z.abs (V - Zpos mx * 2 ^ (ex + 1074))
       <= Zpos mx * 2 ^ (ex + 1074).
Proof.
  intros Hex. unfold binary_round.
  set (d := Zpos (digits2_pos mx)).
  destruct (shl_align_spec mx ex (fexp prec emax (d + ex)))
    as [Hez [Hmz Hdz]].
  destruct (shl_align mx ex (fexp prec emax (d + ex))) as [mz ez].
  cbn [fst snd] in Hez, Hmz, Hdz.
  assert (Hfexp : -1074 <= fexp prec emax (d + ex))
    by (unfold fexp, emin, prec, emax; lia).
  assert (Hezlow : -1074 <= ez) by lia.
  assert (Hvalue : Zpos mz * 2 ^ (ez + 1074) = Zpos mx * 2 ^ (ex + 1074)).
  { rewrite Hmz, <- Z.mul_assoc, <- Z.pow_add_r by lia.
    do 2 f_equal. lia. }
  assert (Hprec : ez <= fexp prec emax (Zdigits2 (Zpos mz) + ez)).
  { cbn [Zdigits2]. rewrite Hdz. fold d.
    replace (d + (ex - Z.min ex (fexp prec emax (d + ex))) + ez)
      with (d + ex) by lia.
    lia. }
  assert (Hstep : 0 < 2 ^ (ez + 1074)) by (apply Z.pow_pos_nonneg; lia).
  destruct (round_located sx (Zpos mz) ez loc_Exact
              (Zpos mz * 2 ^ (ez + 1074)) 1)
    as [V [HV [Hres [Hbelow [Habove [_ Herror]]]]]];
    [lia | exact Hezlow | exact Hprec | lia | lia | nia | intros _; ring
    | intros H; now contradiction H |].
  exists V. rewrite <- Hvalue.
  split; [exact HV |]. split; [exact Hres |].
  split; [| split].
  - intros U HU Hle. apply Hbelow; [exact HU | lia].
  - intros U HU Hle. apply Habove; [exact HU | lia].
  - specialize (Herror eq_refl). rewrite Z.mul_1_r in Herror. exact Herror.
Qed.

(** Normalizing the number [T * 2^e]: the result lies between any two
    representable numbers that the number lies between, and differs from
    the number by at most one part in [2^52]. *)
Lemma binary_normalize_spec T e szero :
  -1074 <= e ->
  (forall lo hi,
      representable (Z.abs lo) -> representable (Z.abs hi) ->
      lo <= T * 2 ^ (e + 1074) <= hi ->
      sfFinite (binary_normalize prec emax T e szero) = true
      /\ lo <= sfUlps (binary_normalize prec emax T e szero) <= hi)
  /\ (sfFinite (binary_normalize prec emax T e szero) = true ->
      2 ^ 52 * Z.abs (sfUlps (binary_normalize prec emax T e szero)
                      - T * 2 ^ (e + 1074))
      <= Z.abs (T * 2 ^ (e + 1074))).
Proof.
  intros He.
  assert (HG : 0 < 2 ^ (e + 1074)) by (apply Z.pow_pos_nonneg; lia).
  destruct T as [|p|p]; cbn [binary_normalize].
  - split; [intros lo hi _ _ Hb; cbn; lia | intros _; cbn; lia].
  - destruct (binary_round_spec false p e He)
      as [V [HV [Hres [Hbelow [Habove Herror]]]]].
    set (X := Zpos p * 2 ^ (e + 1074)) in *.
    assert (HX : 0 < X) by (subst X; apply Z.mul_pos_pos; lia).
    split.
    + intros lo hi Hlo Hhi [HloX HXhi].
      assert (HVhi : V <= hi).
      { apply Habove; [| exact HXhi].
        replace hi with (Z.abs hi) by lia. exact Hhi. }
      pose proof (representable_below_infinity _ Hhi) as Hfit.
      destruct Hres as [[_ Hover]|[Hfin Hulps]]; [lia |].
      split; [exact Hfin |]. rewrite Hulps. split; [| exact HVhi].
      destruct (Z.le_gt_cases lo 0) as [|Hpos]; [lia |].
      apply Hbelow; [| exact HloX].
      replace lo with (Z.abs lo) by lia. exact Hlo.
    + intros Hfin.
      destruct Hres as [[Hinf _]|[_ Hulps]];
        [rewrite Hinf in Hfin; discriminate |].
      rewrite Hulps. lia.
  - destruct (binary_round_spec true p e He)
      as [V [HV [Hres [Hbelow [Habove Herror]]]]].
    rewrite neg_mul.
    set (X := Zpos p * 2 ^ (e + 1074)) in *.
    assert (HX : 0 < X) by (subst X; apply Z.mul_pos_pos; lia).
    split.
    + intros lo hi Hlo Hhi [HloX HXhi].
      assert (HVlo : V <= - lo).
      { apply Habove; [| lia].
        replace (- lo) with (Z.abs lo) by lia. exact Hlo. }
      pose proof (representable_below_infinity _ Hlo) as Hfit.
      destruct Hres as [[_ Hover]|[Hfin Hulps]]; [lia |].
      split; [exact Hfin |]. rewrite Hulps. split; [lia |].
      destruct (Z.le_gt_cases 0 hi) as [|Hneg]; [lia |].
      assert (- hi <= V); [| lia].
      apply Hbelow; [| lia].
      replace (- hi) with (Z.abs hi) by lia. exact Hhi.
    + intros Hfin.
      destruct Hres as [[Hinf _]|[_ Hulps]];
        [rewrite Hinf in Hfin; discriminate |].
      rewrite Hulps. lia.
Qed.

Lemma sfUlps_finite s m e :
  sfUlps (S754_finite s m e)
  = cond_Zopp s (Zpos m) * 2 ^ (e + 1074).
Proof. now destruct s. Qed.

(** The sum of two doubles, by the specification of addition. *)
Lemma SFadd_spec a b :
  valid_binary a = true -> valid_binary b = true ->
  sfFinite a = true -> sfFinite b = true ->
  (forall lo hi,
      representable (Z.abs lo) -> representable (Z.abs hi) ->
      lo <= sfUlps a + sfUlps b <= hi ->
      sfFinite (SFadd prec emax a b) = true
      /\ lo <= sfUlps (SFadd prec emax a b) <= hi)
  /\ (sfFinite (SFadd prec emax a b) = true ->
      2 ^ 52 * Z.abs (sfUlps (SFadd prec emax a b) - (sfUlps a + sfUlps b))
      <= Z.abs (sfUlps a + sfUlps b)).
Proof.
  destruct a as [sa|sa| |sa ma ea], b as [sb|sb| |sb mb eb];
    try discriminate; unfold valid_binary, SpecFloat.valid_binary;
    intros Ha Hb _ _.
  - assert (Hz : sfFinite (SFadd prec emax (S754_zero sa) (S754_zero sb))
                 = true
                 /\ sfUlps (SFadd prec emax (S754_zero sa) (S754_zero sb))
                    = 0)
      by (destruct sa, sb; split; reflexivity).
    destruct Hz as [Hfin Hulps]. rewrite Hulps. cbn [sfUlps].
    split; [intros lo hi _ _ Hbounds; split; [exact Hfin | lia] |].
    intros _. cbn. lia.
  - cbn [SFadd]. cbn [sfUlps sfFinite]. rewrite Z.add_0_l.
    split; [intros lo hi _ _ Hbounds; split; [reflexivity | lia] |].
    intros _. rewrite Z.sub_diag. cbn. lia.
  - cbn [SFadd]. cbn [sfUlps sfFinite]. rewrite Z.add_0_r.
    split; [intros lo hi _ _ Hbounds; split; [reflexivity | lia] |].
    intros _. rewrite Z.sub_diag. cbn. lia.
  - destruct (bounded_mantissa _ _ Ha) as [Hea _].
    destruct (bounded_mantissa _ _ Hb) as [Heb _].
    cbn [SFadd]. cbv zeta.
    set (ez := Z.min ea eb).
    assert (Hez : ez <= ea /\ ez <= eb /\ -1074 <= ez) by (unfold ez; lia).
    clearbody ez.
    destruct (shl_align_spec ma ea ez) as [_ [Hma _]].
    destruct (shl_align_spec mb eb ez) as [_ [Hmb _]].
    replace (Z.min ea ez) with ez in Hma by lia.
    replace (Z.min eb ez) with ez in Hmb by lia.
    rewrite Hma, Hmb.
    assert (Hsum :
              (cond_Zopp sa (Zpos ma * 2 ^ (ea - ez))
               + cond_Zopp sb (Zpos mb * 2 ^ (eb - ez))) * 2 ^ (ez + 1074)
              = sfUlps (S754_finite sa ma ea)
                + sfUlps (S754_finite sb mb eb)).
    { rewrite !sfUlps_finite.
      replace (ea + 1074) with ((ea - ez) + (ez + 1074)) by lia.
      replace (eb + 1074) with ((eb - ez) + (ez + 1074)) by lia.
      rewrite (Z.pow_add_r 2 (ea - ez) (ez + 1074)) by lia.
      rewrite (Z.pow_add_r 2 (eb - ez) (ez + 1074)) by lia.
      destruct sa, sb; cbn [cond_Zopp]; ring. }
    rewrite <- Hsum.
    apply binary_normalize_spec. lia.
Qed.

Lemma new_location_exact nb k : new_location nb k = loc_Exact <-> k = 0.
Proof.
  unfold new_location, new_location_even, new_location_odd.
  destruct (Z.even nb), (Z.eqb_spec k 0); split; intros H;
    congruence || reflexivity || discriminate.
Qed.

Lemma Zdigits2_above q k : 0 <= k -> 2 ^ k <= q -> k + 1 <= Zdigits2 q.
Proof.
  intros Hk Hq.
  assert (Hpos : 0 < q)
    by (pose proof (Z.pow_pos_nonneg 2 k ltac:(lia) Hk); lia).
  destruct (Zdigits2_bounds q Hpos) as [_ Hhigh].
  destruct (Z.le_gt_cases (k + 1) (Zdigits2 q)) as [|Hlt]; [assumption |].
  assert (2 ^ Zdigits2 q <= 2 ^ k)
    by (apply Z.pow_le_mono_r; [lia | lia]).
  lia.
Qed.

(** The quotient of a double by a whole number [N], which stands as the
    double of mantissa [my] and exponent [ey], by the specification of
    division. *)
Lemma SFdiv_finite_spec sa ma ea my ey N :
  bounded prec emax ma ea = true -> bounded prec emax my ey = true ->
  ey <= 0 -> 0 < N -> Zpos my = N * 2 ^ (- ey) ->
  (forall lo hi,
      representable (Z.abs lo) -> representable (Z.abs hi) ->
      N * lo <= sfUlps (S754_finite sa ma ea) <= N * hi ->
      sfFinite (SFdiv prec emax (S754_finite sa ma ea)
                  (S754_finite false my ey)) = true
      /\ lo <= sfUlps (SFdiv prec emax (S754_finite sa ma ea)
                         (S754_finite false my ey)) <= hi)
  /\ (sfFinite (SFdiv prec emax (S754_finite sa ma ea)
                  (S754_finite false my ey)) = true ->
      2 ^ 52 * Z.abs (N * sfUlps (SFdiv prec emax (S754_finite sa ma ea)
                                    (S754_finite false my ey))
                      - sfUlps (S754_finite sa ma ea))
      <= Z.abs (sfUlps (S754_finite sa ma ea)) + 2 ^ 52 * N).
Proof.
  intros Ha Hn Hey HN Hmy.
  destruct (bounded_mantissa _ _ Ha) as [Hea _].
  cbn [SFdiv]. rewrite xorb_false_r.
  unfold SFdiv_core_binary. cbn [Zdigits2].
  set (d1 := Zpos (digits2_pos ma)).
  set (d2 := Zpos (digits2_pos my)).
  set (F := fexp prec emax (d1 + ea - (d2 + ey))).
  assert (HF : F = Z.max (d1 + ea - (d2 + ey) - 53) (-1074))
    by (subst F; unfold fexp, emin, prec, emax; lia).
  set (e' := Z.min F (ea - ey)).
  set (s := ea - ey - e').
  assert (Hs : 0 <= s) by (subst s e'; lia).
  assert (He' : -1074 <= e') by (subst e'; lia).
  set (m' := match s with
             | 0 => Zpos ma
             | Zpos _ => Z.shiftl (Zpos ma) s
             | Zneg _ => 0
             end).
  assert (Hm' : m' = Zpos ma * 2 ^ s).
  { subst m'. destruct s as [|k|k] eqn:Hk; [cbn; lia | | lia].
    apply Z.shiftl_mul_pow2. lia. }
  clearbody m'.
  pose proof (Z_div_mod m' (Zpos my) ltac:(lia)) as Hdiv.
  destruct (Z.div_eucl m' (Zpos my)) as [q r].
  destruct Hdiv as [Hqr Hr].
  pose proof (digits2_pos_bounds ma) as [Hd1low Hd1high].
  fold d1 in Hd1low, Hd1high.
  pose proof (digits2_pos_bounds my) as [Hd2low Hd2high].
  fold d2 in Hd2low, Hd2high.
  assert (Hps : 0 < 2 ^ s) by (apply Z.pow_pos_nonneg; lia).
  assert (Hm'pos : 0 < m') by (rewrite Hm'; apply Z.mul_pos_pos; lia).
  assert (Hq : 0 <= q).
  { destruct (Z.le_gt_cases 0 q) as [|Hneg]; [assumption |].
    assert (Zpos my * q <= Zpos my * (-1))
      by (apply Z.mul_le_mono_nonneg_l; lia).
    lia. }
  assert (Hprec : e' <= fexp prec emax (Zdigits2 q + e')).
  { destruct (Z.eq_dec q 0) as [->|Hq0].
    - cbn [Zdigits2]. unfold fexp, emin, prec, emax.
      assert (Hsmall : d1 + s <= d2).
      { rewrite Z.mul_0_r, Z.add_0_l in Hqr.
        assert (2 ^ (d1 - 1) * 2 ^ s <= m')
          by (rewrite Hm'; apply Z.mul_le_mono_nonneg_r; lia).
        rewrite <- Z.pow_add_r in H by lia.
        destruct (Z.le_gt_cases (d1 + s) d2) as [|Hbig]; [assumption |].
        assert (2 ^ d2 <= 2 ^ (d1 - 1 + s))
          by (apply Z.pow_le_mono_r; lia).
        lia. }
      subst s e'. lia.
    - assert (Hdq : d1 + s - d2 <= Zdigits2 q).
      { destruct (Z.le_gt_cases (d1 + s - d2) 1) as [Hle|Hgt].
        - destruct (Zdigits2_bounds q ltac:(lia)) as [Hlow _].
          destruct (Z.le_gt_cases 1 (Zdigits2 q)); [lia |].
          pose proof (Zdigits2_nonneg q).
          assert (Zdigits2 q = 0) by lia.
          destruct q; simpl in *; lia.
        - replace (d1 + s - d2) with ((d1 + s - d2 - 1) + 1) by lia.
          apply Zdigits2_above; [lia |].
          assert (Hlow : 2 ^ (d1 - 1) * 2 ^ s <= m')
            by (rewrite Hm'; apply Z.mul_le_mono_nonneg_r; lia).
          rewrite <- Z.pow_add_r in Hlow by lia.
          replace (d1 - 1 + s) with ((d1 + s - d2 - 1) + d2) in Hlow
            by lia.
          rewrite Z.pow_add_r in Hlow by lia.
          set (K := 2 ^ (d1 + s - d2 - 1)) in *.
          assert (HK : 0 < K) by (apply Z.pow_pos_nonneg; lia).
          destruct (Z.le_gt_cases K q) as [|Hlt]; [assumption |].
          assert (Zpos my * (q + 1) <= Zpos my * K)
            by (apply Z.mul_le_mono_nonneg_l; lia).
          assert (Zpos my * K < 2 ^ d2 * K)
            by (apply Z.mul_lt_mono_pos_r; lia).
          lia. }
      unfold fexp, emin, prec, emax. subst s e'. lia. }
  set (G' := 2 ^ (e' + 1074)).
  assert (HG' : 0 < G') by (apply Z.pow_pos_nonneg; lia).
  set (c := 2 ^ (- ey)) in *.
  assert (Hc : 0 < c) by (apply Z.pow_pos_nonneg; lia).
  set (A := Zpos ma * 2 ^ (ea + 1074)).
  assert (HA : 0 < A)
    by (apply Z.mul_pos_pos; [lia | apply Z.pow_pos_nonneg; lia]).
  assert (HX : m' * G' = A * c).
  { subst G' A c. rewrite Hm', <- !Z.mul_assoc, <- !Z.pow_add_r by lia.
    do 2 f_equal. subst s. lia. }
  destruct (round_located sa q e' (new_location (Zpos my) r) (A * c)
              (Zpos my))
    as [V [HV [Hres [Hbelow [Habove [Herror _]]]]]];
    [exact Hq | exact He' | exact Hprec | lia | | | | |].
  { fold G'. rewrite <- HX, Hqr.
    replace (q * G' * Zpos my) with (Zpos my * q * G') by ring.
    apply Z.mul_le_mono_nonneg_r; lia. }
  { fold G'. rewrite <- HX, Hqr.
    replace ((q + 1) * G' * Zpos my) with ((Zpos my * q + Zpos my) * G')
      by ring.
    apply Z.mul_lt_mono_pos_r; lia. }
  { intros Hl. apply new_location_exact in Hl. fold G'.
    rewrite <- HX, Hqr, Hl. ring. }
  { intros Hl. fold G'. rewrite <- HX, Hqr.
    replace (q * G' * Zpos my) with (Zpos my * q * G') by ring.
    apply Z.mul_lt_mono_pos_r; [exact HG' |].
    assert (r <> 0) by (intros H0; apply Hl; now apply new_location_exact).
    lia. }
  assert (Hulps : sfUlps (S754_finite sa ma ea) = if sa then - A else A).
  { cbn [sfUlps]. fold A. destruct sa; [apply neg_mul | reflexivity]. }
  rewrite Hulps.
  assert (Hup : forall U, representable U -> A <= N * U -> V <= U).
  { intros U HU HAU. apply Habove; [exact HU |].
    rewrite Hmy. fold c.
    replace (U * (N * c)) with (N * U * c) by ring.
    apply Z.mul_le_mono_nonneg_r; lia. }
  assert (Hdown : forall U, representable U -> N * U <= A -> U <= V).
  { intros U HU HUA. apply Hbelow; [exact HU |].
    rewrite Hmy. fold c.
    replace (U * (N * c)) with (N * U * c) by ring.
    apply Z.mul_le_mono_nonneg_r; lia. }
  assert (Herr : 2 ^ 52 * Z.abs (N * V - A) <= A + 2 ^ 52 * N).
  { rewrite Hmy in Herror. fold c in Herror.
    replace (V * (N * c) - A * c) with ((N * V - A) * c) in Herror by ring.
    rewrite Z.abs_mul, (Z.abs_eq c) in Herror by lia.
    replace (A * c + 2 ^ 52 * (N * c)) with ((A + 2 ^ 52 * N) * c)
      in Herror by ring.
    rewrite Z.mul_assoc in Herror.
    apply Z.mul_le_mono_pos_r in Herror; assumption. }
  clear Herror Hbelow Habove HX Hprec Hqr Hr Hm' Hm'pos Hd1low Hd1high
    Hd2low Hd2high Hmy Hulps.
  split.
  - intros lo hi Hlo Hhi [HloA HAhi].
    destruct sa.
    + assert (Hneg : lo < 0).
      { destruct (Z.le_gt_cases 0 lo) as [Hnn|]; [| assumption].
        pose proof (Z.mul_nonneg_nonneg N lo ltac:(lia) Hnn). lia. }
      assert (HVlo : V <= - lo).
      { apply Hup; [| lia].
        replace (- lo) with (Z.abs lo) by lia. exact Hlo. }
      pose proof (representable_below_infinity _ Hlo) as Hfit.
      destruct Hres as [[_ Hover]|[Hfin HulpsV]]; [lia |].
      split; [exact Hfin |]. rewrite HulpsV. split; [lia |].
      destruct (Z.le_gt_cases 0 hi) as [|Hhineg]; [lia |].
      assert (- hi <= V); [| lia].
      apply Hdown; [| lia].
      replace (- hi) with (Z.abs hi) by lia. exact Hhi.
    + assert (Hpos : 0 < hi).
      { destruct (Z.le_gt_cases hi 0) as [Hnp|]; [| assumption].
        pose proof (Z.mul_nonneg_nonpos N hi ltac:(lia) Hnp). lia. }
      assert (HVhi : V <= hi).
      { apply Hup; [| lia].
        replace hi with (Z.abs hi) by lia. exact Hhi. }
      pose proof (representable_below_infinity _ Hhi) as Hfit.
      destruct Hres as [[_ Hover]|[Hfin HulpsV]]; [lia |].
      split; [exact Hfin |]. rewrite HulpsV. split; [| lia].
      destruct (Z.le_gt_cases lo 0) as [|Hlopos]; [lia |].
      apply Hdown; [| lia].
      replace lo with (Z.abs lo) by lia. exact Hlo.
  - intros Hfin.
    destruct Hres as [[Hinf _]|[_ HulpsV]];
      [rewrite Hinf in Hfin; discriminate |].
    rewrite HulpsV. destruct sa.
    + replace (N * - V - - A) with (- (N * V - A)) by ring.
      rewrite !Z.abs_opp, (Z.abs_eq A) by lia. exact Herr.
    + rewrite (Z.abs_eq A) by lia. exact Herr.
Qed.

End Rounding.

(** ** Sums and quotients of doubles *)

Section DoubleArithmetic.

Local Open Scope Z_scope.

Lemma sfFinite_isFinite x : sfFinite (Prim2SF x) = true -> isFinite x = true.
Proof.
  intros Hfin.
  unfold isFinite, PrimFloat.is_finite, PrimFloat.is_nan,
    PrimFloat.is_infinity.
  rewrite !FloatAxioms.eqb_spec, abs_spec. unfold SFeqb.
  rewrite (SFcompare_ulps _ _ (Prim2SF_valid x) (Prim2SF_valid x) Hfin Hfin).
  rewrite Z.compare_refl.
  change (Prim2SF infinity) with (S754_infinity false).
  destruct (Prim2SF x) as [s|s| |s m e]; try discriminate; reflexivity.
Qed.

Lemma representable_ulps x : finite x -> representable (Z.abs (ulps x)).
Proof.
  intros _. rewrite ulps_sfUlps.
  pose proof (Prim2SF_valid x) as Hvalid.
  destruct (Prim2SF x) as [s|s| |s m e]; cbn [sfUlps];
    try (exists 0, 0; cbn; lia).
  unfold valid_binary, SpecFloat.valid_binary in Hvalid.
  destruct (bounded_mantissa _ _ Hvalid) as [He [Hm _]].
  unfold bounded in Hvalid. apply andb_prop in Hvalid as [_ Hmax].
  apply Z.leb_le in Hmax. unfold emax, prec in Hmax.
  assert (HG : 0 < 2 ^ (e + 1074)) by (apply Z.pow_pos_nonneg; lia).
  exists (Zpos m), (e + 1074).
  split; [lia |]. split; [lia |].
  destruct s; [rewrite neg_mul, Z.abs_opp |]; apply Z.abs_eq;
    apply Z.mul_nonneg_nonneg; lia.
Qed.

(** The sum of two finite doubles lies between any two representable
    numbers that the exact sum lies between. *)
Lemma add_between x y lo hi :
  finite x -> finite y ->
  representable (Z.abs lo) -> representable (Z.abs hi) ->
  lo <= ulps x + ulps y <= hi ->
  finite (PrimFloat.add x y) /\ lo <= ulps (PrimFloat.add x y) <= hi.
Proof.
  intros Hx Hy Hlo Hhi Hbounds.
  destruct (SFadd_spec (Prim2SF x) (Prim2SF y) (Prim2SF_valid x)
              (Prim2SF_valid y) (isFinite_sfFinite x Hx)
              (isFinite_sfFinite y Hy)) as [Hbetween _].
  rewrite <- !ulps_sfUlps in Hbetween.
  destruct (Hbetween lo hi Hlo Hhi Hbounds) as [Hfin Hres].
  change (SFadd prec emax) with SF64add in Hfin, Hres.
  rewrite <- FloatAxioms.add_spec in Hfin, Hres.
  split; [now apply sfFinite_isFinite | now rewrite ulps_sfUlps].
Qed.

(** It differs from the exact sum by at most one part in [2^52]. *)
Lemma add_error x y :
  finite x -> finite y -> Z.abs (ulps x + ulps y) <= 2 ^ 2097 ->
  finite (PrimFloat.add x y)
  /\ 2 ^ 52 * Z.abs (ulps (PrimFloat.add x y) - (ulps x + ulps y))
     <= Z.abs (ulps x + ulps y).
Proof.
  intros Hx Hy Hsmall.
  assert (Hrep : representable (2 ^ 2097))
    by (exists (2 ^ 52), 2045; repeat split; discriminate).
  destruct (add_between x y (- 2 ^ 2097) (2 ^ 2097) Hx Hy) as [Hfin _];
    [exact Hrep | exact Hrep | lia |].
  split; [exact Hfin |].
  destruct (SFadd_spec (Prim2SF x) (Prim2SF y) (Prim2SF_valid x)
              (Prim2SF_valid y) (isFinite_sfFinite x Hx)
              (isFinite_sfFinite y Hy)) as [_ Herror].
  change (SFadd prec emax) with SF64add in Herror.
  rewrite <- FloatAxioms.add_spec, <- !ulps_sfUlps in Herror.
  apply Herror. now apply isFinite_sfFinite.
Qed.

(** The length of an array, from 1 to below [2^53], as a double: its
    sign, mantissa and exponent. *)
Lemma Number_of_length_spec n :
  (0 < n)%nat -> Z.of_nat n < 2 ^ 53 ->
  exists my ey,
    Prim2SF (Number_of_length n) = S754_finite false my ey
    /\ bounded prec emax my ey = true
    /\ ey <= 0
    /\ Zpos my = Z.of_nat n * 2 ^ (- ey).
Proof.
  intros Hpos Hmax.
  set (N := Z.of_nat n) in *.
  pose proof (Prim2SF_valid (Number_of_length n)) as Hvalid.
  unfold Number_of_length in *. fold N in Hvalid |- *.
  rewrite of_uint63_spec, Uint63.of_Z_spec in *.
  rewrite Z.mod_small in *
    by (change wB with (2 ^ 63);
        assert (2 ^ 53 < 2 ^ 63) by reflexivity; lia).
  destruct (binary_normalize_spec N 0 false ltac:(lia)) as [Hbetween _].
  destruct (Hbetween (N * 2 ^ 1074) (N * 2 ^ 1074)) as [Hfin Hulps].
  { exists N, 1074. rewrite Z.abs_eq by (apply Z.mul_nonneg_nonneg; lia).
    repeat split; lia. }
  { exists N, 1074. rewrite Z.abs_eq by (apply Z.mul_nonneg_nonneg; lia).
    repeat split; lia. }
  { change (0 + 1074) with 1074. lia. }
  assert (Hvalue : sfUlps (binary_normalize prec emax N 0 false)
                   = N * 2 ^ 1074) by lia.
  clear Hulps Hbetween.
  assert (HNpos : 0 < N * 2 ^ 1074) by (apply Z.mul_pos_pos; lia).
  destruct (binary_normalize prec emax N 0 false) as [s|s| |s my ey];
    try discriminate; cbn [sfUlps] in Hvalue; [lia |].
  unfold valid_binary, SpecFloat.valid_binary in Hvalid.
  destruct (bounded_mantissa _ _ Hvalid) as [Hey [Hmy Hnormal]].
  assert (HG : 0 < 2 ^ (ey + 1074)) by (apply Z.pow_pos_nonneg; lia).
  destruct s.
  { rewrite neg_mul in Hvalue.
    assert (0 < Zpos my * 2 ^ (ey + 1074)) by (apply Z.mul_pos_pos; lia).
    lia. }
  assert (Hey0 : ey <= 0).
  { destruct (Z.le_gt_cases ey 0) as [|Hbig]; [assumption |].
    specialize (Hnormal ltac:(lia)).
    assert (2 ^ 1075 <= 2 ^ (ey + 1074)) by (apply Z.pow_le_mono_r; lia).
    assert (2 ^ 52 * 2 ^ 1075 <= Zpos my * 2 ^ (ey + 1074)).
    { apply Z.le_trans with (2 ^ 52 * 2 ^ (ey + 1074)).
      - apply Z.mul_le_mono_nonneg_l; [discriminate | assumption].
      - apply Z.mul_le_mono_nonneg_r; lia. }
    assert (N * 2 ^ 1074 < 2 ^ 53 * 2 ^ 1074)
      by (apply Z.mul_lt_mono_pos_r; [reflexivity | assumption]).
    change (2 ^ 52 * 2 ^ 1075) with (2 ^ 53 * 2 ^ 1074) in *. lia. }
  exists my, ey. split; [reflexivity |]. split; [exact Hvalid |].
  split; [exact Hey0 |].
  replace 1074 with (- ey + (ey + 1074)) in Hvalue at 2 by lia.
  rewrite (Z.pow_add_r 2 (- ey) (ey + 1074)), Z.mul_assoc in Hvalue by lia.
  apply Z.mul_cancel_r in Hvalue; lia.
Qed.

(** A finite double divided by the length of an array. *)
Lemma div_by_length_between x n lo hi :
  finite x -> (0 < n)%nat -> Z.of_nat n < 2 ^ 53 ->
  representable (Z.abs lo) -> representable (Z.abs hi) ->
  Z.of_nat n * lo <= ulps x <= Z.of_nat n * hi ->
  finite (PrimFloat.div x (Number_of_length n))
  /\ lo <= ulps (PrimFloat.div x (Number_of_length n)) <= hi.
Proof.
  intros Hx Hpos Hmax Hlo Hhi Hbounds.
  destruct (Number_of_length_spec n Hpos Hmax)
    as [my [ey [Hcount [Hvalid [Hey Hmy]]]]].
  rewrite !ulps_sfUlps in *. rewrite FloatAxioms.div_spec, Hcount.
  pose proof (Prim2SF_valid x) as Hxvalid.
  apply isFinite_sfFinite in Hx.
  assert (Hgoal : sfFinite (SF64div (Prim2SF x) (S754_finite false my ey))
                  = true
                  /\ lo <= sfUlps (SF64div (Prim2SF x)
                                     (S754_finite false my ey)) <= hi).
  { destruct (Prim2SF x) as [s|s| |s mx ex]; try discriminate.
    - cbn [sfUlps] in Hbounds. cbn. split; [reflexivity | nia].
    - unfold valid_binary, SpecFloat.valid_binary in Hxvalid.
      destruct (SFdiv_finite_spec s mx ex my ey (Z.of_nat n) Hxvalid Hvalid
                  Hey ltac:(lia) Hmy) as [Hbetween _].
      now apply Hbetween. }
  destruct Hgoal as [Hfin Hres].
  split; [| exact Hres].
  apply sfFinite_isFinite. now rewrite FloatAxioms.div_spec, Hcount.
Qed.

Lemma div_by_length_error x n :
  finite x -> (0 < n)%nat -> Z.of_nat n < 2 ^ 53 ->
  finite (PrimFloat.div x (Number_of_length n))
  /\ 2 ^ 52 * Z.abs (Z.of_nat n * ulps (PrimFloat.div x (Number_of_length n))
                     - ulps x)
     <= Z.abs (ulps x) + 2 ^ 52 * Z.of_nat n.
Proof.
  intros Hx Hpos Hmax.
  pose proof (representable_ulps x Hx) as Hrep.
  destruct (div_by_length_between x n (- Z.abs (ulps x)) (Z.abs (ulps x))
              Hx Hpos Hmax) as [Hfin _];
    [replace (Z.abs (- Z.abs (ulps x))) with (Z.abs (ulps x)) by lia;
     exact Hrep
    | replace (Z.abs (Z.abs (ulps x))) with (Z.abs (ulps x)) by lia;
      exact Hrep
    | nia |].
  split; [exact Hfin |].
  destruct (Number_of_length_spec n Hpos Hmax)
    as [my [ey [Hcount [Hvalid [Hey Hmy]]]]].
  pose proof (isFinite_sfFinite _ Hfin) as Hfin'.
  rewrite !ulps_sfUlps. rewrite FloatAxioms.div_spec, Hcount in Hfin' |- *.
  pose proof (Prim2SF_valid x) as Hxvalid.
  apply isFinite_sfFinite in Hx.
  destruct (Prim2SF x) as [s|s| |s mx ex]; try discriminate.
  - change (sfUlps (SF64div (S754_zero s) (S754_finite false my ey)))
      with 0.
    cbn [sfUlps]. lia.
  - unfold valid_binary, SpecFloat.valid_binary in Hxvalid.
    destruct (SFdiv_finite_spec s mx ex my ey (Z.of_nat n) Hxvalid Hvalid
                Hey ltac:(lia) Hmy) as [_ Herror].
    now apply Herror.
Qed.

Lemma sumOf_fold f historicalData :
  sumOf f historicalData
  = fold_left PrimFloat.add (map f historicalData) PrimFloat.zero.
Proof.
  unfold sumOf. generalize PrimFloat.zero.
  induction historicalData as [|d rest IH]; intros acc; [reflexivity |].
  cbn [fold_left map]. apply IH.
Qed.

Lemma sumUlps_snoc p v : sumUlps (p ++ [v]) = sumUlps p + ulps v.
Proof.
  unfold sumUlps. induction p as [|x p IH]; simpl; [| rewrite IH]; lia.
Qed.

Lemma sumAbsUlps_snoc p v :
  sumAbsUlps (p ++ [v]) = sumAbsUlps p + Z.abs (ulps v).
Proof.
  unfold sumAbsUlps.
  induction p as [|x p IH]; simpl; [| rewrite IH]; lia.
Qed.

Lemma sumUlps_within values :
  Z.abs (sumUlps values) <= sumAbsUlps values.
Proof.
  unfold sumUlps, sumAbsUlps.
  induction values as [|v rest IH]; cbn [map fold_right]; lia.
Qed.

Lemma representable_multiple k T :
  0 <= k <= 2045 -> (2 ^ k | T) -> Z.abs T < 2 ^ 53 * 2 ^ k ->
  representable (Z.abs T).
Proof.
  intros Hk [c ->] Hsmall.
  assert (Hp : 0 < 2 ^ k) by (apply Z.pow_pos_nonneg; lia).
  rewrite Z.abs_mul, (Z.abs_eq (2 ^ k)) in * by lia.
  exists (Z.abs c), k. split; [| split; [exact Hk | reflexivity]].
  split; [lia |]. apply Z.mul_lt_mono_pos_r in Hsmall; assumption.
Qed.

(** Adding up doubles that are whole multiples of one power of two, of
    magnitudes that sum to less than [2^53] of them, rounds nowhere. *)
Lemma fold_add_exact k :
  0 <= k <= 2045 ->
  forall values acc,
    finite acc -> (2 ^ k | ulps acc) ->
    Forall finite values -> Forall (multipleOfPower k) values ->
    Z.abs (ulps acc) + sumAbsUlps values < 2 ^ 53 * 2 ^ k ->
    finite (fold_left PrimFloat.add values acc)
    /\ ulps (fold_left PrimFloat.add values acc) = ulps acc + sumUlps values.
Proof.
  intros Hk values.
  induction values as [|v rest IH]; intros acc Hacc Hdiv Hfin Hmult Hsmall.
  - cbn. split; [exact Hacc | ]. unfold sumUlps. cbn. lia.
  - inversion Hfin as [|? ? Hv Hrest]; subst.
    inversion Hmult as [|? ? Hvk Hrestk]; subst.
    unfold sumAbsUlps in Hsmall. cbn [map fold_right] in Hsmall.
    fold (sumAbsUlps rest) in Hsmall.
    pose proof (sumUlps_within rest) as Hwithin.
    assert (Hnn : 0 <= sumAbsUlps rest) by lia.
    assert (Hrep : representable (Z.abs (ulps acc + ulps v))).
    { apply (representable_multiple k); [exact Hk | | lia].
      now apply Z.divide_add_r. }
    destruct (add_between acc v (ulps acc + ulps v) (ulps acc + ulps v)
                Hacc Hv Hrep Hrep ltac:(lia)) as [Hsum Hvalue].
    assert (Heq : ulps (PrimFloat.add acc v) = ulps acc + ulps v) by lia.
    cbn [fold_left].
    destruct (IH (PrimFloat.add acc v) Hsum) as [Hfinal Hulps];
      [rewrite Heq; now apply Z.divide_add_r | exact Hrest | exact Hrestk
      | rewrite Heq; lia |].
    split; [exact Hfinal |]. rewrite Hulps, Heq.
    unfold sumUlps. cbn [map fold_right]. lia.
Qed.

(** Adding up finite doubles whose magnitudes sum to at most [B]: every
    addition rounds by at most one part in [2^52] of a sum that is at most
    [2 * B]. *)
Lemma fold_add_error B values :
  Forall finite values -> sumAbsUlps values <= B ->
  Z.of_nat (List.length values) <= 2 ^ 51 -> B <= 2 ^ 2096 ->
  finite (fold_left PrimFloat.add values PrimFloat.zero)
  /\ 2 ^ 51 * Z.abs (ulps (fold_left PrimFloat.add values PrimFloat.zero)
                     - sumUlps values)
     <= Z.of_nat (List.length values) * B.
Proof.
  induction values as [|v p IH] using rev_ind;
    intros Hfin Hsum Hlength HB.
  - cbn. split; [reflexivity |]. unfold sumUlps. cbn. lia.
  - apply Forall_app in Hfin as [Hp Hv].
    inversion Hv as [|? ? Hv' _]; subst.
    rewrite sumAbsUlps_snoc in Hsum.
    rewrite length_app, Nat2Z.inj_add in Hlength |- *.
    cbn [List.length] in Hlength |- *.
    pose proof (sumUlps_within p) as Hwithin.
    assert (Hnn : 0 <= sumAbsUlps p) by lia.
    destruct (IH Hp ltac:(lia) ltac:(lia) HB) as [Hacc Herr].
    rewrite fold_left_app. cbn [fold_left].
    set (acc := fold_left PrimFloat.add p PrimFloat.zero) in *.
    set (n := Z.of_nat (List.length p)) in *.
    assert (HnB : n * B <= 2 ^ 51 * B)
      by (apply Z.mul_le_mono_nonneg_r; lia).
    assert (Hsmall : Z.abs (ulps acc + ulps v) <= 2 ^ 2097).
    { change (2 ^ 2097) with (2 * 2 ^ 2096). lia. }
    destruct (add_error acc v Hacc Hv' Hsmall) as [Hfinal Hround].
    split; [exact Hfinal |].
    rewrite sumUlps_snoc.
    change (ulps (PrimFloat.add (fold_left PrimFloat.add p PrimFloat.zero) v))
      with (ulps (PrimFloat.add acc v)).
    change (Z.of_nat 1) with 1.
    replace ((n + 1) * B) with (n * B + B) by ring.
    clear Hsmall HB IH Hlength.
    set (nB := n * B) in *. clearbody nB.
    set (a := ulps acc) in *. set (r := ulps (PrimFloat.add acc v)) in *.
    set (u := ulps v) in *. set (t := sumUlps p) in *.
    set (A := sumAbsUlps p) in *.
    clearbody a r u t A.
    assert (H1 : Z.abs (a - t) <= B) by lia.
    assert (H2 : Z.abs (a + u) <= 2 * B) by lia.
    assert (H3 : 2 ^ 51 * Z.abs (r - (a + u)) <= B) by lia.
    lia.
Qed.

End DoubleArithmetic.


(** ** The computed average *)

Section ComputedAverage.

Lemma allowance_above (a b c d K : Z) :
  (0 < d)%Z -> (0 < K)%Z -> (d * a <= d * b + c)%Z ->
  (inject_Z a / inject_Z K
   <= inject_Z b / inject_Z K + inject_Z c / inject_Z d / inject_Z K)%Q.
Proof.
  intros Hd HK Hle.
  assert (Hd' : ~ (inject_Z d == 0)%Q).
  { change 0%Q with (inject_Z 0). rewrite inject_Z_injective. lia. }
  assert (HK' : ~ (inject_Z K == 0)%Q).
  { change 0%Q with (inject_Z 0). rewrite inject_Z_injective. lia. }
  assert (Hpos : (0 <= / (inject_Z d * inject_Z K))%Q).
  { apply Qlt_le_weak, Qinv_lt_0_compat.
    rewrite <- inject_Z_mult. change 0%Q with (inject_Z 0).
    rewrite <- Zlt_Qlt. now apply Z.mul_pos_pos. }
  setoid_replace (inject_Z a / inject_Z K)%Q
    with (inject_Z (d * a) * / (inject_Z d * inject_Z K))%Q
    by (rewrite inject_Z_mult; field; split; assumption).
  setoid_replace
    (inject_Z b / inject_Z K + inject_Z c / inject_Z d / inject_Z K)%Q
    with (inject_Z (d * b + c) * / (inject_Z d * inject_Z K))%Q
    by (rewrite inject_Z_plus, inject_Z_mult; field; split; assumption).
  apply Qmult_le_compat_r; [| exact Hpos].
  now rewrite <- Zle_Qle.
Qed.

Lemma allowance_below (a b c d K : Z) :
  (0 < d)%Z -> (0 < K)%Z -> (d * b - c <= d * a)%Z ->
  (inject_Z b / inject_Z K - inject_Z c / inject_Z d / inject_Z K
   <= inject_Z a / inject_Z K)%Q.
Proof.
  intros Hd HK Hle.
  assert (Hd' : ~ (inject_Z d == 0)%Q).
  { change 0%Q with (inject_Z 0). rewrite inject_Z_injective. lia. }
  assert (HK' : ~ (inject_Z K == 0)%Q).
  { change 0%Q with (inject_Z 0). rewrite inject_Z_injective. lia. }
  assert (Hpos : (0 <= / (inject_Z d * inject_Z K))%Q).
  { apply Qlt_le_weak, Qinv_lt_0_compat.
    rewrite <- inject_Z_mult. change 0%Q with (inject_Z 0).
    rewrite <- Zlt_Qlt. now apply Z.mul_pos_pos. }
  setoid_replace (inject_Z a / inject_Z K)%Q
    with (inject_Z (d * a) * / (inject_Z d * inject_Z K))%Q
    by (rewrite inject_Z_mult; field; split; assumption).
  setoid_replace
    (inject_Z b / inject_Z K - inject_Z c / inject_Z d / inject_Z K)%Q
    with (inject_Z (d * b - c) * / (inject_Z d * inject_Z K))%Q
    by (unfold Z.sub; rewrite inject_Z_plus, inject_Z_opp, inject_Z_mult;
        field; split; assumption).
  apply Qmult_le_compat_r; [| exact Hpos].
  now rewrite <- Zle_Qle.
Qed.

(** One column over finite readings whose magnitudes sum to at most
    [2^1022]: the computed average is finite, and lies in the range of
    the readings widened by the rounding allowance on either side. *)
Lemma column_average_up_to_rounding f historicalData :
  historicalData <> [] ->
  (Z.of_nat (List.length historicalData) < 2 ^ 32)%Z ->
  Forall (fun d => finite (f d)) historicalData ->
  (sumAbsUlps (map f historicalData) <= 2 ^ 2096)%Z ->
  finite (average (statisticsOf f historicalData))
  /\ (exactValue (lowest (statisticsOf f historicalData))
      - roundingAllowance (map f historicalData)
      <= exactValue (average (statisticsOf f historicalData)))%Q
  /\ (exactValue (average (statisticsOf f historicalData))
      <= exactValue (highest (statisticsOf f historicalData))
         + roundingAllowance (map f historicalData))%Q.
Proof.
  intros Hne Hlength Hall Hsmall.
  cbn [statisticsOf average lowest highest].
  rewrite sumOf_fold.
  unfold roundingAllowance. cbv zeta. rewrite length_map.
  assert (Hvalues : Forall finite (map f historicalData))
    by (rewrite Forall_map; exact Hall).
  assert (Hcount : List.length (map f historicalData)
                   = List.length historicalData) by apply length_map.
  assert (Hpos : (0 < List.length historicalData)%nat)
    by (destruct historicalData; [contradiction | simpl; lia]).
  set (values := map f historicalData) in *.
  set (n := List.length historicalData) in *.
  assert (H32 : (2 ^ 32 < 2 ^ 51)%Z) by reflexivity.
  assert (H51 : (2 ^ 51 < 2 ^ 53)%Z) by reflexivity.
  destruct (fold_add_error (sumAbsUlps values) values Hvalues
              ltac:(lia) ltac:(rewrite Hcount; lia) Hsmall)
    as [Hsum Hsumerr].
  rewrite Hcount in Hsumerr.
  destruct (div_by_length_error
              (fold_left PrimFloat.add values PrimFloat.zero) n Hsum Hpos
              ltac:(lia)) as [Havg Havgerr].
  split; [exact Havg |].
  destruct values as [|x rest] eqn:Hv; [simpl in Hcount; lia |].
  rewrite <- Hv in *.
  assert (Hvalues' : Forall finite (x :: rest))
    by (rewrite <- Hv; exact Hvalues).
  destruct (Math_min_finite x rest Hvalues') as [_ [Hmin _]].
  destruct (Math_max_finite x rest Hvalues') as [_ [Hmax _]].
  rewrite <- Hv in Hmin, Hmax.
  assert (Hrange : Forall (fun v => (ulps (Math_min values) <= ulps v
                                     <= ulps (Math_max values))%Z) values).
  { rewrite Forall_forall in Hmin, Hmax |- *. intros v Hin.
    split; [now apply Hmin | now apply Hmax]. }
  pose proof (sumUlps_bounds _ _ _ Hrange) as Hbounds.
  rewrite Hcount in Hbounds.
  pose proof (sumUlps_within values) as Hwithin.
  set (N := Z.of_nat n) in *.
  assert (HN : (1 <= N <= 2 ^ 51)%Z) by lia.
  set (B := sumAbsUlps values) in *.
  set (US := ulps (fold_left PrimFloat.add values PrimFloat.zero)) in *.
  set (UA := ulps (PrimFloat.div
                     (fold_left PrimFloat.add values PrimFloat.zero)
                     (Number_of_length n))) in *.
  set (ulo := ulps (Math_min values)) in *.
  set (uhi := ulps (Math_max values)) in *.
  set (T := sumUlps values) in *.
  assert (HNB : (N * B <= 2 ^ 51 * B)%Z)
    by (apply Z.mul_le_mono_nonneg_r; lia).
  assert (Hfinal :
            (2 ^ 51 * N * ulo - ((N + 1) * B + 2 ^ 51 * N)
             <= 2 ^ 51 * N * UA
             <= 2 ^ 51 * N * uhi + ((N + 1) * B + 2 ^ 51 * N))%Z).
  { clearbody N B US UA ulo uhi T.
    clear - HN Hbounds Hwithin Hsumerr Havgerr HNB.
    set (NUA := (N * UA)%Z) in *. set (NB := (N * B)%Z) in *.
    replace (2 ^ 51 * N * UA)%Z with (2 ^ 51 * NUA)%Z by (subst NUA; ring).
    replace ((N + 1) * B)%Z with (NB + B)%Z by (subst NB; ring).
    replace (2 ^ 51 * N * ulo)%Z with (2 ^ 51 * (N * ulo))%Z by ring.
    replace (2 ^ 51 * N * uhi)%Z with (2 ^ 51 * (N * uhi))%Z by ring.
    set (Nlo := (N * ulo)%Z) in *. set (Nhi := (N * uhi)%Z) in *.
    clearbody NUA NB Nlo Nhi.
    assert (H1 : (Z.abs (US - T) <= B)%Z) by lia.
    assert (H2 : (Z.abs US <= 2 * B)%Z) by lia.
    assert (H3 : (2 ^ 51 * Z.abs (NUA - US) <= B + 2 ^ 51 * N)%Z) by lia.
    lia. }
  unfold exactValue. fold US UA ulo uhi.
  assert (Hd : (0 < 2 ^ 51 * N)%Z) by lia.
  assert (HK : (0 < 2 ^ 1074)%Z) by reflexivity.
  split.
  - apply allowance_below; [exact Hd | exact HK | lia].
  - apply allowance_above; [exact Hd | exact HK | lia].
Qed.

(** One column over finite readings that are whole multiples of one
    power of two, of magnitudes that sum to less than [2^53] of them (so
    whole numbers that sum to less than [2^53]): nothing is rounded in
    the sum, and the computed average lies between the lowest and the
    highest reading, as doubles compare. *)
Lemma column_average_within_range f historicalData k :
  historicalData <> [] ->
  (Z.of_nat (List.length historicalData) < 2 ^ 32)%Z ->
  Forall (fun d => finite (f d)) historicalData ->
  (0 <= k <= 2045)%Z ->
  Forall (multipleOfPower k) (map f historicalData) ->
  (sumAbsUlps (map f historicalData) < 2 ^ 53 * 2 ^ k)%Z ->
  finite (average (statisticsOf f historicalData))
  /\ meanWithinRange (statisticsOf f historicalData) = true.
Proof.
  intros Hne Hlength Hall Hk Hmult Hsmall.
  unfold meanWithinRange.
  cbn [statisticsOf average lowest highest].
  rewrite sumOf_fold.
  assert (Hvalues : Forall finite (map f historicalData))
    by (rewrite Forall_map; exact Hall).
  assert (Hcount : List.length (map f historicalData)
                   = List.length historicalData) by apply length_map.
  assert (Hpos : (0 < List.length historicalData)%nat)
    by (destruct historicalData; [contradiction | simpl; lia]).
  set (values := map f historicalData) in *.
  set (n := List.length historicalData) in *.
  assert (H32 : (2 ^ 32 < 2 ^ 53)%Z) by reflexivity.
  destruct (fold_add_exact k Hk values PrimFloat.zero eq_refl
              (Z.divide_0_r _) Hvalues Hmult)
    as [Hsum Hexact]; [exact Hsmall |].
  change (ulps PrimFloat.zero) with 0%Z in Hexact.
  rewrite Z.add_0_l in Hexact.
  destruct values as [|x rest] eqn:Hv; [simpl in Hcount; lia |].
  rewrite <- Hv in *.
  assert (Hvalues' : Forall finite (x :: rest))
    by (rewrite <- Hv; exact Hvalues).
  destruct (Math_min_finite x rest Hvalues') as [Hminfin [Hmin _]].
  destruct (Math_max_finite x rest Hvalues') as [Hmaxfin [Hmax _]].
  rewrite <- Hv in Hmin, Hmax, Hminfin, Hmaxfin.
  assert (Hrange : Forall (fun v => (ulps (Math_min values) <= ulps v
                                     <= ulps (Math_max values))%Z) values).
  { rewrite Forall_forall in Hmin, Hmax |- *. intros v Hin.
    split; [now apply Hmin | now apply Hmax]. }
  pose proof (sumUlps_bounds _ _ _ Hrange) as Hbounds.
  rewrite Hcount, <- Hexact in Hbounds.
  destruct (div_by_length_between
              (fold_left PrimFloat.add values PrimFloat.zero) n
              (ulps (Math_min values)) (ulps (Math_max values))
              Hsum Hpos ltac:(fold n in Hlength; lia)
              (representable_ulps _ Hminfin) (representable_ulps _ Hmaxfin)
              Hbounds) as [Havg [Hlow Hhigh]].
  split; [exact Havg |].
  rewrite (leb_finite _ _ Hminfin Havg), (leb_finite _ _ Havg Hmaxfin).
  apply andb_true_intro. split; apply Z.leb_le; assumption.
Qed.

End ComputedAverage.

(** C6, as the code has it.  For every non-empty historical series of
    finite readings, in each column the lowest and the highest value are
    readings of the series, every reading lies between them as doubles
    compare, and the arithmetic mean of the readings, taken exactly, lies
    between the two.  The average the component computes adds and divides
    in double arithmetic, where every operation rounds.  When the
    magnitudes of the readings sum to at most [2^1022] it is finite and
    lies in the range of the readings widened by the rounding allowance
    on either side; when the readings are whole multiples of one power of
    two, of magnitudes that sum to less than [2^53] of them (whole
    numbers that sum to less than [2^53], for one), nothing is rounded in
    the sum and the computed average lies between the lowest and the
    highest reading as doubles compare. *)
Theorem average_within_range_up_to_rounding :
  forall historicalData,
    historicalData <> [] ->
    (Z.of_nat (List.length historicalData) < 2 ^ 32)%Z ->
    Forall (fun d => isFinite (temperature d) = true
                     /\ isFinite (humidity d) = true) historicalData ->
    let temperatures := statisticsOf temperature historicalData in
    let humidities := statisticsOf humidity historicalData in
    DailySummary historicalData = Some (temperatures, humidities)
    /\ (exactValue (lowest temperatures)
        <= exactMean (map temperature historicalData)
        <= exactValue (highest temperatures))%Q
    /\ (exactValue (lowest humidities)
        <= exactMean (map humidity historicalData)
        <= exactValue (highest humidities))%Q
    /\ Forall (fun d =>
                 PrimFloat.leb (lowest temperatures) (temperature d) = true
                 /\ PrimFloat.leb (temperature d) (highest temperatures) = true
                 /\ PrimFloat.leb (lowest humidities) (humidity d) = true
                 /\ PrimFloat.leb (humidity d) (highest humidities) = true)
         historicalData
    /\ PrimFloat.leb (lowest temperatures) (highest temperatures) = true
    /\ PrimFloat.leb (lowest humidities) (highest humidities) = true
    /\ In (lowest temperatures) (map temperature historicalData)
    /\ In (highest temperatures) (map temperature historicalData)
    /\ In (lowest humidities) (map humidity historicalData)
    /\ In (highest humidities) (map humidity historicalData)
    /\ ((sumAbsUlps (map temperature historicalData) <= 2 ^ 2096)%Z ->
        isFinite (average temperatures) = true
        /\ (exactValue (lowest temperatures)
            - roundingAllowance (map temperature historicalData)
            <= exactValue (average temperatures))%Q
        /\ (exactValue (average temperatures)
            <= exactValue (highest temperatures)
               + roundingAllowance (map temperature historicalData))%Q)
    /\ ((sumAbsUlps (map humidity historicalData) <= 2 ^ 2096)%Z ->
        isFinite (average humidities) = true
        /\ (exactValue (lowest humidities)
            - roundingAllowance (map humidity historicalData)
            <= exactValue (average humidities))%Q
        /\ (exactValue (average humidities)
            <= exactValue (highest humidities)
               + roundingAllowance (map humidity historicalData))%Q)
    /\ (forall k,
          (0 <= k <= 2045)%Z ->
          Forall (multipleOfPower k) (map temperature historicalData) ->
          (sumAbsUlps (map temperature historicalData) < 2 ^ 53 * 2 ^ k)%Z ->
          isFinite (average temperatures) = true
          /\ meanWithinRange temperatures = true)
    /\ (forall k,
          (0 <= k <= 2045)%Z ->
          Forall (multipleOfPower k) (map humidity historicalData) ->
          (sumAbsUlps (map humidity historicalData) < 2 ^ 53 * 2 ^ k)%Z ->
          isFinite (average humidities) = true
          /\ meanWithinRange humidities = true).
Proof.
  intros historicalData Hne Hlength Hall temperatures humidities.
  assert (Ht : Forall (fun d => finite (temperature d)) historicalData)
    by (eapply Forall_impl; [| exact Hall]; intros d [H _]; exact H).
  assert (Hh : Forall (fun d => finite (humidity d)) historicalData)
    by (eapply Forall_impl; [| exact Hall]; intros d [_ H]; exact H).
  destruct (column_brackets_exact_mean temperature _ Hne Ht)
    as [Htmean [Htle [Htall [Htlow Hthigh]]]].
  destruct (column_brackets_exact_mean humidity _ Hne Hh)
    as [Hhmean [Hhle [Hhall [Hhlow Hhhigh]]]].
  split; [destruct historicalData; [contradiction | reflexivity] |].
  split; [exact Htmean |]. split; [exact Hhmean |].
  split.
  { rewrite Forall_map in Htall, Hhall.
    rewrite Forall_forall in Htall, Hhall |- *.
    intros d Hd. destruct (Htall d Hd), (Hhall d Hd). auto. }
  split; [exact Htle |]. split; [exact Hhle |].
  split; [exact Htlow |]. split; [exact Hthigh |].
  split; [exact Hhlow |]. split; [exact Hhhigh |].
  split; [| split; [| split]].
  - now apply column_average_up_to_rounding.
  - now apply column_average_up_to_rounding.
  - intros k Hk Hmult Hsmall.
    now apply (column_average_within_range temperature historicalData k).
  - intros k Hk Hmult Hsmall.
    now apply (column_average_within_range humidity historicalData k).
Qed.

(** * Further properties *)

(** ** Runs of events *)

Section RunProperties.

Variable JSON_parse : string -> option JSValue.
Variable JSON_stringify : JSValue -> string.

(** Splits a step of [dispatch] into its events, with the guards of the
    disabled button and of the requests in flight resolved, and a message
    split by its topic, by whether its payload decodes, and by the version
    of the component. *)
Ltac by_event Hstep :=
  match type of Hstep with
  | dispatch ?parse _ ?variant ?ev ?w = Some _ =>
      destruct ev as [|topic message now| |d| |data| |savedData|];
      cbn [dispatch] in Hstep;
      cbn [latestAfter takenValues seriesAfter connectedAfter takenIn
             selectedAfter readRequests existsb filter isStoreEvent
             isConnectEvent flat_map loggedError];
      [ | unfold invoke, on_message, try_catch, bind, parseJSON in Hstep;
          revert Hstep;
          destruct (String.eqb topic MQTT_TOPIC) eqn:Htopic;
          [ destruct (parse message) as [v|] eqn:Hdecode;
            [ destruct variant | ] | ];
          intros Hstep
        | | |
        destruct (isLoading (app w)) eqn:Hloading; [discriminate |] |
        destruct (openGets w) eqn:Hgets; [discriminate |] |
        destruct (openGets w) eqn:Hgets; [discriminate |] |
        destruct (openPosts w) eqn:Hposts; [discriminate |] |
        destruct (openPosts w) eqn:Hposts; [discriminate |] ];
      injection Hstep as <-
  end.

(** X1.  After any run of events the latest reading and the last-update
    time are those of the last message on the subscribed topic whose
    payload decoded; they are as before the run when there was none.
    Messages on other topics, payloads that do not decode, connection
    events, date selections and the settling of requests leave both cells
    alone. *)
Theorem latest_reading_after_run :
  forall variant evs w w',
    run JSON_parse JSON_stringify variant evs w = Some w' ->
    (realTimeData (app w'), lastUpdate (app w'))
    = latestAfter JSON_parse evs
        (realTimeData (app w), lastUpdate (app w)).
Proof.
  intros variant evs. induction evs as [|ev evs IH]; intros w w' Hrun;
    simpl in Hrun.
  - now injection Hrun as <-.
  - destruct (dispatch JSON_parse JSON_stringify variant ev w) as [w1|]
      eqn:Hstep; [| discriminate].
    rewrite (IH _ _ Hrun).
    by_event Hstep; reflexivity.
Qed.

(** X2.  After any run of events the historical series is what the events
    that settle requests made of it: the sequence the last successful read
    returned (the series before the run when no read succeeded), followed
    by the records of the writes that succeeded since, in the order they
    came back.  Messages, failures of requests, connection events and date
    selections never change the series. *)
Theorem series_after_run :
  forall variant evs w w',
    run JSON_parse JSON_stringify variant evs w = Some w' ->
    historicalData (app w') = seriesAfter evs (historicalData (app w)).
Proof.
  intros variant evs. induction evs as [|ev evs IH]; intros w w' Hrun;
    simpl in Hrun.
  - now injection Hrun as <-.
  - destruct (dispatch JSON_parse JSON_stringify variant ev w) as [w1|]
      eqn:Hstep; [| discriminate].
    rewrite (IH _ _ Hrun).
    by_event Hstep; reflexivity.
Qed.

Lemma dashboard_step_posts_nothing ev w w' :
  dispatch JSON_parse JSON_stringify Dashboard ev w = Some w' ->
  filter isPost (issued w) = [] -> openPosts w = 0 ->
  filter isPost (issued w') = [] /\ openPosts w' = 0
  /\ isStoreEvent ev = false.
Proof.
  intros Hstep Hlog Hopen.
  remember Dashboard as variant eqn:Hvariant.
  by_event Hstep; try discriminate; try congruence;
    cbn [issued openPosts invoke app on_connect]; simpl;
    rewrite ?filter_app, ?Hlog, ?Hopen; simpl; auto.
Qed.

(** X3.  The dashboard without the store never issues a write request: in
    every world it reaches no POST was issued and none is in flight, no
    event of the run was the settling of a write, and none can follow. *)
Theorem dashboard_never_writes :
  forall today evs w,
    run JSON_parse JSON_stringify Dashboard evs (initialWorld today) = Some w ->
    filter isPost (issued w) = []
    /\ openPosts w = 0
    /\ existsb isStoreEvent evs = false
    /\ (forall savedData,
          dispatch JSON_parse JSON_stringify Dashboard
            (StoreResolved savedData) w = None)
    /\ dispatch JSON_parse JSON_stringify Dashboard StoreRejected w = None.
Proof.
  intros today evs w Hrun.
  assert (Hgen : forall evs w0 w1,
             run JSON_parse JSON_stringify Dashboard evs w0 = Some w1 ->
             filter isPost (issued w0) = [] -> openPosts w0 = 0 ->
             filter isPost (issued w1) = [] /\ openPosts w1 = 0
             /\ existsb isStoreEvent evs = false).
  { clear. intros evs.
    induction evs as [|ev evs IH]; intros w0 w1 Hrun Hlog Hopen;
      simpl in Hrun.
    - injection Hrun as <-. auto.
    - destruct (dispatch JSON_parse JSON_stringify Dashboard ev w0) as [w2|]
        eqn:Hstep; [| discriminate].
      destruct (dashboard_step_posts_nothing _ _ _ Hstep Hlog Hopen)
        as [Hlog2 [Hopen2 Hev]].
      destruct (IH _ _ Hrun Hlog2 Hopen2) as [H1 [H2 H3]].
      cbn [existsb]. rewrite Hev, H3. auto. }
  destruct (Hgen evs _ _ Hrun eq_refl eq_refl) as [Hlog [Hopen Hevs]].
  repeat split; try assumption.
  - intros savedData. simpl. now rewrite Hopen.
  - simpl. now rewrite Hopen.
Qed.

(** X4.  The dashboard with the store forwards every reading it takes in,
    and nothing else: over any run the write requests issued are one POST
    to the store for each decoded message on the subscribed topic, in the
    order of arrival, with the re-encoded value as its body; and the writes
    in flight are those issued and not yet settled. *)
Theorem store_forwards_each_reading_once :
  forall evs w w',
    run JSON_parse JSON_stringify DashboardWithStore evs w = Some w' ->
    filter isPost (issued w')
    = filter isPost (issued w)
      ++ map (storePost JSON_stringify) (takenValues JSON_parse evs)
    /\ openPosts w' + List.length (filter isStoreEvent evs)
       = openPosts w + List.length (takenValues JSON_parse evs).
Proof.
  intros evs. induction evs as [|ev evs IH]; intros w w' Hrun;
    simpl in Hrun.
  - injection Hrun as <-. simpl. rewrite app_nil_r. split; [reflexivity | lia].
  - destruct (dispatch JSON_parse JSON_stringify DashboardWithStore ev w)
      as [w1|] eqn:Hstep; [| discriminate].
    destruct (IH _ _ Hrun) as [-> Hopen]. clear IH Hrun.
    remember DashboardWithStore as variant eqn:Hvariant.
    by_event Hstep; try discriminate;
      cbn [issued openPosts openGets invoke app settlePost settleGet] in *;
      simpl in *; rewrite ?filter_app, ?app_nil_r; simpl;
      rewrite ?app_nil_r, <- ?app_assoc; simpl;
      (split; [reflexivity | try lia]).
Qed.

(** X5.  Nothing is ever thrown out of a callback: in every world the
    component reaches from its first render, whatever the events were and
    whichever version runs, no callback has completed abruptly.  A payload
    that does not decode is caught inside the message callback. *)
Theorem no_callback_ever_throws :
  forall variant today evs w,
    run JSON_parse JSON_stringify variant evs (initialWorld today) = Some w ->
    uncaught w = [].
Proof.
  intros variant today evs.
  change [] with (uncaught (initialWorld today)) at 1.
  generalize (initialWorld today).
  induction evs as [|ev evs IH]; intros w0 w Hrun; simpl in Hrun.
  - now injection Hrun as <-.
  - destruct (dispatch JSON_parse JSON_stringify variant ev w0) as [w1|]
      eqn:Hstep; [| discriminate].
    rewrite (IH _ _ Hrun). eapply dispatch_completes_normally, Hstep.
Qed.

(** X6.  The connection flag follows the connect and error events alone:
    after any run it is [true] when the last of them was a connect,
    [false] when it was an error, and as before when there was neither.
    Every connect event subscribes to the one topic again, and nothing
    else subscribes. *)
Theorem connection_flag_after_run :
  forall variant evs w w',
    run JSON_parse JSON_stringify variant evs w = Some w' ->
    mqttConnected (app w') = connectedAfter evs (mqttConnected (app w))
    /\ filter isSubscribe (issued w')
       = filter isSubscribe (issued w)
         ++ repeat (Subscribe MQTT_TOPIC)
              (List.length (filter isConnectEvent evs)).
Proof.
  intros variant evs. induction evs as [|ev evs IH]; intros w w' Hrun;
    simpl in Hrun.
  - injection Hrun as <-. simpl. now rewrite app_nil_r.
  - destruct (dispatch JSON_parse JSON_stringify variant ev w) as [w1|]
      eqn:Hstep; [| discriminate].
    destruct (IH _ _ Hrun) as [-> ->]. clear IH Hrun.
    by_event Hstep;
      cbn [issued invoke app settlePost settleGet mqttConnected];
      simpl; rewrite ?filter_app, ?app_nil_r; simpl;
      rewrite ?app_nil_r, <- ?app_assoc; simpl; split; reflexivity.
Qed.

(** X7.  Read requests come from clicks alone, one for each: over any run
    the GET requests issued are, in order, one for each click on the fetch
    button, each for the path of the date that was selected when the click
    came.  Selecting a date issues no request, and so does every other
    event; the selected date is the last one selected. *)
Theorem read_requests_follow_clicks :
  forall variant evs w w',
    run JSON_parse JSON_stringify variant evs w = Some w' ->
    filter isGet (issued w')
    = filter isGet (issued w) ++ readRequests evs (selectedDate (app w))
    /\ selectedDate (app w') = selectedAfter evs (selectedDate (app w)).
Proof.
  intros variant evs. induction evs as [|ev evs IH]; intros w w' Hrun;
    simpl in Hrun.
  - injection Hrun as <-. simpl. now rewrite app_nil_r.
  - destruct (dispatch JSON_parse JSON_stringify variant ev w) as [w1|]
      eqn:Hstep; [| discriminate].
    destruct (IH _ _ Hrun) as [-> ->]. clear IH Hrun.
    by_event Hstep;
      cbn [issued invoke app settlePost settleGet selectedDate];
      simpl; rewrite ?filter_app, ?app_nil_r; simpl;
      rewrite ?app_nil_r, <- ?app_assoc; simpl; split; reflexivity.
Qed.

Lemma last_of_nonempty {A : Type} (x : A) (l : list A) (a b : A) :
  last (x :: l) a = last (x :: l) b.
Proof.
  revert x. induction l as [|y l IH]; intros x; [reflexivity |].
  change (last (x :: y :: l) a) with (last (y :: l) a).
  change (last (x :: y :: l) b) with (last (y :: l) b).
  apply IH.
Qed.

(** X8.  A response is applied to the series whatever was selected since
    the click: once a read request is in flight, selecting other dates
    neither cancels the request nor issues another, and when the response
    arrives the series becomes the sequence it carried, while the selected
    date is the one selected last. *)
Theorem response_applies_after_date_change :
  forall variant w dates data,
    isLoading (app w) = true -> openGets w = 1 ->
    exists w',
      run JSON_parse JSON_stringify variant
        (map SelectDate dates ++ [FetchResolved data]) w = Some w'
      /\ historicalData (app w') = data
      /\ selectedDate (app w') = last dates (selectedDate (app w))
      /\ isLoading (app w') = false
      /\ openGets w' = 0
      /\ issued w' = issued w.
Proof.
  intros variant w dates. revert w.
  induction dates as [|d dates IH]; intros w data Hloading Hopen.
  - eexists. simpl. rewrite Hopen. split; [reflexivity |]. simpl.
    rewrite Hopen, app_nil_r. auto.
  - assert (Hopen' : openGets (invoke (setSelectedDate d) w) = 1)
      by (simpl; lia).
    destruct (IH (invoke (setSelectedDate d) w) data Hloading Hopen')
      as [w' [Hrun [Hdata [Hdate [Hflag [Hgets Hlog]]]]]].
    exists w'. split; [exact Hrun |].
    split; [exact Hdata |]. split.
    + rewrite Hdate. destruct dates as [|d0 dates]; [reflexivity |].
      change (last (d :: d0 :: dates) (selectedDate (app w)))
        with (last (d0 :: dates) (selectedDate (app w))).
      apply last_of_nonempty.
    + split; [exact Hflag |]. split; [exact Hgets |].
      rewrite Hlog. simpl. now rewrite app_nil_r.
Qed.


(** X10.  What a message does to the real-time panel.  After a message on
    the subscribed topic whose payload decodes, the value and the time of
    receipt are recorded.  If the value is a Reading, the panel shows its
    [temperature] number, its [humidity] number and the time of receipt.
    If it is a value that a conditional takes for false ([null], [false],
    [0], the empty string), the panel shows the placeholder again.  If it
    is an object whose [temperature] is an object or an array that holds
    one, the render fails on that child. *)
Theorem panel_after_message :
  forall variant message now v w,
    JSON_parse message = Some v ->
    let w' :=
      invoke
        (on_message JSON_parse JSON_stringify variant MQTT_TOPIC message now)
        w in
    dispatch JSON_parse JSON_stringify variant
      (MqttMessage MQTT_TOPIC message now) w = Some w'
    /\ realTimeData (app w') = v
    /\ lastUpdate (app w') = Some now
    /\ (isReading v = true ->
        exists t h,
          propertyOf "temperature" v = inr (Some (JNumber t))
          /\ propertyOf "humidity" v = inr (Some (JNumber h))
          /\ realTimePanel (app w')
             = inr (RealTimeValues (Some (JNumber t)) (Some (JNumber h))
                      (Some now)))
    /\ (ToBoolean v = false -> realTimePanel (app w') = inr NoRealTimeData)
    /\ (forall fields child,
          v = JObject fields ->
          getField "temperature" fields = Some child ->
          validChild child = false ->
          realTimePanel (app w') = inl (InvalidChild (Some child))).
Proof.
  intros variant message now v w Hdecode w'.
  assert (Happ : app w' = withReading v now (app w)).
  { subst w'. unfold invoke, on_message, try_catch, bind, parseJSON.
    rewrite String.eqb_refl, Hdecode. destruct variant; reflexivity. }
  split; [reflexivity |]. rewrite Happ.
  split; [reflexivity |]. split; [reflexivity |].
  unfold realTimePanel. cbn [withReading realTimeData lastUpdate].
  split; [| split].
  - intros Hshape. destruct v as [| | | | |fields]; try discriminate.
    cbn [isReading] in Hshape. cbn [ToBoolean propertyOf].
    apply andb_prop in Hshape as [Ht Hh].
    destruct (getField "temperature" fields) as [[| |t| | |]|];
      try discriminate.
    destruct (getField "humidity" fields) as [[| |h| | |]|];
      try discriminate.
    now exists t, h.
  - intros ->. reflexivity.
  - intros fields child -> Hfield Hchild.
    cbn [ToBoolean propertyOf]. rewrite Hfield.
    cbn [rendersAsChild]. rewrite Hchild. reflexivity.
Qed.

(** X17.  Every failure is written to the error console once, and
    nothing else is: over any run the error lines logged are, in order,
    one for each payload on the subscribed topic that did not decode, one
    for each transport error, one for each read request that failed and
    one for each write request that failed, each under its own label. *)
Theorem each_failure_is_logged_once :
  forall variant evs w w',
    run JSON_parse JSON_stringify variant evs w = Some w' ->
    filter isConsoleError (issued w')
    = filter isConsoleError (issued w)
      ++ flat_map (loggedError JSON_parse) evs.
Proof.
  intros variant evs. induction evs as [|ev evs IH]; intros w w' Hrun;
    simpl in Hrun.
  - injection Hrun as <-. simpl. now rewrite app_nil_r.
  - destruct (dispatch JSON_parse JSON_stringify variant ev w) as [w1|]
      eqn:Hstep; [| discriminate].
    rewrite (IH _ _ Hrun). clear IH Hrun.
    by_event Hstep;
      cbn [issued invoke app settlePost settleGet];
      simpl; rewrite ?filter_app, ?app_nil_r; simpl;
      rewrite ?app_nil_r, <- ?app_assoc; simpl; reflexivity.
Qed.

End RunProperties.

(** ** The chart and the summary *)

Section ChartProperties.

Variable Date_getTime : string -> TimeValue.
Variable Date_toLocaleTimeString : string -> string.

Lemma notLater_inOrder a b :
  notLater Date_getTime a b -> inOrder (byTimestamp Date_getTime) a b.
Proof.
  intros [ta [tb [Ha [Hb Hle]]]]. unfold inOrder.
  rewrite (sortsAfter_times _ _ _ _ _ Ha Hb). apply Z.ltb_ge. exact Hle.
Qed.

Lemma recordedAt_insertSorted t x l :
  recordedAt Date_getTime t (insertSorted (byTimestamp Date_getTime) x l)
  = recordedAt Date_getTime t (x :: l).
Proof.
  induction l as [|y rest IH]; [reflexivity |].
  cbn [insertSorted].
  destruct (sortsAfter (byTimestamp Date_getTime) x y) eqn:Hxy;
    [| reflexivity].
  unfold recordedAt in *. cbn [filter] in *. rewrite IH.
  revert Hxy. unfold sortsAfter, byTimestamp, TimeValue_sub, timeOf.
  destruct (Date_getTime (timestamp x)) as [|tx];
    destruct (Date_getTime (timestamp y)) as [|ty]; try discriminate.
  intros Hxy. apply Z.ltb_lt in Hxy.
  destruct (Z.eqb_spec tx t), (Z.eqb_spec ty t); reflexivity || lia.
Qed.

(** X11.  The chart of a non-empty series plots one rearrangement of the
    series: its labels, temperatures and humidities are read, point by
    point, off one and the same sequence, which holds the readings of the
    series, each as often as the series does (none dropped, none repeated),
    and which is in ascending order of time when every timestamp parses. *)
Theorem chart_plots_series_in_time_order :
  forall historicalData,
    historicalData <> [] ->
    exists sorted,
      LineChart Date_getTime Date_toLocaleTimeString historicalData
      = Some (mkChartData
                (map (fun d => Date_toLocaleTimeString (timestamp d)) sorted)
                (map temperature sorted)
                (map humidity sorted))
      /\ Permutation historicalData sorted
      /\ (Forall (parses Date_getTime) historicalData ->
          StronglySorted (notLater Date_getTime) sorted).
Proof.
  intros historicalData Hne.
  exists (sortedData Date_getTime historicalData).
  split; [destruct historicalData; [contradiction | reflexivity] |].
  split; [apply Array_sort_Permutation |].
  intros Hall. now apply sortedData_ascending.
Qed.


(** X13.  A series that arrives in time order is charted as it arrived:
    when every timestamp parses and no reading is later than one that
    follows it, the sort returns the series itself. *)
Theorem ordered_series_is_charted_as_it_arrived :
  forall historicalData,
    StronglySorted (notLater Date_getTime) historicalData ->
    sortedData Date_getTime historicalData = historicalData.
Proof.
  intros historicalData Hsorted. unfold sortedData.
  apply Array_sort_fixes_Sorted.
  apply StronglySorted_Sorted in Hsorted.
  induction Hsorted as [|x l Hl IH Hhd]; constructor; [exact IH |].
  destruct Hhd as [|y rest Hxy]; constructor.
  now apply notLater_inOrder.
Qed.

(** X14.  Readings with the same time keep their order of arrival: for
    every series whose timestamps all parse and every time, the readings
    of the sorted series whose timestamp reads as that time are those of
    the series, in the order the series has them. *)
Theorem equal_times_keep_arrival_order :
  forall historicalData t,
    Forall (parses Date_getTime) historicalData ->
    recordedAt Date_getTime t (sortedData Date_getTime historicalData)
    = recordedAt Date_getTime t historicalData.
Proof.
  intros historicalData t _. unfold sortedData.
  induction historicalData as [|x l IH]; [reflexivity |].
  cbn [Array_sort fold_right].
  change (fold_right (insertSorted (byTimestamp Date_getTime)) [] l)
    with (Array_sort (byTimestamp Date_getTime) l).
  rewrite recordedAt_insertSorted.
  unfold recordedAt in *. cbn [filter]. now rewrite IH.
Qed.

End ChartProperties.

(** ** The query path, continued *)

Lemma digitChar_injective a b :
  (a < 10)%nat -> (b < 10)%nat -> digitChar a = digitChar b -> a = b.
Proof.
  unfold digitChar. intros Ha Hb H.
  apply (f_equal nat_of_ascii) in H.
  rewrite !nat_ascii_embedding in H by lia. lia.
Qed.

Lemma twoDigits_injective n m :
  (0 <= n < 100)%Z -> (0 <= m < 100)%Z -> twoDigits n = twoDigits m -> n = m.
Proof.
  unfold twoDigits. intros Hn Hm H. injection H as Hunits Htens.
  assert (Hn1 : (0 <= n / 10 < 10)%Z)
    by (split; [apply Z.div_pos | apply Z.div_lt_upper_bound]; lia).
  assert (Hm1 : (0 <= m / 10 < 10)%Z)
    by (split; [apply Z.div_pos | apply Z.div_lt_upper_bound]; lia).
  assert (Hn0 := Z.mod_pos_bound n 10 ltac:(lia)).
  assert (Hm0 := Z.mod_pos_bound m 10 ltac:(lia)).
  apply digitChar_injective in Hunits; [| lia | lia].
  apply digitChar_injective in Htens; [| lia | lia].
  rewrite (Z.div_mod n 10), (Z.div_mod m 10) by lia. lia.
Qed.

(** X15.  The path carries the year modulo one hundred only: from the
    year 10 on, two dates with the same day and month whose years differ
    by a multiple of one hundred are requested under the same address. *)
Theorem years_a_century_apart_share_a_path :
  forall d1 d2,
    getDate d1 = getDate d2 -> getMonth d1 = getMonth d2 ->
    (10 <= getFullYear d1)%Z -> (10 <= getFullYear d2)%Z ->
    (getFullYear d1 mod 100 = getFullYear d2 mod 100)%Z ->
    API_URL d1 = API_URL d2.
Proof.
  intros d1 d2 Hday Hmonth Hy1 Hy2 Hmod.
  unfold API_URL, formattedDate.
  rewrite !slice_year_two_digits by assumption.
  now rewrite Hday, Hmonth, Hmod.
Qed.

(** X16.  Within one century the path tells the days apart: two dates of
    the same hundred years, from the year 10 on, each with a day from 1 to
    31 and a month from January to December, that are requested under the
    same address are the same date. *)
Theorem path_tells_days_of_a_century_apart :
  forall c d1 d2,
    validDay d1 -> validDay d2 ->
    inCentury c d1 -> inCentury c d2 ->
    (10 <= getFullYear d1)%Z -> (10 <= getFullYear d2)%Z ->
    API_URL d1 = API_URL d2 ->
    d1 = d2.
Proof.
  intros c [y1 m1 day1] [y2 m2 day2] [Hday1 Hmonth1] [Hday2 Hmonth2]
    Hc1 Hc2 Hy1 Hy2 Hurl.
  unfold inCentury in *. cbn [getFullYear getMonth getDate] in *.
  unfold API_URL, formattedDate in Hurl.
  cbn [getFullYear getMonth getDate] in Hurl.
  rewrite !padStart_two_digits, !slice_year_two_digits in Hurl by lia.
  assert (Hparts : twoDigits day1 = twoDigits day2
                   /\ twoDigits (m1 + 1) = twoDigits (m2 + 1)
                   /\ twoDigits (y1 mod 100) = twoDigits (y2 mod 100)).
  { unfold twoDigits in *. cbn [append] in Hurl.
    injection Hurl as -> -> -> -> -> ->. auto. }
  destruct Hparts as [Hd [Hm Hy]].
  apply twoDigits_injective in Hd; [| lia | lia].
  apply twoDigits_injective in Hm; [| lia | lia].
  apply twoDigits_injective in Hy;
    [| apply Z.mod_pos_bound; lia | apply Z.mod_pos_bound; lia].
  f_equal; [| lia | exact Hd].
  rewrite (Z.div_mod y1 100), (Z.div_mod y2 100), Hy by lia.
  f_equal. f_equal.
  assert (y1 / 100 = c)%Z
    by (symmetry; apply (Z.div_unique y1 100 c (y1 - 100 * c)); lia).
  assert (y2 / 100 = c)%Z
    by (symmetry; apply (Z.div_unique y2 100 c (y2 - 100 * c)); lia).
  congruence.
Qed.

(** * Concrete runs

    The properties above, instantiated with the reference decoder, encoder
    and timestamp reader on sample data, and the inputs on which
    sentences of the specification fail. *)

(** The scenario of two messages, [200/500] then [210/480]: the latest
    reading is the second. *)
Lemma latest_reading_is_last_message_witness :
  (Forall (decodesToReading JSON_decode) [(readingPayload 200 500, "10:00:00")]
   /\ JSON_decode (readingPayload 210 480) = Some (readingValue 210 480)
   /\ isReading (readingValue 210 480) = true)
  /\ exists w',
       run JSON_decode JSON_encode Dashboard
         (deliveries [(readingPayload 200 500, "10:00:00");
                      (readingPayload 210 480, "10:00:05")])
         (initialWorld today) = Some w'
       /\ realTimeData (app w') = readingValue 210 480
       /\ lastUpdate (app w') = Some "10:00:05".
Proof.
  assert (H1 : Forall (decodesToReading JSON_decode)
                 [(readingPayload 200 500, "10:00:00")]).
  { constructor; [| constructor].
    exists (readingValue 200 500). split; vm_compute; reflexivity. }
  assert (H2 : JSON_decode (readingPayload 210 480)
               = Some (readingValue 210 480)) by (vm_compute; reflexivity).
  assert (H3 : isReading (readingValue 210 480) = true) by reflexivity.
  split; [auto |].
  destruct (latest_reading_is_last_message JSON_decode JSON_encode Dashboard
              [(readingPayload 200 500, "10:00:00")]
              (readingPayload 210 480) "10:00:05" (readingValue 210 480)
              (initialState today) (initialWorld today) H1 H2 H3)
    as [_ [w' [Hrun [Hdata [Hupdate _]]]]].
  exists w'. auto.
Defined.

(** A payload with an unquoted key does not decode, and is dropped. *)
Lemma malformed_payload_is_dropped_witness :
  JSON_decode "{temperature:200}" = None
  /\ on_message JSON_decode JSON_encode Dashboard MQTT_TOPIC
       "{temperature:200}" "10:00:00" (initialState today)
     = Normal tt (initialState today)
         [ConsoleError "Error parsing MQTT message:"].
Proof.
  assert (H : JSON_decode "{temperature:200}" = None)
    by (vm_compute; reflexivity).
  split; [exact H |].
  exact (proj1 (malformed_payload_is_dropped JSON_decode JSON_encode Dashboard
                  "{temperature:200}" "10:00:00" (initialState today)
                  (initialWorld today) H)).
Defined.

(** The text [5] is valid JSON and no Reading; it becomes the latest
    reading. *)
Lemma no_shape_validation_witness :
  (JSON_decode "5" = Some (JNumber 5) /\ isReading (JNumber 5) = false)
  /\ exists out,
       on_message JSON_decode JSON_encode DashboardWithStore MQTT_TOPIC
         "5" "10:00:00" (initialState today)
       = Normal tt
           (mkAppState (JNumber 5) [] false false today (Some "10:00:00")) out.
Proof.
  assert (H1 : JSON_decode "5" = Some (JNumber 5)) by (vm_compute; reflexivity).
  assert (H2 : isReading (JNumber 5) = false) by reflexivity.
  split; [auto |].
  exact (no_shape_validation JSON_decode JSON_encode DashboardWithStore
           "5" "10:00:00" (JNumber 5) (initialState today) H1 H2).
Defined.

(** [null] and the empty object are taken in the same way. *)
Example null_and_empty_object_are_stored :
  on_message JSON_decode JSON_encode Dashboard MQTT_TOPIC "null" "10:00:00"
    (mkAppState (readingValue 200 500) [] false true today (Some "09:59:59"))
  = Normal tt (mkAppState JNull [] false true today (Some "10:00:00")) []
  /\ on_message JSON_decode JSON_encode Dashboard MQTT_TOPIC "{}" "10:00:00"
       (initialState today)
     = Normal tt
         (mkAppState (JObject []) [] false false today (Some "10:00:00")) [].
Proof. split; vm_compute; reflexivity. Qed.

(** A reading is posted to the store as it was decoded. *)
Lemma store_write_is_fire_and_forget_witness :
  JSON_decode (readingPayload 200 500) = Some (readingValue 200 500)
  /\ on_message JSON_decode JSON_encode DashboardWithStore MQTT_TOPIC
       (readingPayload 200 500) "10:00:00" (initialState today)
     = Normal tt
         (withReading (readingValue 200 500) "10:00:00" (initialState today))
         [FetchPost "http://localhost:8080/api/sensor"
            (JSON_encode (readingValue 200 500))].
Proof.
  assert (H : JSON_decode (readingPayload 200 500)
              = Some (readingValue 200 500)) by (vm_compute; reflexivity).
  split; [exact H |].
  exact (proj1 (store_write_is_fire_and_forget JSON_decode JSON_encode
                  (readingPayload 200 500) "10:00:00" (readingValue 200 500)
                  (initialState today) (initialState today)
                  (mkHistoricalReading "2024-03-07T10:00:01Z" 200 500) H)).
Defined.

(** The reference encoder and decoder agree on the sample reading. *)
Example sample_reading_round_trip :
  JSON_encode (readingValue 200 500) = readingPayload 200 500
  /\ JSON_decode (JSON_encode (readingValue 200 500))
     = Some (readingValue 200 500).
Proof. split; vm_compute; reflexivity. Qed.

(** After a click on the fetch button the flag is set and one request is in
    flight; its arrival replaces the series and clears the flag. *)
Lemma loading_flag_spans_request_witness :
  exists w,
    run JSON_decode JSON_encode Dashboard [MqttConnect; ClickFetch]
      (initialWorld today) = Some w
    /\ isLoading (app w) = true
    /\ openGets w = 1
    /\ issued w
       = [ConsoleLog "Connected to MQTT"; Subscribe MQTT_TOPIC;
          FetchGet "http://localhost:8080/api/sensor/07_03_24"]
    /\ exists w1,
         dispatch JSON_decode JSON_encode Dashboard (FetchResolved morning) w
         = Some w1
         /\ historicalData (app w1) = morning
         /\ isLoading (app w1) = false.
Proof.
  eexists. split; [vm_compute; reflexivity |].
  split; [reflexivity |].
  pose proof (loading_flag_spans_request JSON_decode JSON_encode Dashboard
                today [MqttConnect; ClickFetch] _ morning eq_refl) as [_ H].
  cbn [app isLoading] in H.
  destruct H as [Hopen [_ [[w1 [Hstep [Hdata [Hflag _]]]] _]]].
  split; [exact Hopen |].
  split; [reflexivity |].
  exists w1. auto.
Defined.

(** The empty series renders no summary; the sample series of two does,
    and its averages are divided by a number that is not zero. *)
Lemma summary_only_for_nonempty_series_witness :
  (Z.of_nat (List.length morning) < 2 ^ 32)%Z
  /\ DailySummary [] = None
  /\ DailySummary morning
     = Some (statisticsOf temperature morning, statisticsOf humidity morning)
  /\ PrimFloat.is_zero (Number_of_length (List.length morning)) = false.
Proof.
  assert (H : (Z.of_nat (List.length morning) < 2 ^ 32)%Z) by reflexivity.
  split; [exact H |].
  destruct (summary_only_for_nonempty_series morning (initialState today) H)
    as [Hempty [_ Hsome]].
  split; [exact Hempty |].
  split; [reflexivity |].
  change (DailySummary morning)
    with (Some (statisticsOf temperature morning,
                statisticsOf humidity morning)) in Hsome.
  cbv beta iota in Hsome. exact (proj1 (proj2 Hsome)).
Defined.


(** The sample series comes out of the sort earliest reading first. *)
Example morning_sorted :
  map timestamp (sortedData Date_parseUTC morning)
  = ["2024-03-07T08:15:00.500Z"; "2024-03-07T09:30:00Z"].
Proof. vm_compute. reflexivity. Qed.

(** The seventh of March 2024. *)
Lemma formattedDate_from_year_ten_witness :
  ((1 <= getDate today <= 31)%Z /\ (0 <= getMonth today <= 11)%Z
   /\ (10 <= getFullYear today)%Z)
  /\ formattedDate today = "07_03_24".
Proof.
  assert (H1 : (1 <= getDate today <= 31)%Z) by (simpl; lia).
  assert (H2 : (0 <= getMonth today <= 11)%Z) by (simpl; lia).
  assert (H3 : (10 <= getFullYear today)%Z) by (simpl; lia).
  split; [auto |].
  destruct (formattedDate_from_year_ten today H1 H2 H3) as [Heq _].
  rewrite Heq. reflexivity.
Defined.

(** C4.  The path [fetchData] asks for departs from [DD_MM_YY] of the
    selected calendar date on two inputs the date input can hand over.
    Selecting 2024-03-07 where local time is behind UTC (here by five
    hours) gives a [Date] whose local getters read the sixth of March,
    and the click asks for [06_03_24]; at UTC and east of it the same
    selection asks for [07_03_24].  Selecting 0005-03-07 gives the year
    5, of which [slice(-2)] keeps the one digit there is: the click asks
    for [07_03_5], not for [07_03_05]. *)
Theorem query_path_departs_from_DD_MM_YY :
  Date_ofInputValue 300 2024 3 7 = mkDate 2024 2 6
  /\ formattedDate (Date_ofInputValue 300 2024 3 7) = "06_03_24"
  /\ (exists w,
        run JSON_decode JSON_encode Dashboard
          [SelectDate (Date_ofInputValue 300 2024 3 7); ClickFetch]
          (initialWorld today) = Some w
        /\ issued w
           = [FetchGet "http://localhost:8080/api/sensor/06_03_24"])
  /\ formattedDate (Date_ofInputValue 0 2024 3 7) = "07_03_24"
  /\ formattedDate (Date_ofInputValue (-60) 2024 3 7) = "07_03_24"
  /\ Date_ofInputValue 0 5 3 7 = yearFive
  /\ formattedDate yearFive = "07_03_5"
  /\ DD_MM_YY yearFive = "07_03_05"
  /\ formattedDate yearFive <> DD_MM_YY yearFive.
Proof.
  split; [reflexivity |]. split; [reflexivity |].
  split; [eexists; split; reflexivity |].
  split; [reflexivity |]. split; [reflexivity |].
  split; [reflexivity |]. split; [reflexivity |].
  split; [reflexivity | discriminate].
Qed.

(** The day number and the civil date are inverse to each other on the
    sample days, a leap day among them. *)
Example civilFromDays_inverts_daysFromCivil :
  map (fun ymd => civilFromDays
                    (daysFromCivil (fst (fst ymd)) (snd (fst ymd)) (snd ymd)))
    [(1970, 1, 1); (2024, 2, 29); (2024, 3, 7); (1999, 12, 31); (5, 3, 7)]%Z
  = [(1970, 1, 1); (2024, 2, 29); (2024, 3, 7); (1999, 12, 31); (5, 3, 7)]%Z.
Proof. reflexivity. Qed.

(** The sample series holds whole numbers and one half: nothing is
    rounded in its sums, and its computed averages lie between the
    extremes.  Over the ten readings of 0.1 the computed average lies
    within the rounding allowance of the lowest. *)
Lemma average_within_range_up_to_rounding_witness :
  (morning <> []
   /\ (Z.of_nat (List.length morning) < 2 ^ 32)%Z
   /\ Forall (fun d => isFinite (temperature d) = true
                       /\ isFinite (humidity d) = true) morning)
  /\ (exactValue (lowest (statisticsOf temperature morning))
      <= exactMean (map temperature morning)
      <= exactValue (highest (statisticsOf temperature morning)))%Q
  /\ meanWithinRange (statisticsOf temperature morning) = true
  /\ meanWithinRange (statisticsOf humidity morning) = true
  /\ average (statisticsOf temperature morning) = 20.75%float
  /\ isFinite (average (statisticsOf temperature tenTenths)) = true
  /\ (exactValue (lowest (statisticsOf temperature tenTenths))
      - roundingAllowance (map temperature tenTenths)
      <= exactValue (average (statisticsOf temperature tenTenths)))%Q.
Proof.
  assert (H1 : morning <> []) by discriminate.
  assert (H2 : (Z.of_nat (List.length morning) < 2 ^ 32)%Z) by reflexivity.
  assert (H3 : Forall (fun d => isFinite (temperature d) = true
                                /\ isFinite (humidity d) = true) morning).
  { repeat constructor. }
  split; [auto |].
  pose proof (average_within_range_up_to_rounding morning H1 H2 H3)
    as Hmorning.
  cbv zeta in Hmorning.
  destruct Hmorning
    as [_ [Hmean [_ [_ [_ [_ [_ [_ [_ [_ [_ [_ [Hexact Hexact']]]]]]]]]]]]].
  split; [exact Hmean |].
  assert (Hhalves : forall values,
             forallb (fun v => (ulps v mod 2 ^ 1073 =? 0)%Z) values = true ->
             Forall (multipleOfPower 1073) values).
  { intros values Hvalues. apply Forall_forall. intros v Hin.
    rewrite forallb_forall in Hvalues. specialize (Hvalues v Hin).
    apply Z.eqb_eq in Hvalues. unfold multipleOfPower.
    apply Z.mod_divide; [discriminate | exact Hvalues]. }
  assert (Hk : (0 <= 1073 <= 2045)%Z) by lia.
  split.
  { apply (Hexact 1073%Z Hk).
    - apply Hhalves. vm_compute. reflexivity.
    - apply Z.ltb_lt. vm_compute. reflexivity. }
  split.
  { apply (Hexact' 1073%Z Hk).
    - apply Hhalves. vm_compute. reflexivity.
    - apply Z.ltb_lt. vm_compute. reflexivity. }
  split; [vm_compute; reflexivity |].
  assert (T1 : tenTenths <> []) by discriminate.
  assert (T2 : (Z.of_nat (List.length tenTenths) < 2 ^ 32)%Z) by reflexivity.
  assert (T3 : Forall (fun d => isFinite (temperature d) = true
                                /\ isFinite (humidity d) = true) tenTenths).
  { repeat constructor. }
  pose proof (average_within_range_up_to_rounding tenTenths T1 T2 T3)
    as Htenths.
  cbv zeta in Htenths.
  destruct Htenths
    as [_ [_ [_ [_ [_ [_ [_ [_ [_ [_ [Hrounded _]]]]]]]]]]].
  destruct Hrounded as [Hfinite [Hbelow _]].
  { apply Z.leb_le. vm_compute. reflexivity. }
  split; [exact Hfinite | exact Hbelow].
Defined.

(** C6 fails as worded on the doubles the component computes: over ten
    readings of 0.1 the lowest and the highest temperature are 0.1, the sum
    of the ten is 0.9999999999999999, and the average, a tenth of it, is
    0.09999999999999999, below the lowest. *)
Lemma mean_below_lowest_counterexample :
  tenTenths <> []
  /\ lowest (statisticsOf temperature tenTenths) = tenth
  /\ highest (statisticsOf temperature tenTenths) = tenth
  /\ average (statisticsOf temperature tenTenths)
     = 0x1.9999999999999p-4%float
  /\ PrimFloat.leb (lowest (statisticsOf temperature tenTenths))
       (average (statisticsOf temperature tenTenths)) = false
  /\ meanWithinRange (statisticsOf temperature tenTenths) = false
  /\ meanWithinRange (statisticsOf humidity tenTenths) = false.
Proof.
  split; [discriminate |].
  repeat split; vm_compute; reflexivity.
Qed.

(** Where the sum overflows, the computed average is no number of the
    range at all: over two readings of the greatest double the sum and
    the average are [Infinity]. *)
Example average_of_greatest_doubles_is_infinite :
  let greatest := 0x1.fffffffffffffp+1023%float in
  let twice :=
    [ mkHistoricalReading "2024-03-07T10:00:00Z" greatest 50;
      mkHistoricalReading "2024-03-07T10:01:00Z" greatest 50 ] in
  isFinite greatest = true
  /\ average (statisticsOf temperature twice) = PrimFloat.infinity
  /\ meanWithinRange (statisticsOf temperature twice) = false.
Proof. repeat split; vm_compute; reflexivity. Qed.

(** ** The further properties on the sample runs *)

(** After the sample run the latest reading is the second one, with its
    time of receipt. *)
Lemma latest_reading_after_run_witness :
  exists w',
    run JSON_decode JSON_encode Dashboard sampleRun (initialWorld today)
    = Some w'
    /\ (realTimeData (app w'), lastUpdate (app w'))
       = (readingValue 210 480, Some "10:00:05").
Proof.
  destruct (run JSON_decode JSON_encode Dashboard sampleRun
              (initialWorld today)) as [w'|] eqn:Hrun;
    [| vm_compute in Hrun; discriminate].
  exists w'. split; [reflexivity |].
  rewrite (latest_reading_after_run JSON_decode JSON_encode Dashboard
             sampleRun (initialWorld today) w' Hrun).
  vm_compute. reflexivity.
Defined.

(** With the store, the record of the first write is the series; the
    write that failed added nothing. *)
Lemma series_after_run_witness :
  exists w',
    run JSON_decode JSON_encode DashboardWithStore sampleStoreRun
      (initialWorld today) = Some w'
    /\ historicalData (app w') = [savedSample].
Proof.
  destruct (run JSON_decode JSON_encode DashboardWithStore sampleStoreRun
              (initialWorld today)) as [w'|] eqn:Hrun;
    [| vm_compute in Hrun; discriminate].
  exists w'. split; [reflexivity |].
  rewrite (series_after_run JSON_decode JSON_encode DashboardWithStore
             sampleStoreRun (initialWorld today) w' Hrun).
  reflexivity.
Defined.

(** The sample run of the dashboard issues no write. *)
Lemma dashboard_never_writes_witness :
  exists w,
    run JSON_decode JSON_encode Dashboard sampleRun (initialWorld today)
    = Some w
    /\ filter isPost (issued w) = []
    /\ openPosts w = 0.
Proof.
  destruct (run JSON_decode JSON_encode Dashboard sampleRun
              (initialWorld today)) as [w|] eqn:Hrun;
    [| vm_compute in Hrun; discriminate].
  exists w. split; [reflexivity |].
  destruct (dashboard_never_writes JSON_decode JSON_encode today sampleRun
              w Hrun) as [Hlog [Hopen _]].
  auto.
Defined.

(** With the store, the two readings of the sample run go out as two
    writes, and both have settled. *)
Lemma store_forwards_each_reading_once_witness :
  exists w',
    run JSON_decode JSON_encode DashboardWithStore sampleStoreRun
      (initialWorld today) = Some w'
    /\ filter isPost (issued w')
       = [FetchPost "http://localhost:8080/api/sensor"
            (readingPayload 200 500);
          FetchPost "http://localhost:8080/api/sensor"
            (readingPayload 210 480)]
    /\ openPosts w' = 0.
Proof.
  destruct (run JSON_decode JSON_encode DashboardWithStore sampleStoreRun
              (initialWorld today)) as [w'|] eqn:Hrun;
    [| vm_compute in Hrun; discriminate].
  exists w'. split; [reflexivity |].
  destruct (store_forwards_each_reading_once JSON_decode JSON_encode
              sampleStoreRun (initialWorld today) w' Hrun) as [Hlog Hopen].
  split.
  - rewrite Hlog. vm_compute. reflexivity.
  - assert (Hsettled :
              List.length (filter isStoreEvent sampleStoreRun) = 2)
      by reflexivity.
    assert (Htaken :
              List.length (takenValues JSON_decode sampleStoreRun) = 2)
      by (vm_compute; reflexivity).
    rewrite Hsettled, Htaken in Hopen.
    change (openPosts (initialWorld today)) with 0 in Hopen. lia.
Defined.

(** Nothing was thrown in the sample run, which has a payload that does
    not decode, a transport error and a date selection in it. *)
Lemma no_callback_ever_throws_witness :
  exists w,
    run JSON_decode JSON_encode Dashboard sampleRun (initialWorld today)
    = Some w
    /\ uncaught w = [].
Proof.
  destruct (run JSON_decode JSON_encode Dashboard sampleRun
              (initialWorld today)) as [w|] eqn:Hrun;
    [| vm_compute in Hrun; discriminate].
  exists w. split; [reflexivity |].
  exact (no_callback_ever_throws JSON_decode JSON_encode Dashboard today
           sampleRun w Hrun).
Defined.

(** The sample run ends with a transport error: disconnected, after the
    one subscription of its one connect. *)
Lemma connection_flag_after_run_witness :
  exists w',
    run JSON_decode JSON_encode Dashboard sampleRun (initialWorld today)
    = Some w'
    /\ mqttConnected (app w') = false
    /\ filter isSubscribe (issued w') = [Subscribe MQTT_TOPIC].
Proof.
  destruct (run JSON_decode JSON_encode Dashboard sampleRun
              (initialWorld today)) as [w'|] eqn:Hrun;
    [| vm_compute in Hrun; discriminate].
  exists w'. split; [reflexivity |].
  destruct (connection_flag_after_run JSON_decode JSON_encode Dashboard
              sampleRun (initialWorld today) w' Hrun) as [Hflag Hlog].
  split; [rewrite Hflag | rewrite Hlog]; reflexivity.
Defined.

(** The one click of the sample run came after the year 5 was selected:
    the one read request is for that date. *)
Lemma read_requests_follow_clicks_witness :
  exists w',
    run JSON_decode JSON_encode Dashboard sampleRun (initialWorld today)
    = Some w'
    /\ filter isGet (issued w')
       = [FetchGet "http://localhost:8080/api/sensor/07_03_5"]
    /\ selectedDate (app w') = yearFive.
Proof.
  destruct (run JSON_decode JSON_encode Dashboard sampleRun
              (initialWorld today)) as [w'|] eqn:Hrun;
    [| vm_compute in Hrun; discriminate].
  exists w'. split; [reflexivity |].
  destruct (read_requests_follow_clicks JSON_decode JSON_encode Dashboard
              sampleRun (initialWorld today) w' Hrun) as [Hlog Hdate].
  split; [rewrite Hlog | rewrite Hdate]; reflexivity.
Defined.

(** A click for the seventh of March 2024, then the year 5 and then the
    year 1924 are selected, then the response arrives. *)
Lemma response_applies_after_date_change_witness :
  (isLoading (app (invoke fetchData (initialWorld today))) = true
   /\ openGets (invoke fetchData (initialWorld today)) = 1)
  /\ exists w',
       run JSON_decode JSON_encode Dashboard
         [ClickFetch; SelectDate yearFive; SelectDate centuryBefore;
          FetchResolved morning] (initialWorld today) = Some w'
       /\ historicalData (app w') = morning
       /\ selectedDate (app w') = centuryBefore
       /\ filter isGet (issued w')
          = [FetchGet "http://localhost:8080/api/sensor/07_03_24"].
Proof.
  assert (H1 : isLoading (app (invoke fetchData (initialWorld today))) = true)
    by reflexivity.
  assert (H2 : openGets (invoke fetchData (initialWorld today)) = 1)
    by reflexivity.
  split; [auto |].
  destruct (response_applies_after_date_change JSON_decode JSON_encode
              Dashboard (invoke fetchData (initialWorld today))
              [yearFive; centuryBefore] morning H1 H2)
    as [w' [Hrun [Hdata [Hdate [_ [_ Hlog]]]]]].
  exists w'. split; [exact Hrun |].
  split; [exact Hdata |]. split; [exact Hdate |].
  rewrite Hlog. reflexivity.
Defined.


(** After a reading arrived, the payload [null] brings the placeholder
    back, with the time of receipt recorded; and a payload whose
    temperature is an object is recorded and makes the render fail. *)
Lemma panel_after_message_witness :
  (JSON_decode "null" = Some JNull
   /\ JSON_decode objectTemperaturePayload = Some objectTemperatureValue)
  /\ exists w w' w'',
       run JSON_decode JSON_encode Dashboard
         [MqttMessage MQTT_TOPIC (readingPayload 200 500) "10:00:00"]
         (initialWorld today) = Some w
       /\ dispatch JSON_decode JSON_encode Dashboard
            (MqttMessage MQTT_TOPIC "null" "10:00:05") w = Some w'
       /\ realTimePanel (app w') = inr NoRealTimeData
       /\ lastUpdate (app w') = Some "10:00:05"
       /\ dispatch JSON_decode JSON_encode Dashboard
            (MqttMessage MQTT_TOPIC objectTemperaturePayload "10:00:09") w
          = Some w''
       /\ realTimeData (app w'') = objectTemperatureValue
       /\ realTimePanel (app w'')
          = inl (InvalidChild (Some (JObject [("a", JNumber 1)]))).
Proof.
  assert (H : JSON_decode "null" = Some JNull) by (vm_compute; reflexivity).
  assert (H' : JSON_decode objectTemperaturePayload
               = Some objectTemperatureValue) by (vm_compute; reflexivity).
  split; [auto |].
  destruct (run JSON_decode JSON_encode Dashboard
              [MqttMessage MQTT_TOPIC (readingPayload 200 500) "10:00:00"]
              (initialWorld today)) as [w|] eqn:Hrun;
    [| vm_compute in Hrun; discriminate].
  exists w. do 2 eexists. split; [reflexivity |].
  destruct (panel_after_message JSON_decode JSON_encode Dashboard "null"
              "10:00:05" JNull w H) as [Hstep [_ [Htime [_ [Hfalsy _]]]]].
  destruct (panel_after_message JSON_decode JSON_encode Dashboard
              objectTemperaturePayload "10:00:09" objectTemperatureValue w H')
    as [Hstep' [Hvalue [_ [_ [_ Hobject]]]]].
  split; [exact Hstep |].
  split; [exact (Hfalsy eq_refl) |]. split; [exact Htime |].
  split; [exact Hstep' |]. split; [exact Hvalue |].
  exact (Hobject _ _ eq_refl eq_refl eq_refl).
Defined.

(** The chart of the sample series: the earlier reading first. *)
Lemma chart_plots_series_in_time_order_witness :
  morning <> []
  /\ exists sorted,
       LineChart Date_parseUTC (fun text => text) morning
       = Some (mkChartData (map timestamp sorted) (map temperature sorted)
                 (map humidity sorted))
       /\ Permutation morning sorted.
Proof.
  assert (H : morning <> []) by discriminate.
  split; [exact H |].
  destruct (chart_plots_series_in_time_order Date_parseUTC
              (fun text => text) morning H)
    as [sorted [Hchart [Hperm _]]].
  exists sorted. split; [exact Hchart | exact Hperm].
Defined.

(** The sample series with the earlier reading first is in time order,
    and is charted as it is. *)
Lemma ordered_series_is_charted_as_it_arrived_witness :
  StronglySorted (notLater Date_parseUTC) (rev morning)
  /\ sortedData Date_parseUTC (rev morning) = rev morning.
Proof.
  assert (H : StronglySorted (notLater Date_parseUTC) (rev morning)).
  { repeat constructor.
    exists 1709799300500%Z, 1709803800000%Z.
    repeat split; vm_compute; congruence. }
  split; [exact H |].
  exact (ordered_series_is_charted_as_it_arrived Date_parseUTC (rev morning)
           H).
Defined.

(** Of three readings, the two of half past nine come out of the sort
    after the one of a quarter past eight, in the order they arrived. *)
Lemma equal_times_keep_arrival_order_witness :
  Forall (parses Date_parseUTC) sameTime
  /\ map temperature (sortedData Date_parseUTC sameTime)
     = [20; 21; 22]%float
  /\ map temperature
       (recordedAt Date_parseUTC 1709803800000
          (sortedData Date_parseUTC sameTime))
     = [21; 22]%float.
Proof.
  assert (H : Forall (parses Date_parseUTC) sameTime).
  { repeat constructor; eexists; vm_compute; reflexivity. }
  split; [exact H |].
  split; [vm_compute; reflexivity |].
  rewrite (equal_times_keep_arrival_order Date_parseUTC sameTime
             1709803800000 H).
  vm_compute. reflexivity.
Defined.

(** The seventh of March of 1924 and of 2024 are asked for under the same
    address. *)
Lemma years_a_century_apart_share_a_path_witness :
  (getDate centuryBefore = getDate today
   /\ getMonth centuryBefore = getMonth today
   /\ (10 <= getFullYear centuryBefore)%Z
   /\ (10 <= getFullYear today)%Z
   /\ (getFullYear centuryBefore mod 100 = getFullYear today mod 100)%Z)
  /\ API_URL centuryBefore = API_URL today.
Proof.
  assert (H1 : getDate centuryBefore = getDate today) by reflexivity.
  assert (H2 : getMonth centuryBefore = getMonth today) by reflexivity.
  assert (H3 : (10 <= getFullYear centuryBefore)%Z) by (simpl; lia).
  assert (H4 : (10 <= getFullYear today)%Z) by (simpl; lia).
  assert (H5 : (getFullYear centuryBefore mod 100
                = getFullYear today mod 100)%Z) by reflexivity.
  split; [auto |].
  exact (years_a_century_apart_share_a_path centuryBefore today
           H1 H2 H3 H4 H5).
Defined.

(** In the century of 2024 the address of the seventh of March 2024 is
    that of no other day. *)
Lemma path_tells_days_of_a_century_apart_witness :
  (validDay today /\ inCentury 20 today /\ (10 <= getFullYear today)%Z)
  /\ today = mkDate 2024 2 7.
Proof.
  assert (H1 : validDay today) by (unfold validDay; simpl; lia).
  assert (H2 : inCentury 20 today) by (unfold inCentury; simpl; lia).
  assert (H3 : (10 <= getFullYear today)%Z) by (simpl; lia).
  split; [auto |].
  exact (path_tells_days_of_a_century_apart 20 today (mkDate 2024 2 7)
           H1 H1 H2 H2 H3 H3 eq_refl).
Defined.

(** The sample run logs two errors: the payload that did not decode, and
    the transport error. *)
Lemma each_failure_is_logged_once_witness :
  exists w',
    run JSON_decode JSON_encode Dashboard sampleRun (initialWorld today)
    = Some w'
    /\ filter isConsoleError (issued w')
       = [ConsoleError "Error parsing MQTT message:";
          ConsoleError "MQTT Connection Error:"].
Proof.
  destruct (run JSON_decode JSON_encode Dashboard sampleRun
              (initialWorld today)) as [w'|] eqn:Hrun;
    [| vm_compute in Hrun; discriminate].
  exists w'. split; [reflexivity |].
  rewrite (each_failure_is_logged_once JSON_decode JSON_encode Dashboard
             sampleRun (initialWorld today) w' Hrun).
  vm_compute. reflexivity.
Defined.
